(** * flowercare-exporter: configuration resolution (internal/config/config.go)

    A shallow embedding of the configuration package of the exporter: the
    sensor descriptors, the two ways the sensor list is filled (a directory
    of JSON records, repeated [-s] tokens), the registration and parsing of
    the command-line flags, and the checks [Parse] runs before it returns.

    Go values are modelled as follows.
    - [string] and [[]byte] are Rocq strings (sequences of 8-bit characters).
    - [int] and [time.Duration] are 64-bit signed integers: [Z] with the
      wrap-around of Go's arithmetic written out ([wrap64]).
    - [float64] is Rocq's primitive binary64 [float].
    - an [error] is its message where the message is a constant, and a
      constructor carrying the printed values otherwise.
    - a function returning [(T, error)] returns a pair [T * option error]. *)

From Stdlib Require Import ZArith String Ascii List Bool Lia Floats.
Import ListNotations.

Local Open Scope string_scope.
Local Open Scope list_scope.

(* ================================================================== *)
(** ** Package [strings] *)

Module Strings.

(** [s[n:]] for [n <= len(s)]. *)
Fixpoint drop (n : nat) (s : string) : string :=
  match n, s with
  | O, _ => s
  | S n', String _ s' => drop n' s'
  | S _, EmptyString => EmptyString
  end.

(** [strings.HasPrefix(s, p)]. *)
Fixpoint HasPrefix (s p : string) {struct p} : bool :=
  match p, s with
  | EmptyString, _ => true
  | String c p', String d s' => Ascii.eqb c d && HasPrefix s' p'
  | String _ _, EmptyString => false
  end.

(** [strings.HasSuffix(s, suffix)]:
    [len(s) >= len(suffix) && s[len(s)-len(suffix):] == suffix]. *)
Definition HasSuffix (s suffix : string) : bool :=
  (String.length suffix <=? String.length s)%nat
  && String.eqb (drop (String.length s - String.length suffix) s) suffix.

(** [strings.Cut(s, sep)] for a non-empty [sep]: the text before and
    after the first occurrence of [sep] (the one [strings.Index] finds), or
    [None] when there is none. *)
Fixpoint Cut (s sep : string) : option (string * string) :=
  if HasPrefix s sep then Some (EmptyString, drop (String.length sep) s)
  else match s with
       | EmptyString => None
       | String c s' =>
           match Cut s' sep with
           | Some (before, after) => Some (String c before, after)
           | None => None
           end
       end.

(** [strings.SplitN(s, sep, n)] for [n >= 0] and a non-empty [sep]: at
    most [n] pieces, the last one being the unsplit remainder. *)
Fixpoint SplitN (s sep : string) (n : nat) : list string :=
  match n with
  | O => []
  | S O => [s]
  | S n' =>
      match Cut s sep with
      | Some (before, after) => before :: SplitN after sep n'
      | None => [s]
      end
  end.

(** The byte [c] occurs in [s]. *)
Definition occurs (c : ascii) (s : string) : Prop :=
  In c (list_ascii_of_string s).

End Strings.

(* ================================================================== *)
(** ** Sensor descriptors and the [-s] flag value *)

Local Open Scope Z_scope.

(** [type Sensor struct]. *)
Record Sensor : Set := mkSensor {
  Name : string;
  MacAddress : string;
  MaxSoilMoist : Z;
  MinSoilMoist : Z;
  MaxSoilEc : Z;
  MinSoilEc : Z;
  MaxLightLux : Z;
  MinLightLux : Z
}.

(** [type SensorList []Sensor]. *)
Definition SensorList := list Sensor.

(** The zero value [Sensor{}]. *)
Definition Sensor_zero : Sensor := mkSensor "" "" 0 0 0 0 0 0.

(** [func parseSensor(value string) (Sensor, error)]. *)
Definition parseSensor (value : string) : Sensor * option string :=
  if (String.length value =? 0)%nat then
    (Sensor_zero, Some "empty string")
  else
    let tokens := Strings.SplitN value "=" 2 in
    match tokens with
    | [t0] => (mkSensor "" t0 0 0 0 0 0 0, None)
    | t0 :: t1 :: _ => (mkSensor t0 t1 0 0 0 0 0 0, None)
    | [] => (Sensor_zero, None) (* SplitN with n = 2 never returns no piece *)
    end.

(** [func (s *SensorList) Set(value string) error]: the list after the
    call, and the error. *)
Definition SensorList_Set (s : SensorList) (value : string)
  : SensorList * option string :=
  match parseSensor value with
  | (_, Some err) => (s, Some ("can not parse sensor: " ++ err)%string)
  | (sensor, None) => (s ++ [sensor], None)
  end.

(** [Set] called once per token, in the order of the tokens, stopping at
    the first error, as the flag parser does for a repeated flag. *)
Fixpoint SensorList_SetAll (s : SensorList) (values : list string)
  : SensorList * option string :=
  match values with
  | [] => (s, None)
  | v :: rest =>
      match SensorList_Set s v with
      | (s', None) => SensorList_SetAll s' rest
      | (s', Some err) => (s', Some err)
      end
  end.

(** [func (s Sensor) String() string]. *)
Definition Sensor_String (s : Sensor) : string :=
  if String.eqb (Name s) "" then MacAddress s
  else (Name s ++ " (" ++ MacAddress s ++ ")")%string.

(** [fmt.Sprintf("%s", sensors)] for a slice of strings: the items
    between brackets, separated by one blank. *)
Definition fmt_Sprintf_strings (items : list string) : string :=
  ("[" ++ String.concat " " items ++ "]")%string.

(** [func (s *SensorList) String() string]. *)
Definition SensorList_String (s : SensorList) : string :=
  if (List.length s =? 0)%nat then ""
  else fmt_Sprintf_strings (map Sensor_String s).

(** [func (s *SensorList) Type() string]. *)
Definition SensorList_Type : string := "address".

(* ================================================================== *)
(** ** Package [encoding/json], as [Sensor.UnmarshalJSON] uses it

    [json.Unmarshal(data, &raw)] first checks the whole input against the
    JSON grammar (a byte-at-a-time scanner with a stack of open arrays and
    objects) and then stores the value in the destination.  The scanner and
    the value it reads are [Json.scan]; the store into the anonymous struct
    of [UnmarshalJSON] is [Json.Unmarshal]. *)

Module Json.

Definition code (c : ascii) : Z := Z.of_N (N_of_ascii c).
Definition chr (z : Z) : ascii := ascii_of_N (Z.to_N z).

#[local] Set Warnings "-register-all".

(** A JSON value.  A number keeps its literal; an object keeps its
    members in the order of the text, duplicates included. *)
Inductive value : Type :=
| Null
| Bool (b : bool)
| Number (lit : string)
| Str (s : string)
| Array (items : list value)
| Object (members : list (string * value)).

(** *** Strings: escapes and UTF-8 *)

Definition isHex (c : ascii) : bool :=
  let n := code c in
  ((48 <=? n) && (n <=? 57)) || ((97 <=? n) && (n <=? 102))
  || ((65 <=? n) && (n <=? 70)).

Definition hexval (c : ascii) : Z :=
  let n := code c in
  if (48 <=? n) && (n <=? 57) then n - 48
  else if (97 <=? n) && (n <=? 102) then n - 97 + 10
  else if (65 <=? n) && (n <=? 70) then n - 65 + 10
  else 0.

(** [getu4]: the code unit of four hexadecimal digits, [-1] otherwise. *)
Definition getu4 (a b c d : ascii) : Z :=
  if isHex a && isHex b && isHex c && isHex d
  then ((hexval a * 16 + hexval b) * 16 + hexval c) * 16 + hexval d
  else -1.

(** [utf8.EncodeRune]; surrogates and values out of range are encoded
    as U+FFFD. *)
Definition replacementChar : Z := 65533.

Definition encodeRune (r : Z) : string :=
  let r := if (r <? 0) || (1114111 <? r) || ((55296 <=? r) && (r <=? 57343))
           then replacementChar else r in
  if r <=? 127 then String (chr r) ""
  else if r <=? 2047 then
    String (chr (192 + r / 64)) (String (chr (128 + r mod 64)) "")
  else if r <=? 65535 then
    String (chr (224 + r / 4096))
      (String (chr (128 + (r / 64) mod 64)) (String (chr (128 + r mod 64)) ""))
  else
    String (chr (240 + r / 262144))
      (String (chr (128 + (r / 4096) mod 64))
         (String (chr (128 + (r / 64) mod 64))
            (String (chr (128 + r mod 64)) ""))).

(** [utf16.IsSurrogate] and [utf16.DecodeRune]. *)
Definition isSurrogate (r : Z) : bool := (55296 <=? r) && (r <? 57344).

Definition decodeSurrogate (r1 r2 : Z) : Z :=
  if (55296 <=? r1) && (r1 <? 56320) && (56320 <=? r2) && (r2 <? 57344)
  then (r1 - 55296) * 1024 + (r2 - 56320) + 65536
  else replacementChar.

(** The escaped character of a one-letter escape. *)
Definition unescape (e : ascii) : ascii :=
  match e with
  | "b"%char => chr 8
  | "f"%char => chr 12
  | "n"%char => chr 10
  | "r"%char => chr 13
  | "t"%char => chr 9
  | _ => e (* the quote, the backslash and the slash stand for themselves *)
  end.

Definition isCont (c : ascii) : bool := (128 <=? code c) && (code c <=? 191).

(** The first byte [c] of a multi-byte UTF-8 sequence: how many bytes
    follow, and the range the first of them must lie in
    ([utf8.DecodeRune]'s table); [None] for a byte that starts none. *)
Definition utf8_first (c : ascii) : option (nat * Z * Z) :=
  let n := code c in
  if (194 <=? n) && (n <=? 223) then Some (1%nat, 128, 191)
  else if n =? 224 then Some (2%nat, 160, 191)
  else if (225 <=? n) && (n <=? 236) then Some (2%nat, 128, 191)
  else if n =? 237 then Some (2%nat, 128, 159)
  else if (238 <=? n) && (n <=? 239) then Some (2%nat, 128, 191)
  else if n =? 240 then Some (3%nat, 144, 191)
  else if (241 <=? n) && (n <=? 243) then Some (3%nat, 128, 191)
  else if n =? 244 then Some (3%nat, 128, 143)
  else None.

Definition inRange (lo hi : Z) (c : ascii) : bool :=
  (lo <=? code c) && (code c <=? hi).

Definition FFFD : string := encodeRune replacementChar.

(** [unquote]: the text of a string literal (the bytes between the
    quotes, already accepted by the scanner) with its escapes replaced
    and every byte that is not part of well-formed UTF-8 replaced by
    U+FFFD. *)
Fixpoint unquote (s : string) : string :=
  match s with
  | EmptyString => EmptyString
  | String c rest =>
      if Ascii.eqb c "\"%char then
        match rest with
        | String e rest1 =>
            if Ascii.eqb e "u"%char then
              match rest1 with
              | String h1 (String h2 (String h3 (String h4 rest2))) =>
                  let rr := getu4 h1 h2 h3 h4 in
                  if isSurrogate rr then
                    match rest2 with
                    | String b (String u (String l1 (String l2
                        (String l3 (String l4 rest3))))) =>
                        let rr1 := if Ascii.eqb b "\"%char && Ascii.eqb u "u"%char
                                   then getu4 l1 l2 l3 l4 else -1 in
                        let dec := decodeSurrogate rr rr1 in
                        if dec =? replacementChar
                        then (FFFD ++ unquote rest2)%string
                        else (encodeRune dec ++ unquote rest3)%string
                    | _ => (FFFD ++ unquote rest2)%string
                    end
                  else (encodeRune rr ++ unquote rest2)%string
              | _ => EmptyString (* excluded by the scanner *)
              end
            else String (unescape e) (unquote rest1)
        | EmptyString => EmptyString (* excluded by the scanner *)
        end
      else if code c <? 128 then String c (unquote rest)
      else
        match utf8_first c with
        | Some (1%nat, lo, hi) =>
            match rest with
            | String c1 r1 =>
                if inRange lo hi c1 then String c (String c1 (unquote r1))
                else (FFFD ++ unquote rest)%string
            | _ => (FFFD ++ unquote rest)%string
            end
        | Some (2%nat, lo, hi) =>
            match rest with
            | String c1 (String c2 r2) =>
                if inRange lo hi c1 && isCont c2
                then String c (String c1 (String c2 (unquote r2)))
                else (FFFD ++ unquote rest)%string
            | _ => (FFFD ++ unquote rest)%string
            end
        | Some (_, lo, hi) =>
            match rest with
            | String c1 (String c2 (String c3 r3)) =>
                if inRange lo hi c1 && isCont c2 && isCont c3
                then String c (String c1 (String c2 (String c3 (unquote r3))))
                else (FFFD ++ unquote rest)%string
            | _ => (FFFD ++ unquote rest)%string
            end
        | None => (FFFD ++ unquote rest)%string
        end
  end.

(** *** The scanner

    One open array or object of the text read so far, innermost first:
    the items or members already complete (latest first) and, for an
    object whose next value is being read, the key of that value. *)
Inductive frame : Type :=
| FArr (items : list value)
| FObj (members : list (string * value))
| FVal (members : list (string * value)) (key : string).

(** What the scanner expects next ([scanner.step]).  A string or number
    being read carries its bytes so far, latest first. *)
Inductive mode : Type :=
| BeginValue
| BeginValueOrEmpty
| BeginStringOrEmpty
| BeginString
| InString (acc : list ascii)
| InStringEsc (acc : list ascii)
| InStringEscU (acc : list ascii) (more : nat)
| Neg (acc : list ascii)
| Zero (acc : list ascii)
| Int1 (acc : list ascii)
| Dot (acc : list ascii)
| Dot0 (acc : list ascii)
| Exp (acc : list ascii)
| ExpSign (acc : list ascii)
| Exp0 (acc : list ascii)
| Lit (rest : list ascii) (v : value)
| AfterKey
| EndValue
| EndTop (v : value).

Record state : Type := mkState { st_mode : mode; st_stack : list frame }.

Definition maxNestingDepth : Z := 10000.

Definition isSpace (c : ascii) : bool :=
  Ascii.eqb c " "%char || (code c =? 9) || (code c =? 13) || (code c =? 10).

Definition isDigit (c : ascii) : bool := (48 <=? code c) && (code c <=? 57).

Definition text (acc : list ascii) : string :=
  string_of_list_ascii (rev acc).

(** A complete value [v] is handed to the innermost open container. *)
Definition deliver (v : value) (stk : list frame) : option state :=
  match stk with
  | [] => Some (mkState (EndTop v) [])
  | FArr items :: r => Some (mkState EndValue (FArr (v :: items) :: r))
  | FVal members key :: r =>
      Some (mkState EndValue (FObj ((key, v) :: members) :: r))
  | FObj members :: r =>
      match v with
      | Str key => Some (mkState AfterKey (FVal members key :: r))
      | _ => None
      end
  end.

(** [pushParseState]: one more open container, refused beyond the
    maximal depth. *)
Definition push (f : frame) (m : mode) (stk : list frame) : option state :=
  if Z.of_nat (List.length stk) <? maxNestingDepth
  then Some (mkState m (f :: stk)) else None.

(** [stateEndValue], [stateEndTop] and the colon after a key: the byte
    [c] read once a value is complete. *)
Definition endValue (st : state) (c : ascii) : option state :=
  if isSpace c then Some st else
  match st_mode st, st_stack st with
  | AfterKey, _ =>
      if Ascii.eqb c ":"%char then Some (mkState BeginValue (st_stack st))
      else None
  | EndValue, FArr items :: r =>
      if Ascii.eqb c ","%char then Some (mkState BeginValue (st_stack st))
      else if Ascii.eqb c "]"%char then deliver (Array (rev items)) r
      else None
  | EndValue, FObj members :: r =>
      if Ascii.eqb c ","%char then Some (mkState BeginString (st_stack st))
      else if Ascii.eqb c "}"%char then deliver (Object (rev members)) r
      else None
  | _, _ => None
  end.

(** A number ends at the first byte [c] that does not continue it; [c]
    is then read as the byte after a value. *)
Definition endNumber (acc : list ascii) (stk : list frame) (c : ascii)
  : option state :=
  match deliver (Number (text acc)) stk with
  | Some st => endValue st c
  | None => None
  end.

(** [stateBeginValue]. *)
Definition beginValue (stk : list frame) (c : ascii) : option state :=
  if isSpace c then Some (mkState BeginValue stk)
  else if Ascii.eqb c "{"%char then push (FObj []) BeginStringOrEmpty stk
  else if Ascii.eqb c "["%char then push (FArr []) BeginValueOrEmpty stk
  else if code c =? 34 then Some (mkState (InString []) stk)
  else if Ascii.eqb c "-"%char then Some (mkState (Neg [c]) stk)
  else if Ascii.eqb c "0"%char then Some (mkState (Zero [c]) stk)
  else if Ascii.eqb c "t"%char then
    Some (mkState (Lit (list_ascii_of_string "rue") (Bool true)) stk)
  else if Ascii.eqb c "f"%char then
    Some (mkState (Lit (list_ascii_of_string "alse") (Bool false)) stk)
  else if Ascii.eqb c "n"%char then
    Some (mkState (Lit (list_ascii_of_string "ull") Null) stk)
  else if isDigit c then Some (mkState (Int1 [c]) stk)
  else None.

(** [stateBeginString]. *)
Definition beginString (stk : list frame) (c : ascii) : option state :=
  if isSpace c then Some (mkState BeginString stk)
  else if code c =? 34 then Some (mkState (InString []) stk)
  else None.

Definition isExpChar (c : ascii) : bool :=
  Ascii.eqb c "e"%char || Ascii.eqb c "E"%char.

(** One byte of input. *)
Definition step (st : state) (c : ascii) : option state :=
  let stk := st_stack st in
  match st_mode st with
  | BeginValue => beginValue stk c
  | BeginValueOrEmpty =>
      if isSpace c then Some st
      else if Ascii.eqb c "]"%char then
        match stk with
        | FArr items :: r => deliver (Array (rev items)) r
        | _ => None
        end
      else beginValue stk c
  | BeginStringOrEmpty =>
      if isSpace c then Some st
      else if Ascii.eqb c "}"%char then
        match stk with
        | FObj members :: r => deliver (Object (rev members)) r
        | _ => None
        end
      else beginString stk c
  | BeginString => beginString stk c
  | InString acc =>
      if code c =? 34 then deliver (Str (unquote (text acc))) stk
      else if Ascii.eqb c "\"%char then Some (mkState (InStringEsc (c :: acc)) stk)
      else if code c <? 32 then None
      else Some (mkState (InString (c :: acc)) stk)
  | InStringEsc acc =>
      if Ascii.eqb c "u"%char then Some (mkState (InStringEscU (c :: acc) 4) stk)
      else if Ascii.eqb c "b"%char || Ascii.eqb c "f"%char || Ascii.eqb c "n"%char
              || Ascii.eqb c "r"%char || Ascii.eqb c "t"%char
              || Ascii.eqb c "\"%char || Ascii.eqb c "/"%char || (code c =? 34)
      then Some (mkState (InString (c :: acc)) stk)
      else None
  | InStringEscU acc more =>
      if isHex c then
        match more with
        | S (S n) => Some (mkState (InStringEscU (c :: acc) (S n)) stk)
        | _ => Some (mkState (InString (c :: acc)) stk)
        end
      else None
  | Neg acc =>
      if Ascii.eqb c "0"%char then Some (mkState (Zero (c :: acc)) stk)
      else if isDigit c then Some (mkState (Int1 (c :: acc)) stk)
      else None
  | Int1 acc =>
      if isDigit c then Some (mkState (Int1 (c :: acc)) stk)
      else if Ascii.eqb c "."%char then Some (mkState (Dot (c :: acc)) stk)
      else if isExpChar c then Some (mkState (Exp (c :: acc)) stk)
      else endNumber acc stk c
  | Zero acc =>
      if Ascii.eqb c "."%char then Some (mkState (Dot (c :: acc)) stk)
      else if isExpChar c then Some (mkState (Exp (c :: acc)) stk)
      else endNumber acc stk c
  | Dot acc =>
      if isDigit c then Some (mkState (Dot0 (c :: acc)) stk) else None
  | Dot0 acc =>
      if isDigit c then Some (mkState (Dot0 (c :: acc)) stk)
      else if isExpChar c then Some (mkState (Exp (c :: acc)) stk)
      else endNumber acc stk c
  | Exp acc =>
      if Ascii.eqb c "+"%char || Ascii.eqb c "-"%char
      then Some (mkState (ExpSign (c :: acc)) stk)
      else if isDigit c then Some (mkState (Exp0 (c :: acc)) stk)
      else None
  | ExpSign acc =>
      if isDigit c then Some (mkState (Exp0 (c :: acc)) stk) else None
  | Exp0 acc =>
      if isDigit c then Some (mkState (Exp0 (c :: acc)) stk)
      else endNumber acc stk c
  | Lit rest v =>
      match rest with
      | [d] => if Ascii.eqb c d then deliver v stk else None
      | d :: rest' =>
          if Ascii.eqb c d then Some (mkState (Lit rest' v) stk) else None
      | [] => None
      end
  | AfterKey | EndValue => endValue st c
  | EndTop v => if isSpace c then Some st else None
  end.

(** The bytes of the input, one after the other. *)
Fixpoint steps (st : state) (data : string) : option state :=
  match data with
  | EmptyString => Some st
  | String c rest =>
      match step st c with
      | Some st' => steps st' rest
      | None => None
      end
  end.

(** [checkValid] and the value read: the input is one JSON value with
    blanks around it.  At the end of the input the scanner is given one
    blank, which ends a number, and must then be past the value.  [None]
    is a [*json.SyntaxError]. *)
Definition scan (data : string) : option value :=
  match steps (mkState BeginValue []) data with
  | Some st =>
      match step st " "%char with
      | Some (mkState (EndTop v) _) => Some v
      | _ => None
      end
  | None => None
  end.

(** *** Storing a value in the struct of [UnmarshalJSON] *)

(** [*json.SyntaxError], and [*json.UnmarshalTypeError] with its [Value]
    field: the description of the JSON value that did not fit.  The
    message and the offset of a syntax error are not modelled:
    [SyntaxError] stands for every one of them, so two inputs refused with
    [SyntaxError] need not be refused with the same text. *)
Inductive error : Type :=
| SyntaxError
| UnmarshalTypeError (Value : string).

(** The anonymous struct [raw] and its [Parameter] struct. *)
Record rawParameter : Type := mkRawParameter {
  p_MaxSoilMoist : Z;
  p_MinSoilMoist : Z;
  p_MaxSoilEc : Z;
  p_MinSoilEc : Z;
  p_MaxLightLux : Z;
  p_MinLightLux : Z
}.

Record raw : Type := mkRaw {
  r_Name : string;
  r_MacAddress : string;
  r_Parameter : rawParameter
}.

Definition raw_zero : raw := mkRaw "" "" (mkRawParameter 0 0 0 0 0 0).

(** [d.saveError]: the first error is kept. *)
Definition saveError (saved : option error) (e : error) : option error :=
  match saved with
  | Some e0 => Some e0
  | None => Some e
  end.

(** The [Value] of the type error for a value of the wrong kind. *)
Definition describe (v : value) : string :=
  match v with
  | Null => "null"
  | Bool _ => "bool"
  | Number _ => "number"
  | Str _ => "string"
  | Array _ => "array"
  | Object _ => "object"
  end.

(** [strconv.ParseInt(lit, 10, 64)] on a JSON number literal: a sign and
    decimal digits only, within the range of [int64]. *)
Fixpoint digitsValue (acc : Z) (s : string) : option Z :=
  match s with
  | EmptyString => Some acc
  | String c rest =>
      if isDigit c then digitsValue (acc * 10 + (code c - 48)) rest else None
  end.

Definition ParseInt (lit : string) : option Z :=
  let signed :=
    match lit with
    | String "-"%char (String c rest) =>
        option_map Z.opp (digitsValue 0 (String c rest))
    | String _ _ => digitsValue 0 lit
    | EmptyString => None
    end in
  match signed with
  | Some n =>
      if (- 2 ^ 63 <=? n) && (n <=? 2 ^ 63 - 1) then Some n else None
  | None => None
  end.

(** A value stored in a field of type [string]. *)
Definition storeString (v : value) (old : string) (saved : option error)
  : string * option error :=
  match v with
  | Null => (old, saved)
  | Str s => (s, saved)
  | _ => (old, saveError saved (UnmarshalTypeError (describe v)))
  end.

(** A value stored in a field of type [int]. *)
Definition storeInt (v : value) (old : Z) (saved : option error)
  : Z * option error :=
  match v with
  | Null => (old, saved)
  | Number lit =>
      match ParseInt lit with
      | Some n => (n, saved)
      | None =>
          (old, saveError saved (UnmarshalTypeError ("number " ++ lit)%string))
      end
  | _ => (old, saveError saved (UnmarshalTypeError (describe v)))
  end.

(** [foldName]: the key under which a field is found when no field has
    exactly the name of the member.  ASCII letters are made upper case,
    and the two runes outside ASCII whose case folding is an ASCII letter,
    U+017F and U+212A, become [S] and [K]; every other rune folds to a
    rune outside ASCII and is left as it is, which no field name
    contains. *)
Fixpoint foldName (s : string) : string :=
  match s with
  | EmptyString => EmptyString
  | String c rest =>
      let n := code c in
      if (97 <=? n) && (n <=? 122) then String (chr (n - 32)) (foldName rest)
      else
        match rest with
        | String c1 rest1 =>
            if (n =? 197) && (code c1 =? 191) then String "S"%char (foldName rest1)
            else
              match rest1 with
              | String c2 rest2 =>
                  if (n =? 226) && (code c1 =? 132) && (code c2 =? 170)
                  then String "K"%char (foldName rest2)
                  else String c (foldName rest)
              | EmptyString => String c (foldName rest)
              end
        | EmptyString => String c (foldName rest)
        end
  end.

(** The field a member named [key] is stored in: the field of that exact
    name, otherwise the first field with the same folded name. *)
Definition lookupField (fields : list string) (key : string) : option string :=
  match find (String.eqb key) fields with
  | Some f => Some f
  | None => find (fun f => String.eqb (foldName f) (foldName key)) fields
  end.

Definition parameterFields : list string :=
  ["max_soil_moist"; "min_soil_moist"; "max_soil_ec"; "min_soil_ec";
   "max_light_lux"; "min_light_lux"].

Definition rawFields : list string := ["name"; "sensor"; "parameter"].

(** One member of the [parameter] object. *)
Definition storeParameterMember (st : rawParameter * option error)
  (m : string * value) : rawParameter * option error :=
  let (p, saved) := st in
  let (key, v) := m in
  match lookupField parameterFields key with
  | Some "max_soil_moist" =>
      let (n, e) := storeInt v (p_MaxSoilMoist p) saved in
      (mkRawParameter n (p_MinSoilMoist p) (p_MaxSoilEc p) (p_MinSoilEc p)
         (p_MaxLightLux p) (p_MinLightLux p), e)
  | Some "min_soil_moist" =>
      let (n, e) := storeInt v (p_MinSoilMoist p) saved in
      (mkRawParameter (p_MaxSoilMoist p) n (p_MaxSoilEc p) (p_MinSoilEc p)
         (p_MaxLightLux p) (p_MinLightLux p), e)
  | Some "max_soil_ec" =>
      let (n, e) := storeInt v (p_MaxSoilEc p) saved in
      (mkRawParameter (p_MaxSoilMoist p) (p_MinSoilMoist p) n (p_MinSoilEc p)
         (p_MaxLightLux p) (p_MinLightLux p), e)
  | Some "min_soil_ec" =>
      let (n, e) := storeInt v (p_MinSoilEc p) saved in
      (mkRawParameter (p_MaxSoilMoist p) (p_MinSoilMoist p) (p_MaxSoilEc p) n
         (p_MaxLightLux p) (p_MinLightLux p), e)
  | Some "max_light_lux" =>
      let (n, e) := storeInt v (p_MaxLightLux p) saved in
      (mkRawParameter (p_MaxSoilMoist p) (p_MinSoilMoist p) (p_MaxSoilEc p)
         (p_MinSoilEc p) n (p_MinLightLux p), e)
  | Some "min_light_lux" =>
      let (n, e) := storeInt v (p_MinLightLux p) saved in
      (mkRawParameter (p_MaxSoilMoist p) (p_MinSoilMoist p) (p_MaxSoilEc p)
         (p_MinSoilEc p) (p_MaxLightLux p) n, e)
  | _ => (p, saved) (* a member that names no field is skipped *)
  end.

(** A value stored in the field [Parameter]. *)
Definition storeParameter (v : value) (old : rawParameter)
  (saved : option error) : rawParameter * option error :=
  match v with
  | Null => (old, saved)
  | Object members => fold_left storeParameterMember members (old, saved)
  | _ => (old, saveError saved (UnmarshalTypeError (describe v)))
  end.

(** One member of the record object. *)
Definition storeMember (st : raw * option error) (m : string * value)
  : raw * option error :=
  let (r, saved) := st in
  let (key, v) := m in
  match lookupField rawFields key with
  | Some "name" =>
      let (s, e) := storeString v (r_Name r) saved in
      (mkRaw s (r_MacAddress r) (r_Parameter r), e)
  | Some "sensor" =>
      let (s, e) := storeString v (r_MacAddress r) saved in
      (mkRaw (r_Name r) s (r_Parameter r), e)
  | Some "parameter" =>
      let (p, e) := storeParameter v (r_Parameter r) saved in
      (mkRaw (r_Name r) (r_MacAddress r) p, e)
  | _ => (r, saved) (* a member that names no field is skipped *)
  end.

(** The value of the whole input stored in [raw]. *)
Definition store (v : value) (old : raw) : raw * option error :=
  match v with
  | Null => (old, None)
  | Object members => fold_left storeMember members (old, None)
  | _ => (old, Some (UnmarshalTypeError (describe v)))
  end.

(** [json.Unmarshal(data, &raw)] for a [raw] holding [old]. *)
Definition Unmarshal (data : string) (old : raw) : raw * option error :=
  match scan data with
  | None => (old, Some SyntaxError)
  | Some v => store v old
  end.

End Json.

(** [func (s *Sensor) UnmarshalJSON(data []byte) error]: the sensor after
    the call, and the error. *)
Definition Sensor_UnmarshalJSON (s : Sensor) (data : string)
  : Sensor * option Json.error :=
  match Json.Unmarshal data Json.raw_zero with
  | (_, Some err) => (s, Some err)
  | (raw, None) =>
      let p := Json.r_Parameter raw in
      (mkSensor (Json.r_Name raw) (Json.r_MacAddress raw)
         (Json.p_MaxSoilMoist p) (Json.p_MinSoilMoist p)
         (Json.p_MaxSoilEc p) (Json.p_MinSoilEc p)
         (Json.p_MaxLightLux p) (Json.p_MinLightLux p), None)
  end.

(* ================================================================== *)
(** ** The configuration and its environment *)

(** [logrus.Level]. *)
Inductive Level : Set :=
| PanicLevel | FatalLevel | ErrorLevel | WarnLevel | InfoLevel
| DebugLevel | TraceLevel.

(** [strings.ToLower] as far as [logrus.ParseLevel] can tell: ASCII
    letters are made lower case, and the two runes outside ASCII whose
    lower case in Go's case tables is an ASCII letter, U+0130 and U+212A,
    become [i] and [k]; any other rune has a lower case outside ASCII,
    which no level name contains, and is left as it is.  Only texts with
    bytes outside ASCII depend on these two cases. *)
Fixpoint ToLower (s : string) : string :=
  match s with
  | EmptyString => EmptyString
  | String c rest =>
      let n := Json.code c in
      if (65 <=? n) && (n <=? 90) then String (Json.chr (n + 32)) (ToLower rest)
      else
        match rest with
        | String c1 rest1 =>
            if (n =? 196) && (Json.code c1 =? 176)
            then String "i"%char (ToLower rest1)
            else
              match rest1 with
              | String c2 rest2 =>
                  if (n =? 226) && (Json.code c1 =? 132) && (Json.code c2 =? 170)
                  then String "k"%char (ToLower rest2)
                  else String c (ToLower rest)
              | EmptyString => String c (ToLower rest)
              end
        | EmptyString => String c (ToLower rest)
        end
  end.

(** [logrus.ParseLevel]. *)
Definition ParseLevel (lvl : string) : option Level :=
  match ToLower lvl with
  | "panic" => Some PanicLevel
  | "fatal" => Some FatalLevel
  | "error" => Some ErrorLevel
  | "warn" | "warning" => Some WarnLevel
  | "info" => Some InfoLevel
  | "debug" => Some DebugLevel
  | "trace" => Some TraceLevel
  | _ => None
  end.

(** The error of [logrus.ParseLevel] for the text [lvl]; its message is
    [not a valid logrus Level: ] followed by [lvl] as [%q] prints it. *)
Inductive LevelError : Set :=
| NotAValidLevel (lvl : string).

(** [func (l *LogLevel) Set(val string) error]: the level after the
    call, and the error. *)
Definition LogLevel_Set (l : Level) (val : string)
  : Level * option LevelError :=
  match ParseLevel val with
  | Some level => (level, None)
  | None => (l, Some (NotAValidLevel val))
  end.

(** [logrus.Level.String], for the seven levels. *)
Definition Level_String (level : Level) : string :=
  match level with
  | TraceLevel => "trace"
  | DebugLevel => "debug"
  | InfoLevel => "info"
  | WarnLevel => "warning"
  | ErrorLevel => "error"
  | FatalLevel => "fatal"
  | PanicLevel => "panic"
  end.

(** [func (l *LogLevel) String() string]. *)
Definition LogLevel_String (l : Level) : string := Level_String l.

(** [func (l *LogLevel) Type() string]. *)
Definition LogLevel_Type : string := "level".

(** [time.Duration]: nanoseconds in an [int64]. *)
Definition Duration := Z.

Definition Second : Duration := 1000000000.
Definition Minute : Duration := 60 * Second.

(** The value of an integer expression in [int64]. *)
Definition wrap64 (z : Z) : Z := (z + 2 ^ 63) mod 2 ^ 64 - 2 ^ 63.

(** A value an [int64] holds. *)
Definition int64_range (z : Z) : Prop := - 2 ^ 63 <= z < 2 ^ 63.

(** [type RetryConfig struct]. *)
Record RetryConfig : Set := mkRetryConfig {
  MinDuration : Duration;
  MaxDuration : Duration;
  Factor : float
}.

(** [type Config struct]. *)
Record Config : Set := mkConfig {
  LogLevel : Level;
  ListenAddr : string;
  Sensors : SensorList;
  Device : string;
  RefreshDuration : Duration;
  RefreshTimeout : Duration;
  StaleDuration : Duration;
  Retry : RetryConfig;
  SensorDir : string
}.

(** The zero value [Config{}]. *)
Definition Config_zero : Config :=
  mkConfig PanicLevel "" [] "" 0 0 0 (mkRetryConfig 0 0 0%float) "".

(** [os.DirEntry]: what [readSensorsFromDir] asks of an entry. *)
Record DirEntry : Set := mkDirEntry {
  entry_Name : string;
  entry_IsDir : bool
}.

(** What a run of [Parse] finds outside the package: the command line,
    the file system, and the library functions whose results it only
    passes on.  A result [(v, Some err)] is a call that returned the error
    [err]; [None] for a conversion is a text the library refused. *)
Record Env : Type := mkEnv {
  os_Args : list string; (* os.Args[1:] *)
  os_ReadDir : string -> list DirEntry * option string;
  os_ReadFile : string -> string * option string;
  filepath_Join : string -> string -> string;
  time_ParseDuration : string -> option Duration;
  strconv_ParseFloat : string -> option float
}.

(** The errors [Parse] returns, each with the values its message prints.
    - [ErrNoSensors]: need to provide at least one sensor
    - [ErrNoDevice]: need to provide a bluetooth device
    - [ErrStaleDuration d]: stale duration needs to be at least [d]
    - [ErrRetryMin min]: retry time needs to be at least thirty seconds
    - [ErrRetryMax min max]: maximum retry time needs to be larger or equal
      to minimum time
    - [ErrRetryFactor f]: retry factor needs to be equal or larger than one *)
Inductive ParseError : Set :=
| ErrNoSensors
| ErrNoDevice
| ErrStaleDuration (least : Duration)
| ErrRetryMin (min : Duration)
| ErrRetryMax (min max : Duration)
| ErrRetryFactor (f : float).

(** The lines written to the logger, each with the values it prints. *)
Inductive LogEntry : Set :=
| Printf_sensordir (dir : string)
| Infof_sensor_directory (dir : string)
| Printf_Entry (entry : DirEntry)
| Printf_opening (name : string)
| Printf_Error_reading_file (filePath : string) (err : string)
| Printf_Error_unmarshalling (filePath : string) (err : Json.error)
| Fatalf_Error_reading_sensors (err : string)
| Warnf_Refresh_durations (d : Duration).

(* ================================================================== *)
(** ** The directory of sensor records *)

(** The body of the loop of [readSensorsFromDir] for one entry: the
    sensors and the log after it. *)
Definition readEntry (env : Env) (dirPath : string)
  (acc : list Sensor * list LogEntry) (entry : DirEntry)
  : list Sensor * list LogEntry :=
  let (sensors, log) := acc in
  let log := log ++ [Printf_Entry entry] in
  if negb (entry_IsDir entry) && Strings.HasSuffix (entry_Name entry) ".json"
  then
    let log := log ++ [Printf_opening (entry_Name entry)] in
    let filePath := filepath_Join env dirPath (entry_Name entry) in
    match os_ReadFile env filePath with
    | (_, Some err) => (sensors, log ++ [Printf_Error_reading_file filePath err])
    | (fileBytes, None) =>
        match Sensor_UnmarshalJSON Sensor_zero fileBytes with
        | (_, Some err) =>
            (sensors, log ++ [Printf_Error_unmarshalling filePath err])
        | (sensor, None) => (sensors ++ [sensor], log)
        end
    end
  else (sensors, log).

(** [func readSensorsFromDir(dirPath string, log logrus.FieldLogger)
    ([]Sensor, error)], with the lines it logs. *)
Definition readSensorsFromDir (env : Env) (dirPath : string)
  : (list Sensor * option string) * list LogEntry :=
  match os_ReadDir env dirPath with
  | (_, Some err) => (([], Some err), [])
  | (entries, None) =>
      let (sensors, log) := fold_left (readEntry env dirPath) entries ([], []) in
      ((sensors, None), log)
  end.

(* ================================================================== *)
(** ** Package [pflag], as [Parse] uses it *)

(** The variable of [result] a flag is bound to (the pointer given to
    [StringVarP], [VarP], [DurationVar], ...). *)
Inductive Target : Set :=
| T_SensorDir | T_Sensors | T_LogLevel | T_ListenAddr | T_Device
| T_RefreshDuration | T_RefreshTimeout | T_StaleDuration
| T_RetryMinDuration | T_RetryMaxDuration | T_RetryFactor.

(** [pflag.Flag]: the long name, the one-letter shorthand (empty when the
    flag has none) and the variable.  No flag of [Parse] has a value for
    the flag given without argument ([NoOptDefVal]). *)
Record Flag : Set := mkFlag {
  flag_Name : string;
  flag_Shorthand : string;
  flag_Target : Target
}.

(** The errors of [FlagSet.Parse]; on any of them the command-line flag
    set, which is created with [ExitOnError], ends the process. *)
Inductive FlagError : Set :=
| ErrHelp
| BadFlagSyntax (arg : string)
| UnknownFlag (name : string)
| UnknownShorthand (c : ascii) (shorthands : string)
| FlagNeedsArgument (arg : string)
| InvalidArgument (value : string) (flag : string).

(** Why a run ended before [Parse] returned: [log.Fatalf], or the flag
    set's exit. *)
Inductive ExitReason : Set :=
| ExitFatal
| ExitFlags (err : FlagError).

(** What [Parse] works on: its variable [result], the flags registered
    on [pflag.CommandLine], and the lines logged so far. *)
Record World : Type := mkWorld {
  result : Config;
  CommandLine : list Flag;
  logged : list LogEntry
}.

(** A run that returns a value or ends the process. *)
Inductive Outcome (A : Type) : Type :=
| Ret (a : A) (w : World)
| Exit (why : ExitReason) (w : World).

Arguments Ret {A} a w.
Arguments Exit {A} why w.

Definition M (A : Type) : Type := World -> Outcome A.

Definition ret {A : Type} (a : A) : M A := fun w => Ret a w.

Definition bind {A B : Type} (m : M A) (k : A -> M B) : M B :=
  fun w =>
    match m w with
    | Ret a w' => k a w'
    | Exit why w' => Exit why w'
    end.

Declare Scope run_scope.
Delimit Scope run_scope with run.
Notation "x <- m ;; k" := (bind m (fun x => k))
  (at level 61, m at next level, right associativity) : run_scope.
Notation "m ;; k" := (bind m (fun _ => k))
  (at level 61, right associativity) : run_scope.

Definition exit {A : Type} (why : ExitReason) : M A := fun w => Exit why w.

Definition get_result : M Config := fun w => Ret (result w) w.

Definition set_result (c : Config) : M unit :=
  fun w => Ret tt (mkWorld c (CommandLine w) (logged w)).

Definition write_log (e : LogEntry) : M unit :=
  fun w => Ret tt (mkWorld (result w) (CommandLine w) (logged w ++ [e])).

Definition write_logs (es : list LogEntry) : M unit :=
  fun w => Ret tt (mkWorld (result w) (CommandLine w) (logged w ++ es)).

(** [FlagSet.AddFlag] on [pflag.CommandLine]. *)
Definition AddFlag (f : Flag) : M unit :=
  fun w => Ret tt (mkWorld (result w) (CommandLine w ++ [f]) (logged w)).

(** [flag.Value.Set(value)] for the flag bound to [t]: the configuration
    after it, or [None] when the value is refused. *)
Definition Value_Set (env : Env) (t : Target) (value : string) (c : Config)
  : option Config :=
  let retry := Retry c in
  match t with
  | T_SensorDir =>
      Some (mkConfig (LogLevel c) (ListenAddr c) (Sensors c) (Device c)
              (RefreshDuration c) (RefreshTimeout c) (StaleDuration c)
              retry value)
  | T_Sensors =>
      match SensorList_Set (Sensors c) value with
      | (sensors, None) =>
          Some (mkConfig (LogLevel c) (ListenAddr c) sensors (Device c)
                  (RefreshDuration c) (RefreshTimeout c) (StaleDuration c)
                  retry (SensorDir c))
      | (_, Some _) => None
      end
  | T_LogLevel =>
      match LogLevel_Set (LogLevel c) value with
      | (level, None) =>
          Some (mkConfig level (ListenAddr c) (Sensors c) (Device c)
                  (RefreshDuration c) (RefreshTimeout c) (StaleDuration c)
                  retry (SensorDir c))
      | (_, Some _) => None
      end
  | T_ListenAddr =>
      Some (mkConfig (LogLevel c) value (Sensors c) (Device c)
              (RefreshDuration c) (RefreshTimeout c) (StaleDuration c)
              retry (SensorDir c))
  | T_Device =>
      Some (mkConfig (LogLevel c) (ListenAddr c) (Sensors c) value
              (RefreshDuration c) (RefreshTimeout c) (StaleDuration c)
              retry (SensorDir c))
  | T_RefreshDuration =>
      match time_ParseDuration env value with
      | Some d =>
          Some (mkConfig (LogLevel c) (ListenAddr c) (Sensors c) (Device c)
                  d (RefreshTimeout c) (StaleDuration c) retry (SensorDir c))
      | None => None
      end
  | T_RefreshTimeout =>
      match time_ParseDuration env value with
      | Some d =>
          Some (mkConfig (LogLevel c) (ListenAddr c) (Sensors c) (Device c)
                  (RefreshDuration c) d (StaleDuration c) retry (SensorDir c))
      | None => None
      end
  | T_StaleDuration =>
      match time_ParseDuration env value with
      | Some d =>
          Some (mkConfig (LogLevel c) (ListenAddr c) (Sensors c) (Device c)
                  (RefreshDuration c) (RefreshTimeout c) d retry (SensorDir c))
      | None => None
      end
  | T_RetryMinDuration =>
      match time_ParseDuration env value with
      | Some d =>
          Some (mkConfig (LogLevel c) (ListenAddr c) (Sensors c) (Device c)
                  (RefreshDuration c) (RefreshTimeout c) (StaleDuration c)
                  (mkRetryConfig d (MaxDuration retry) (Factor retry))
                  (SensorDir c))
      | None => None
      end
  | T_RetryMaxDuration =>
      match time_ParseDuration env value with
      | Some d =>
          Some (mkConfig (LogLevel c) (ListenAddr c) (Sensors c) (Device c)
                  (RefreshDuration c) (RefreshTimeout c) (StaleDuration c)
                  (mkRetryConfig (MinDuration retry) d (Factor retry))
                  (SensorDir c))
      | None => None
      end
  | T_RetryFactor =>
      match strconv_ParseFloat env value with
      | Some f =>
          Some (mkConfig (LogLevel c) (ListenAddr c) (Sensors c) (Device c)
                  (RefreshDuration c) (RefreshTimeout c) (StaleDuration c)
                  (mkRetryConfig (MinDuration retry) (MaxDuration retry) f)
                  (SensorDir c))
      | None => None
      end
  end.

(** [FlagSet.Set]: the value is stored, or the flag set fails with the
    error naming the value and the flag.  The run ends on that error, and
    what the variable holds then is left as it was. *)
Definition Flag_Set (env : Env) (f : Flag) (value : string) : M unit :=
  fun w =>
    match Value_Set env (flag_Target f) value (result w) with
    | Some c => Ret tt (mkWorld c (CommandLine w) (logged w))
    | None => Exit (ExitFlags (InvalidArgument value (flag_Name f))) w
    end.

(** [f.formal[name]] and [f.shorthands[c]]. *)
Definition lookupLong (flags : list Flag) (name : string) : option Flag :=
  find (fun f => String.eqb (flag_Name f) name) flags.

Definition lookupShort (flags : list Flag) (c : ascii) : option Flag :=
  find (fun f => String.eqb (flag_Shorthand f) (String c "")) flags.

(** [parseLongArg] for the argument [s] (which starts with two dashes
    and is longer), followed on the command line by [next] when there is
    a next argument: whether [next] was taken as the value. *)
Definition parseLongArg (env : Env) (s : string) (next : option string)
  : M bool :=
  fun w =>
    let name := Strings.drop 2 s in
    match name with
    | EmptyString => Exit (ExitFlags (BadFlagSyntax s)) w
    | String c0 _ =>
        if Ascii.eqb c0 "-"%char || Ascii.eqb c0 "="%char
        then Exit (ExitFlags (BadFlagSyntax s)) w
        else
          let split := Strings.SplitN name "=" 2 in
          let name := hd EmptyString split in
          match lookupLong (CommandLine w) name with
          | None =>
              if String.eqb name "help" then Exit (ExitFlags ErrHelp) w
              else Exit (ExitFlags (UnknownFlag name)) w
          | Some flag =>
              match split, next with
              | [_; value], _ =>
                  bind (Flag_Set env flag value) (fun _ => ret false) w
              | _, Some value =>
                  bind (Flag_Set env flag value) (fun _ => ret true) w
              | _, None => Exit (ExitFlags (FlagNeedsArgument s)) w
              end
          end
    end.

(** [parseShortArg] for the argument [s] (one dash and at least one more
    byte).  Every flag takes a value, so the first shorthand takes the
    rest of the argument, or the next argument, and the loop over the
    shorthands runs once. *)
Definition parseShortArg (env : Env) (s : string) (next : option string)
  : M bool :=
  fun w =>
    let shorthands := Strings.drop 1 s in
    if Strings.HasPrefix shorthands "test." then Ret false w
    else
      match shorthands with
      | EmptyString => Ret false w
      | String c tail =>
          match lookupShort (CommandLine w) c with
          | None =>
              if Ascii.eqb c "h"%char then Exit (ExitFlags ErrHelp) w
              else Exit (ExitFlags (UnknownShorthand c shorthands)) w
          | Some flag =>
              match tail, next with
              | String e (String v0 rest), _ =>
                  if Ascii.eqb e "="%char
                  then bind (Flag_Set env flag (String v0 rest))
                         (fun _ => ret false) w
                  else bind (Flag_Set env flag tail) (fun _ => ret false) w
              | String _ EmptyString, _ =>
                  bind (Flag_Set env flag tail) (fun _ => ret false) w
              | EmptyString, Some value =>
                  bind (Flag_Set env flag value) (fun _ => ret true) w
              | EmptyString, None =>
                  Exit (ExitFlags (FlagNeedsArgument s)) w
              end
          end
      end.

(** [parseArgs]: the arguments from left to right.  An argument that is
    empty, a lone dash or does not start with a dash is no flag and is
    passed over; two dashes alone end the flags. *)
Fixpoint parseArgs (env : Env) (args : list string) : M unit :=
  match args with
  | [] => ret tt
  | s :: rest =>
      let continue := fun taken : bool =>
        if taken then
          match rest with
          | _ :: rest' => parseArgs env rest'
          | [] => ret tt
          end
        else parseArgs env rest in
      match s with
      | String c0 (String c1 tail) =>
          if negb (Ascii.eqb c0 "-"%char) then parseArgs env rest
          else if Ascii.eqb c1 "-"%char then
            match tail with
            | EmptyString => ret tt
            | String _ _ => bind (parseLongArg env s (hd_error rest)) continue
            end
          else bind (parseShortArg env s (hd_error rest)) continue
      | _ => parseArgs env rest
      end
  end.

(** [pflag.Parse()]. *)
Definition pflag_Parse (env : Env) : M unit := parseArgs env (os_Args env).

(** [pflag.StringVarP], [VarP], [Var], [DurationVarP], [DurationVar] and
    [Float64Var]: the flag is added to the command-line flag set; the
    variable keeps its value, which is the default given. *)
Definition StringVarP (t : Target) (name shorthand : string) : M unit :=
  AddFlag (mkFlag name shorthand t).
Definition VarP (t : Target) (name shorthand : string) : M unit :=
  AddFlag (mkFlag name shorthand t).
Definition Var (t : Target) (name : string) : M unit :=
  AddFlag (mkFlag name "" t).
Definition DurationVarP (t : Target) (name shorthand : string) : M unit :=
  AddFlag (mkFlag name shorthand t).
Definition DurationVar (t : Target) (name : string) : M unit :=
  AddFlag (mkFlag name "" t).
Definition Float64Var (t : Target) (name : string) : M unit :=
  AddFlag (mkFlag name "" t).

(* ================================================================== *)
(** ** [Parse] *)

(** The composite literal [result] starts from. *)
Definition defaults : Config :=
  mkConfig InfoLevel ":9294" [] "hci0" (2 * Minute) Minute (5 * Minute)
    (mkRetryConfig (30 * Second) (30 * Minute) 2%float)
    "internal/config/sensorData".

(** [result.Sensors = sensors]. *)
Definition set_Sensors (sensors : SensorList) : M unit :=
  fun w =>
    let c := result w in
    Ret tt
      (mkWorld
         (mkConfig (LogLevel c) (ListenAddr c) sensors (Device c)
            (RefreshDuration c) (RefreshTimeout c) (StaleDuration c)
            (Retry c) (SensorDir c))
         (CommandLine w) (logged w)).

Local Open Scope run_scope.

(** The checks of [Parse] on [result] once the flags are parsed: the
    pair [Parse] returns. *)
Definition checks (result : Config) : M (Config * option ParseError) :=
  if (List.length (Sensors result) =? 0)%nat then
    ret (result, Some ErrNoSensors)
  else if (String.length (Device result) =? 0)%nat then
    ret (result, Some ErrNoDevice)
  else
    (if RefreshDuration result <? Minute
     then write_log (Warnf_Refresh_durations (RefreshDuration result))
     else ret tt) ;;
    if StaleDuration result <? wrap64 (2 * RefreshDuration result) then
      ret (result, Some (ErrStaleDuration (wrap64 (2 * RefreshDuration result))))
    else if MinDuration (Retry result) <? 30 * Second then
      ret (result, Some (ErrRetryMin (MinDuration (Retry result))))
    else if MaxDuration (Retry result) <? MinDuration (Retry result) then
      ret (result, Some (ErrRetryMax (MinDuration (Retry result))
                           (MaxDuration (Retry result))))
    else if PrimFloat.ltb (Factor (Retry result)) 1%float then
      ret (result, Some (ErrRetryFactor (Factor (Retry result))))
    else
      ret (result, None).

(** [func Parse(log logrus.FieldLogger) (Config, error)]. *)
Definition Parse (env : Env) : M (Config * option ParseError) :=
  set_result defaults ;;
  StringVarP T_SensorDir "sensordir" "z" ;;
  result <- get_result ;;
  write_log (Printf_sensordir (SensorDir result)) ;;
  (if negb (String.length (SensorDir result) =? 0)%nat then
     write_log (Infof_sensor_directory (SensorDir result)) ;;
     let '(sensors, err, lines) := readSensorsFromDir env (SensorDir result) in
     write_logs lines ;;
     match err with
     | Some e =>
         write_log (Fatalf_Error_reading_sensors e) ;; exit ExitFatal
     | None => ret tt
     end ;;
     set_Sensors sensors
   else
     VarP T_Sensors "sensor" "s") ;;
  Var T_LogLevel "log-level" ;;
  StringVarP T_ListenAddr "addr" "a" ;;
  StringVarP T_Device "adapter" "i" ;;
  DurationVarP T_RefreshDuration "refresh-duration" "r" ;;
  DurationVar T_RefreshTimeout "refresh-timeout" ;;
  DurationVar T_StaleDuration "stale-duration" ;;
  DurationVar T_RetryMinDuration "retry-min-duration" ;;
  DurationVar T_RetryMaxDuration "retry-max-duration" ;;
  Float64Var T_RetryFactor "retry-factor" ;;
  pflag_Parse env ;;
  result <- get_result ;;
  checks result.

(** A run of [Parse] in a fresh process: no flag registered, nothing
    logged. *)
Definition run_Parse (env : Env) : Outcome (Config * option ParseError) :=
  Parse env (mkWorld Config_zero [] []).

Local Close Scope run_scope.

(* ================================================================== *)
(** ** Vocabulary of the properties *)

(** What a finished run returned, if it returned. *)
Definition returned {A : Type} (o : Outcome A) : option A :=
  match o with
  | Ret a _ => Some a
  | Exit _ _ => None
  end.

(** The world a run ended in. *)
Definition final {A : Type} (o : Outcome A) : World :=
  match o with
  | Ret _ w => w
  | Exit _ w => w
  end.

(** The entry is a record file: not a directory, and named [*.json]. *)
Definition isRecordFile (entry : DirEntry) : bool :=
  negb (entry_IsDir entry) && Strings.HasSuffix (entry_Name entry) ".json".

(** The descriptor of a record file of [dirPath] that can be read and
    decoded; [None] for any other entry. *)
Definition decoded (env : Env) (dirPath : string) (entry : DirEntry)
  : option Sensor :=
  if isRecordFile entry then
    match os_ReadFile env (filepath_Join env dirPath (entry_Name entry)) with
    | (fileBytes, None) =>
        match Sensor_UnmarshalJSON Sensor_zero fileBytes with
        | (sensor, None) => Some sensor
        | (_, Some _) => None
        end
    | (_, Some _) => None
    end
  else None.

(** A record file that can be read and decoded, and one that cannot. *)
Definition goodRecord (env : Env) (dirPath : string) (entry : DirEntry) : bool :=
  match decoded env dirPath entry with
  | Some _ => true
  | None => false
  end.

Definition badRecord (env : Env) (dirPath : string) (entry : DirEntry) : bool :=
  isRecordFile entry && negb (goodRecord env dirPath entry).

(** The descriptors of the good records of a listing, in its order. *)
Fixpoint decodedAll (env : Env) (dirPath : string) (entries : list DirEntry)
  : list Sensor :=
  match entries with
  | [] => []
  | entry :: rest =>
      match decoded env dirPath entry with
      | Some sensor => sensor :: decodedAll env dirPath rest
      | None => decodedAll env dirPath rest
      end
  end.

(** A logged line that reports a skipped file. *)
Definition isSkip (line : LogEntry) : bool :=
  match line with
  | Printf_Error_reading_file _ _ => true
  | Printf_Error_unmarshalling _ _ => true
  | _ => false
  end.

(** The number of items of a list that satisfy [p]. *)
Definition count {A : Type} (p : A -> bool) (l : list A) : nat :=
  List.length (filter p l).

(** The double quote, and a text between double quotes. *)
Definition dquote : string := String (Json.chr 34) "".
Definition quoted (s : string) : string := (dquote ++ s ++ dquote)%string.

(** A file system for the examples: the only directory is
    [internal/config/sensorData], with the given files (name and content),
    listed in the given order; paths are joined with a slash. *)
Definition exampleJoin (dir name : string) : string := (dir ++ "/" ++ name)%string.

Definition exampleReadDir (files : list (string * string)) (dirPath : string)
  : list DirEntry * option string :=
  if String.eqb dirPath "internal/config/sensorData"
  then (map (fun f => mkDirEntry (fst f) false) files, None)
  else ([], Some "no such file or directory").

Definition exampleReadFile (files : list (string * string)) (filePath : string)
  : string * option string :=
  match find (fun f => String.eqb (exampleJoin "internal/config/sensorData" (fst f))
                         filePath) files with
  | Some f => (snd f, None)
  | None => ("", Some "no such file or directory")
  end.

(** The environment of the examples: a command line and the files of the
    default directory.  No example passes a duration or a number, so the
    two conversions are never asked. *)
Definition exampleEnv (args : list string) (files : list (string * string))
  : Env :=
  mkEnv args (exampleReadDir files) (exampleReadFile files) exampleJoin
    (fun _ => None) (fun _ => None).

(** Contents of record files for the examples: a full record; a record
    without address; an object none of whose members is a field of the
    record; a text that is not JSON; a JSON array. *)
Definition record_kitchen : string :=
  ("{" ++ quoted "name" ++ ":" ++ quoted "kitchen" ++ ","
   ++ quoted "sensor" ++ ":" ++ quoted "AA:BB:CC:DD:EE:FF" ++ ","
   ++ quoted "parameter" ++ ":{" ++ quoted "max_soil_moist" ++ ":60,"
   ++ quoted "min_soil_moist" ++ ":15}}")%string.

Definition record_no_address : string :=
  ("{" ++ quoted "name" ++ ":" ++ quoted "x" ++ "}")%string.

Definition record_unknown_shape : string :=
  ("{" ++ quoted "foo" ++ ": 1}")%string.

Definition record_malformed : string :=
  ("{" ++ quoted "name" ++ ":")%string.

Definition record_array : string :=
  ("[" ++ quoted "AA:BB" ++ "]")%string.

Definition defaultDir : string := "internal/config/sensorData".

(** A configuration that passes every check, for the examples. *)
Definition kitchen : Sensor := mkSensor "kitchen" "AA:BB:CC:DD:EE:FF" 0 0 0 0 0 0.

Definition exampleConfig : Config :=
  mkConfig InfoLevel ":9294" [kitchen] "hci0" (2 * Minute) Minute (5 * Minute)
    (mkRetryConfig (30 * Second) (30 * Minute) 2%float)
    "internal/config/sensorData".

Definition with_durations (c : Config) (refresh stale : Duration) : Config :=
  mkConfig (LogLevel c) (ListenAddr c) (Sensors c) (Device c) refresh
    (RefreshTimeout c) stale (Retry c) (SensorDir c).

Definition with_retry (c : Config) (retry : RetryConfig) : Config :=
  mkConfig (LogLevel c) (ListenAddr c) (Sensors c) (Device c)
    (RefreshDuration c) (RefreshTimeout c) (StaleDuration c) retry (SensorDir c).

Definition emptyWorld : World := mkWorld Config_zero [] [].

(** Why a run ended, if it did not return. *)
Definition exitReason {A : Type} (o : Outcome A) : option ExitReason :=
  match o with
  | Ret _ _ => None
  | Exit why _ => Some why
  end.

(** A JSON value that is neither an object nor [null]. *)
Definition notObjectOrNull (v : Json.value) : bool :=
  match v with
  | Json.Null | Json.Object _ => false
  | _ => true
  end.

(** The enforced rules of the validation, in the order of their list:
    sensors, adapter, staleness, retry minimum, retry maximum, retry
    factor.  The refresh interval under one minute is not among them. *)
Definition enforced (c : Config) : option ParseError :=
  match Sensors c with
  | [] => Some ErrNoSensors
  | _ :: _ =>
      if String.eqb (Device c) "" then Some ErrNoDevice
      else if StaleDuration c <? wrap64 (2 * RefreshDuration c)
      then Some (ErrStaleDuration (wrap64 (2 * RefreshDuration c)))
      else if MinDuration (Retry c) <? 30 * Second
      then Some (ErrRetryMin (MinDuration (Retry c)))
      else if MaxDuration (Retry c) <? MinDuration (Retry c)
      then Some (ErrRetryMax (MinDuration (Retry c)) (MaxDuration (Retry c)))
      else if PrimFloat.ltb (Factor (Retry c)) 1%float
      then Some (ErrRetryFactor (Factor (Retry c)))
      else None
  end.

(** The warning of the validation: written when the first two rules hold
    and the refresh interval is under one minute. *)
Definition advisory (c : Config) : list LogEntry :=
  match Sensors c with
  | [] => []
  | _ :: _ =>
      if String.eqb (Device c) "" then []
      else if RefreshDuration c <? Minute
      then [Warnf_Refresh_durations (RefreshDuration c)]
      else []
  end.

(** The error a run returned, if it returned one. *)
Definition returnedError (o : Outcome (Config * option ParseError))
  : option ParseError :=
  match o with
  | Ret (_, err) _ => err
  | Exit _ _ => None
  end.

(** What parsing the flags leaves alone. *)
Definition noSensorFlag (flags : list Flag) : Prop :=
  forall f, In f flags -> flag_Target f <> T_Sensors.

Definition flagsKeep (w w' : World) : Prop :=
  CommandLine w' = CommandLine w
  /\ logged w' = logged w
  /\ (noSensorFlag (CommandLine w) -> Sensors (result w') = Sensors (result w)).

(** The flags [Parse] has registered when it parses the command line:
    the flag [sensor] is not among them. *)
Definition registeredFlags : list Flag :=
  [mkFlag "sensordir" "z" T_SensorDir;
   mkFlag "log-level" "" T_LogLevel;
   mkFlag "addr" "a" T_ListenAddr;
   mkFlag "adapter" "i" T_Device;
   mkFlag "refresh-duration" "r" T_RefreshDuration;
   mkFlag "refresh-timeout" "" T_RefreshTimeout;
   mkFlag "stale-duration" "" T_StaleDuration;
   mkFlag "retry-min-duration" "" T_RetryMinDuration;
   mkFlag "retry-max-duration" "" T_RetryMaxDuration;
   mkFlag "retry-factor" "" T_RetryFactor].

(** [result] with the sensors of the directory, before the flags are
    parsed. *)
Definition with_sensors (c : Config) (sensors : SensorList) : Config :=
  mkConfig (LogLevel c) (ListenAddr c) sensors (Device c) (RefreshDuration c)
    (RefreshTimeout c) (StaleDuration c) (Retry c) (SensorDir c).

(** [time.Millisecond]. *)
Definition Millisecond : Duration := 1000000.

(** The token a descriptor without thresholds is written as on the
    command line: the address, or the name, [=] and the address. *)
Definition tokenOf (s : Sensor) : string :=
  if String.eqb (Name s) "" then MacAddress s
  else (Name s ++ "=" ++ MacAddress s)%string.

(** The six thresholds of a descriptor are zero. *)
Definition noThresholds (s : Sensor) : Prop :=
  MaxSoilMoist s = 0 /\ MinSoilMoist s = 0 /\ MaxSoilEc s = 0
  /\ MinSoilEc s = 0 /\ MaxLightLux s = 0 /\ MinLightLux s = 0.

(** Every enforced invariant of a configuration holds. *)
Definition Valid (c : Config) : Prop :=
  Sensors c <> []
  /\ Device c <> ""%string
  /\ wrap64 (2 * RefreshDuration c) <= StaleDuration c
  /\ 30 * Second <= MinDuration (Retry c)
  /\ MinDuration (Retry c) <= MaxDuration (Retry c)
  /\ PrimFloat.ltb (Factor (Retry c)) 1 = false.

(** A configuration with other values in the fields no check reads. *)
Definition with_unchecked (c : Config) (level : Level) (addr : string)
  (timeout : Duration) (dir : string) : Config :=
  mkConfig level addr (Sensors c) (Device c) (RefreshDuration c) timeout
    (StaleDuration c) (Retry c) dir.

(** The lines of a log that announce an entry, and those that announce
    the opening of a record file. *)
Definition isEntryLine (line : LogEntry) : bool :=
  match line with
  | Printf_Entry _ => true
  | _ => false
  end.

Definition isOpeningLine (line : LogEntry) : bool :=
  match line with
  | Printf_opening _ => true
  | _ => false
  end.

(** A text of blanks: spaces, tabs, carriage returns and line feeds. *)
Fixpoint blank (s : string) : bool :=
  match s with
  | EmptyString => true
  | String c rest => Json.isSpace c && blank rest
  end.

(** The end of the input in the state [st]: the value read, if the
    scanner is past one value once it is given a blank. *)
Definition finish (st : Json.state) : option Json.value :=
  match Json.step st " "%char with
  | Some (Json.mkState (Json.EndTop v) _) => Some v
  | _ => None
  end.

(** The rest of a literal [true], [false] or [null] being read holds no
    blank; it holds for every state the scanner reaches. *)
Definition litWithoutBlank (st : Json.state) : bool :=
  match Json.st_mode st with
  | Json.Lit rest _ => forallb (fun d => negb (Json.isSpace d)) rest
  | _ => true
  end.

(** A text of printable ASCII bytes other than the double quote and the
    backslash: a text that stands for itself between double quotes. *)
Definition plainByte (c : ascii) : bool :=
  (32 <=? Json.code c) && (Json.code c <? 128)
  && negb (Json.code c =? 34) && negb (Json.code c =? 92).

Fixpoint plain (s : string) : bool :=
  match s with
  | EmptyString => true
  | String c rest => plainByte c && plain rest
  end.

Fixpoint allDigits (s : string) : bool :=
  match s with
  | EmptyString => true
  | String c rest => Json.isDigit c && allDigits rest
  end.

(** The decimal digits of a natural number under [10 ^ fuel], most
    significant first, before [acc]; and the decimal text of an integer
    of at most twenty digits. *)
Fixpoint digits (fuel : nat) (n : Z) (acc : string) : string :=
  match fuel with
  | O => acc
  | S fuel' =>
      let acc' := String (Json.chr (48 + n mod 10)) acc in
      if n / 10 =? 0 then acc' else digits fuel' (n / 10) acc'
  end.

Definition decimal (z : Z) : string :=
  if z <? 0 then String "-"%char (digits 20 (- z) "") else digits 20 z "".

(** The text of a record file for a descriptor: the object with the
    members [name], [sensor] and [parameter], the latter with the six
    thresholds, without blanks. *)
Definition recordText (s : Sensor) : string :=
  ("{" ++ quoted "name" ++ ":" ++ quoted (Name s) ++ ","
   ++ quoted "sensor" ++ ":" ++ quoted (MacAddress s) ++ ","
   ++ quoted "parameter" ++ ":{"
   ++ quoted "max_soil_moist" ++ ":" ++ decimal (MaxSoilMoist s) ++ ","
   ++ quoted "min_soil_moist" ++ ":" ++ decimal (MinSoilMoist s) ++ ","
   ++ quoted "max_soil_ec" ++ ":" ++ decimal (MaxSoilEc s) ++ ","
   ++ quoted "min_soil_ec" ++ ":" ++ decimal (MinSoilEc s) ++ ","
   ++ quoted "max_light_lux" ++ ":" ++ decimal (MaxLightLux s) ++ ","
   ++ quoted "min_light_lux" ++ ":" ++ decimal (MinLightLux s)
   ++ "}}")%string.

(** The byte after a number that ends a member of an object. *)
Definition endsMember (c : ascii) : Prop := c = ","%char \/ c = "}"%char.

(** An entry of a listing is the record file written from a descriptor:
    it is a record file, reading it gives the text of the record, and the
    descriptor can be written (plain name and address, thresholds in
    range). *)
Definition writtenFrom (env : Env) (dirPath : string)
  (file : DirEntry * Sensor) : Prop :=
  isRecordFile (fst file) = true
  /\ os_ReadFile env (filepath_Join env dirPath (entry_Name (fst file)))
     = (recordText (snd file), None)
  /\ plain (Name (snd file)) = true
  /\ plain (MacAddress (snd file)) = true
  /\ (int64_range (MaxSoilMoist (snd file))
      /\ int64_range (MinSoilMoist (snd file))
      /\ int64_range (MaxSoilEc (snd file))
      /\ int64_range (MinSoilEc (snd file))
      /\ int64_range (MaxLightLux (snd file))
      /\ int64_range (MinLightLux (snd file))).

(** An environment with another command line. *)
Definition with_args (env : Env) (args : list string) : Env :=
  mkEnv args (os_ReadDir env) (os_ReadFile env) (filepath_Join env)
    (time_ParseDuration env) (strconv_ParseFloat env).

(** A configuration with another listen address. *)
Definition with_addr (c : Config) (addr : string) : Config :=
  mkConfig (LogLevel c) addr (Sensors c) (Device c) (RefreshDuration c)
    (RefreshTimeout c) (StaleDuration c) (Retry c) (SensorDir c).

(** A world with another [result]. *)
Definition with_result (w : World) (c : Config) : World :=
  mkWorld c (CommandLine w) (logged w).

(** A well-formed long flag name: not empty, not starting with a dash,
    without [=]. *)
Definition flagName (name : string) : Prop :=
  name <> ""%string
  /\ Strings.HasPrefix name "-" = false
  /\ ~ Strings.occurs "="%char name.

(** An argument that does not start with a dash. *)
Definition positional (arg : string) : bool :=
  negb (Strings.HasPrefix arg "-").

(** An environment with one record file, a refresh interval of 2^62 ns
    and a stale duration of 2^63 - 1 ns on the command line, and the two
    values [time.ParseDuration] gives for these two texts. *)
Definition overflowEnv : Env :=
  mkEnv ["--refresh-duration=4611686018427387904ns";
         "--stale-duration=9223372036854775807ns"]
    (exampleReadDir [("k.json", record_kitchen)])
    (exampleReadFile [("k.json", record_kitchen)])
    exampleJoin
    (fun text =>
       if String.eqb text "4611686018427387904ns" then Some (2 ^ 62)
       else if String.eqb text "9223372036854775807ns" then Some (2 ^ 63 - 1)
       else None)
    (fun _ => None).

(** A record with a member of the wrong type: a number as the name, a
    fraction as a threshold, and a string as the parameters. *)
Definition record_name_number : string :=
  ("{" ++ quoted "sensor" ++ ":" ++ quoted "AA:BB:CC:DD:EE:FF" ++ ","
   ++ quoted "name" ++ ":1}")%string.

Definition record_threshold_fraction : string :=
  ("{" ++ quoted "sensor" ++ ":" ++ quoted "AA:BB:CC:DD:EE:FF" ++ ","
   ++ quoted "parameter" ++ ":{" ++ quoted "min_soil_moist" ++ ":1.5}}")%string.

Definition record_parameter_string : string :=
  ("{" ++ quoted "Parameter" ++ ":" ++ quoted "none" ++ "}")%string.

(** A value a field of type [string] takes: a string, or [null]. *)
Definition fitsString (v : Json.value) : bool :=
  match v with
  | Json.Null | Json.Str _ => true
  | _ => false
  end.

(** A value a field of type [int] takes: a number written as a decimal
    integer of the range of [int64], or [null]. *)
Definition fitsInt (v : Json.value) : bool :=
  match v with
  | Json.Null => true
  | Json.Number lit =>
      match Json.ParseInt lit with
      | Some _ => true
      | None => false
      end
  | _ => false
  end.

(** A member of the [parameter] object fits when it names no threshold,
    or names one and its value fits an [int]. *)
Definition fitsThreshold (m : string * Json.value) : bool :=
  match Json.lookupField Json.parameterFields (fst m) with
  | Some _ => fitsInt (snd m)
  | None => true
  end.

(** A value the field [Parameter] takes: an object whose members fit, or
    [null]. *)
Definition fitsParameter (v : Json.value) : bool :=
  match v with
  | Json.Null => true
  | Json.Object members => forallb fitsThreshold members
  | _ => false
  end.

(** A member of the record fits when it names no field, or names
    [parameter] and its value fits it, or names [name] or [sensor] and its
    value fits a [string]. *)
Definition fitsMember (m : string * Json.value) : bool :=
  match Json.lookupField Json.rawFields (fst m) with
  | Some field =>
      if String.eqb field "parameter" then fitsParameter (snd m)
      else fitsString (snd m)
  | None => true
  end.

(** A JSON value that has the shape of a record: an object whose members
    fit, or [null]. *)
Definition fitsRecord (v : Json.value) : bool :=
  match v with
  | Json.Null => true
  | Json.Object members => forallb fitsMember members
  | _ => false
  end.

(** No error, or a type error. *)
Definition noSyntaxError (e : option Json.error) : Prop :=
  e <> Some Json.SyntaxError.




(** The six thresholds of a descriptor are [int64] values. *)
Definition thresholdsInRange (s : Sensor) : Prop :=
  int64_range (MaxSoilMoist s) /\ int64_range (MinSoilMoist s)
  /\ int64_range (MaxSoilEc s) /\ int64_range (MinSoilEc s)
  /\ int64_range (MaxLightLux s) /\ int64_range (MinLightLux s).

(* ================================================================== *)
(** ** Properties of [parseSensor] and [SensorList.Set] *)

Section SplitFacts.

Local Open Scope string_scope.
Local Arguments Ascii.eqb : simpl never.

Lemma occurs_cons (c d : ascii) (s : string) :
  Strings.occurs c (String d s) <-> d = c \/ Strings.occurs c s.
Proof. unfold Strings.occurs. simpl. tauto. Qed.

(** A text without the separator is not cut. *)
Lemma Cut_eq_absent (s : string) :
  ~ Strings.occurs "="%char s -> Strings.Cut s "=" = None.
Proof.
  induction s as [|c s IH]; intros Hno.
  - reflexivity.
  - rewrite occurs_cons in Hno.
    simpl. destruct (Ascii.eqb_spec "="%char c) as [Heq|Hc].
    + exfalso. apply Hno. now left.
    + simpl. rewrite IH by tauto. reflexivity.
Qed.

(** The cut is at the first separator. *)
Lemma Cut_eq_first (a b : string) :
  ~ Strings.occurs "="%char a ->
  Strings.Cut (a ++ "=" ++ b) "=" = Some (a, b).
Proof.
  induction a as [|c a IH]; intros Hno.
  - reflexivity.
  - rewrite occurs_cons in Hno.
    simpl. destruct (Ascii.eqb_spec "="%char c) as [Heq|Hc].
    + exfalso. apply Hno. now left.
    + simpl. simpl in IH. rewrite IH by tauto. reflexivity.
Qed.

Lemma parseSensor_plain (tok : string) :
  tok <> "" -> ~ Strings.occurs "="%char tok ->
  parseSensor tok = (mkSensor "" tok 0 0 0 0 0 0, None).
Proof.
  intros Hne Hno. unfold parseSensor.
  destruct tok as [|c tok]; [congruence|].
  cbn [String.length Nat.eqb Strings.SplitN].
  rewrite (Cut_eq_absent _ Hno). reflexivity.
Qed.

Lemma parseSensor_named (name addr : string) :
  ~ Strings.occurs "="%char name ->
  parseSensor (name ++ "=" ++ addr) = (mkSensor name addr 0 0 0 0 0 0, None).
Proof.
  intros Hno. unfold parseSensor.
  assert (Hlen : (String.length (name ++ "=" ++ addr) =? 0)%nat = false).
  { destruct name; reflexivity. }
  rewrite Hlen. cbn [Strings.SplitN].
  rewrite (Cut_eq_first _ _ Hno). reflexivity.
Qed.

(** A token that is not empty always parses. *)
Lemma parseSensor_nonempty (tok : string) :
  tok <> "" -> snd (parseSensor tok) = None.
Proof.
  intros Hne. unfold parseSensor.
  destruct tok as [|c tok]; [congruence|].
  cbn [String.length Nat.eqb Strings.SplitN].
  destruct (Strings.Cut (String c tok) "=") as [[x y]|]; reflexivity.
Qed.

Lemma Set_nonempty (l : SensorList) (tok : string) :
  tok <> "" -> SensorList_Set l tok = ((l ++ [fst (parseSensor tok)])%list, None).
Proof.
  intros Hne. unfold SensorList_Set.
  pose proof (parseSensor_nonempty tok Hne) as H.
  destruct (parseSensor tok) as [s e]. simpl in H. subst e. reflexivity.
Qed.

Lemma SetAll_nonempty (toks : list string) :
  forall l : SensorList,
    Forall (fun tok => tok <> "") toks ->
    SensorList_SetAll l toks
    = ((l ++ map (fun tok => fst (parseSensor tok)) toks)%list, None).
Proof.
  induction toks as [|tok toks IH]; intros l Hall.
  - simpl. now rewrite app_nil_r.
  - inversion Hall as [|? ? Htok Hrest]; subst.
    simpl. rewrite (Set_nonempty l tok Htok).
    rewrite (IH _ Hrest). now rewrite <- app_assoc.
Qed.

End SplitFacts.

(** C5: an empty token fails with the error "empty string" (which [Set]
    reports as "can not parse sensor: empty string", leaving the list as
    it was); a non-empty token without [=] gives a descriptor whose address
    is the whole token and whose name is empty; a token is split at its
    first [=] only, the left side being the name and the right side, which
    may contain [=], the address; and tokens that parse are appended to
    the list in the order they are given. *)
Theorem parseSensor_token_rules
  (l : SensorList) (tok name addr : string) (toks : list string) :
  tok <> ""%string ->
  ~ Strings.occurs "="%char tok ->
  ~ Strings.occurs "="%char name ->
  Forall (fun t => t <> ""%string) toks ->
  parseSensor "" = (Sensor_zero, Some "empty string"%string)
  /\ SensorList_Set l "" = (l, Some "can not parse sensor: empty string"%string)
  /\ parseSensor tok = (mkSensor "" tok 0 0 0 0 0 0, None)
  /\ parseSensor (name ++ "=" ++ addr) = (mkSensor name addr 0 0 0 0 0 0, None)
  /\ SensorList_SetAll l toks
     = (l ++ map (fun t => fst (parseSensor t)) toks, None).
Proof.
  intros Htok Hplain Hname Htoks.
  split; [reflexivity|].
  split; [reflexivity|].
  split; [exact (parseSensor_plain tok Htok Hplain)|].
  split; [exact (parseSensor_named name addr Hname)|].
  exact (SetAll_nonempty toks l Htoks).
Qed.

Lemma no_equals_in_kitchen : ~ Strings.occurs "="%char "kitchen".
Proof. unfold Strings.occurs. simpl. intuition discriminate. Qed.

Lemma no_equals_in_address : ~ Strings.occurs "="%char "AA:BB".
Proof. unfold Strings.occurs. simpl. intuition discriminate. Qed.

Lemma parseSensor_token_rules_witness :
  parseSensor "AA:BB" = (mkSensor "" "AA:BB" 0 0 0 0 0 0, None)
  /\ parseSensor "kitchen=A=B" = (mkSensor "kitchen" "A=B" 0 0 0 0 0 0, None)
  /\ SensorList_SetAll [] ["kitchen=A=B"; "AA:BB"]%string
     = ([mkSensor "kitchen" "A=B" 0 0 0 0 0 0;
         mkSensor "" "AA:BB" 0 0 0 0 0 0], None).
Proof.
  assert (Htok : "AA:BB"%string <> ""%string) by discriminate.
  assert (Htoks : Forall (fun t => t <> ""%string) ["kitchen=A=B"; "AA:BB"]%string).
  { repeat constructor; discriminate. }
  pose proof (parseSensor_token_rules [] "AA:BB" "kitchen" "A=B"
                ["kitchen=A=B"; "AA:BB"]%string
                Htok no_equals_in_address no_equals_in_kitchen Htoks)
    as [_ [_ [Hplain [Hnamed Hall]]]].
  split; [exact Hplain|].
  split; [exact Hnamed|].
  exact Hall.
Defined.

(** C10, as stated, fails: the token [a=b=] is not empty and ends in [=],
    and its address is [b=], not the empty string. *)
Lemma trailing_equals_counterexample :
  Strings.HasSuffix "a=b=" "=" = true
  /\ parseSensor "a=b=" = (mkSensor "a" "b=" 0 0 0 0 0 0, None)
  /\ MacAddress (fst (parseSensor "a=b=")) <> ""%string.
Proof.
  split; [reflexivity|]. split; [reflexivity|]. discriminate.
Qed.

(** C10, amended: a token whose only [=] is its last byte parses without
    error to a descriptor with the text before the [=] as name and the
    empty address, and [Set] appends that descriptor to the list. *)
Theorem trailing_equals_empty_address (l : SensorList) (name : string) :
  ~ Strings.occurs "="%char name ->
  parseSensor (name ++ "=") = (mkSensor name "" 0 0 0 0 0 0, None)
  /\ SensorList_Set l (name ++ "=") = (l ++ [mkSensor name "" 0 0 0 0 0 0], None).
Proof.
  intros Hname.
  pose proof (parseSensor_named name "" Hname) as Hparse.
  split; [exact Hparse|].
  unfold SensorList_Set.
  change (name ++ "=")%string with (name ++ "=" ++ "")%string.
  now rewrite Hparse.
Qed.

Lemma trailing_equals_empty_address_witness :
  parseSensor "kitchen=" = (mkSensor "kitchen" "" 0 0 0 0 0 0, None)
  /\ SensorList_Set [] "kitchen=" = ([mkSensor "kitchen" "" 0 0 0 0 0 0], None).
Proof.
  exact (trailing_equals_empty_address [] "kitchen" no_equals_in_kitchen).
Defined.

(* ================================================================== *)
(** ** Properties of [readSensorsFromDir] *)

Section Directory.

Variable env : Env.
Variable dirPath : string.

Lemma count_app {A : Type} (p : A -> bool) (l1 l2 : list A) :
  count p (l1 ++ l2) = (count p l1 + count p l2)%nat.
Proof. unfold count. now rewrite filter_app, length_app. Qed.

Lemma count_cons {A : Type} (p : A -> bool) (a : A) (l : list A) :
  count p (a :: l) = ((if p a then 1 else 0) + count p l)%nat.
Proof. unfold count. simpl. now destruct (p a). Qed.

(** One turn of the loop: the descriptor of a good record is appended,
    a bad record logs one skip, any other entry changes nothing but the
    log. *)
Lemma readEntry_spec (sensors : list Sensor) (log : list LogEntry)
  (entry : DirEntry) :
  exists lines,
    readEntry env dirPath (sensors, log) entry
    = (match decoded env dirPath entry with
       | Some sensor => sensors ++ [sensor]
       | None => sensors
       end, log ++ lines)
    /\ count isSkip lines
       = (if badRecord env dirPath entry then 1 else 0)%nat.
Proof.
  unfold readEntry, badRecord, goodRecord, decoded, isRecordFile.
  destruct (negb (entry_IsDir entry)
            && Strings.HasSuffix (entry_Name entry) ".json") eqn:Hrec.
  - destruct (os_ReadFile env (filepath_Join env dirPath (entry_Name entry)))
      as [fileBytes [err|]] eqn:Hread.
    + eexists. rewrite <- !app_assoc. split; [reflexivity|reflexivity].
    + destruct (Sensor_UnmarshalJSON Sensor_zero fileBytes)
        as [sensor [err|]] eqn:Hdec.
      * eexists. rewrite <- !app_assoc. split; [reflexivity|reflexivity].
      * eexists. rewrite <- !app_assoc. split; [reflexivity|reflexivity].
  - eexists. split; [reflexivity|reflexivity].
Qed.

(** The loop over a listing. *)
Lemma readEntries_spec (entries : list DirEntry) :
  forall (sensors : list Sensor) (log : list LogEntry),
  exists lines,
    fold_left (readEntry env dirPath) entries (sensors, log)
    = (sensors ++ decodedAll env dirPath entries, log ++ lines)
    /\ count isSkip lines = count (badRecord env dirPath) entries.
Proof.
  induction entries as [|entry entries IH]; intros sensors log.
  - exists []. simpl. now rewrite !app_nil_r.
  - destruct (readEntry_spec sensors log entry) as [l1 [Hstep Hc1]].
    cbn [fold_left]. rewrite Hstep.
    destruct (IH (match decoded env dirPath entry with
                  | Some sensor => sensors ++ [sensor]
                  | None => sensors
                  end) (log ++ l1)) as [l2 [Hrest Hc2]].
    exists (l1 ++ l2). rewrite Hrest. split.
    + cbn [decodedAll].
      destruct (decoded env dirPath entry); rewrite <- !app_assoc; reflexivity.
    + rewrite count_app, count_cons, Hc1, Hc2. reflexivity.
Qed.

Lemma decodedAll_length (entries : list DirEntry) :
  List.length (decodedAll env dirPath entries)
  = count (goodRecord env dirPath) entries.
Proof.
  induction entries as [|entry entries IH]; [reflexivity|].
  rewrite count_cons. unfold goodRecord at 1. simpl.
  destruct (decoded env dirPath entry); simpl; now rewrite IH.
Qed.

Lemma decodedAll_In (entries : list DirEntry) (s : Sensor) :
  In s (decodedAll env dirPath entries)
  <-> exists entry, In entry entries /\ decoded env dirPath entry = Some s.
Proof.
  induction entries as [|entry entries IH]; simpl.
  - split; [tauto|]. intros [e [[] _]].
  - destruct (decoded env dirPath entry) as [s0|] eqn:Hdec; simpl; rewrite IH.
    + split.
      * intros [->|[e [Hin He]]]; [exists entry; tauto | exists e; tauto].
      * intros [e [[->|Hin] He]]; [left; congruence | right; exists e; tauto].
    + split.
      * intros [e [Hin He]]. exists e; tauto.
      * intros [e [[->|Hin] He]]; [congruence | exists e; tauto].
Qed.

Lemma readSensorsFromDir_listed (entries : list DirEntry) :
  os_ReadDir env dirPath = (entries, None) ->
  exists lines,
    readSensorsFromDir env dirPath
    = ((decodedAll env dirPath entries, None), lines)
    /\ count isSkip lines = count (badRecord env dirPath) entries.
Proof.
  intros Hlist. unfold readSensorsFromDir. rewrite Hlist.
  destruct (readEntries_spec entries [] []) as [lines [Hloop Hcount]].
  rewrite Hloop. exists lines. split; [reflexivity|exact Hcount].
Qed.

End Directory.

(** C4: when the directory is listed, with N record files that can be
    read and decoded and M that cannot, the call returns exactly N
    descriptors and no error, and logs one skip for each of the M; this
    holds for N = 0 as well.  When the listing fails, the call returns the
    error and no sensor. *)
Theorem readSensorsFromDir_counts (env : Env) (dirPath : string) :
  (forall entries,
      os_ReadDir env dirPath = (entries, None) ->
      exists sensors lines,
        readSensorsFromDir env dirPath = ((sensors, None), lines)
        /\ List.length sensors = count (goodRecord env dirPath) entries
        /\ count isSkip lines = count (badRecord env dirPath) entries)
  /\ (forall entries err,
         os_ReadDir env dirPath = (entries, Some err) ->
         readSensorsFromDir env dirPath = (([], Some err), [])).
Proof.
  split.
  - intros entries Hlist.
    destruct (readSensorsFromDir_listed env dirPath entries Hlist)
      as [lines [Hrun Hskips]].
    exists (decodedAll env dirPath entries), lines.
    split; [exact Hrun|]. split; [apply decodedAll_length|exact Hskips].
  - intros entries err Hlist. unfold readSensorsFromDir. now rewrite Hlist.
Qed.

Lemma readSensorsFromDir_counts_witness :
  let env := exampleEnv []
               [("kitchen.json", record_kitchen); ("broken.json", record_malformed);
                ("notes.txt", record_kitchen)]%string in
  exists sensors lines,
    readSensorsFromDir env defaultDir = ((sensors, None), lines)
    /\ List.length sensors = 1%nat
    /\ count isSkip lines = 1%nat.
Proof.
  intros env.
  exact (proj1 (readSensorsFromDir_counts env defaultDir)
           [mkDirEntry "kitchen.json" false; mkDirEntry "broken.json" false;
            mkDirEntry "notes.txt" false]
           eq_refl).
Defined.

(** C3, as stated, fails: a record without address decodes to a
    descriptor with the empty address, and the directory strategy returns
    it. *)
Lemma empty_address_counterexample :
  readSensorsFromDir (exampleEnv [] [("a.json", record_no_address)]%string)
    defaultDir
  = (([mkSensor "x" "" 0 0 0 0 0 0], None),
     [Printf_Entry (mkDirEntry "a.json" false); Printf_opening "a.json"])
  /\ MacAddress (mkSensor "x" "" 0 0 0 0 0 0) = ""%string.
Proof. split; [vm_compute; reflexivity | reflexivity]. Qed.

(** C3, amended: the directory strategy returns, in the order of the
    listing, the descriptor of every record file that can be read and
    decoded, whatever its address: a descriptor is in the returned list
    exactly when it is the decoding of such a file.  A descriptor with an
    empty address is not dropped. *)
Theorem readSensorsFromDir_keeps_every_decoded
  (env : Env) (dirPath : string) (entries : list DirEntry) :
  os_ReadDir env dirPath = (entries, None) ->
  fst (fst (readSensorsFromDir env dirPath)) = decodedAll env dirPath entries
  /\ forall s : Sensor,
       In s (fst (fst (readSensorsFromDir env dirPath)))
       <-> exists entry, In entry entries /\ decoded env dirPath entry = Some s.
Proof.
  intros Hlist.
  destruct (readSensorsFromDir_listed env dirPath entries Hlist)
    as [lines [Hrun _]].
  rewrite Hrun. cbn [fst]. split; [reflexivity|].
  intros s. apply decodedAll_In.
Qed.

Lemma readSensorsFromDir_keeps_every_decoded_witness :
  let env := exampleEnv []
               [("a.json", record_no_address); ("k.json", record_kitchen)]%string in
  fst (fst (readSensorsFromDir env defaultDir))
  = [mkSensor "x" "" 0 0 0 0 0 0;
     mkSensor "kitchen" "AA:BB:CC:DD:EE:FF" 60 15 0 0 0 0].
Proof.
  intros env.
  exact (proj1 (readSensorsFromDir_keeps_every_decoded env defaultDir
                  [mkDirEntry "a.json" false; mkDirEntry "k.json" false]
                  eq_refl)).
Defined.

(* ================================================================== *)
(** ** Properties of [Sensor.UnmarshalJSON] *)

(** Members that name no field of the record leave it as it is. *)
Lemma store_unknown_members (members : list (string * Json.value)) :
  (forall k v, In (k, v) members -> Json.lookupField Json.rawFields k = None) ->
  forall (r : Json.raw) (saved : option Json.error),
    fold_left Json.storeMember members (r, saved) = (r, saved).
Proof.
  induction members as [|[k v] members IH]; intros Hkeys r saved.
  - reflexivity.
  - cbn [fold_left]. unfold Json.storeMember at 2.
    rewrite (Hkeys k v (or_introl eq_refl)).
    apply IH. intros k' v' Hin. apply (Hkeys k' v'). now right.
Qed.

(** C9, as stated, fails: a record that is valid JSON but has none of the
    members of a sensor record is decoded without error, to the descriptor
    with empty name, empty address and zero thresholds, and the directory
    strategy returns that descriptor. *)
Lemma unknown_shape_counterexample :
  Json.scan record_unknown_shape
  = Some (Json.Object [("foo"%string, Json.Number "1")])
  /\ Sensor_UnmarshalJSON Sensor_zero record_unknown_shape = (Sensor_zero, None)
  /\ readSensorsFromDir
       (exampleEnv [] [("a.json", record_unknown_shape)]%string) defaultDir
     = (([Sensor_zero], None),
        [Printf_Entry (mkDirEntry "a.json" false); Printf_opening "a.json"]).
Proof.
  split; [vm_compute; reflexivity|].
  split; vm_compute; reflexivity.
Qed.

(** The first error met while the members are stored is the one returned:
    storing ends without error exactly when it started without one and
    every member fits. *)
Section StoreMembers.

Context {A Member : Type}.
Variable storeOne : A * option Json.error -> Member -> A * option Json.error.
Variable fits : Member -> bool.

Hypothesis storeOne_fits :
  forall a saved m,
    snd (storeOne (a, saved) m) = None <-> saved = None /\ fits m = true.

Hypothesis storeOne_noSyntaxError :
  forall a saved m,
    noSyntaxError saved -> noSyntaxError (snd (storeOne (a, saved) m)).

Lemma fold_store_fits (members : list Member) :
  forall a saved,
    snd (fold_left storeOne members (a, saved)) = None
    <-> saved = None /\ forallb fits members = true.
Proof.
  induction members as [|m members IH]; intros a saved; cbn [fold_left forallb].
  - cbn [snd]. tauto.
  - pose proof (storeOne_fits a saved m) as Hm.
    destruct (storeOne (a, saved) m) as [a1 saved1].
    rewrite IH, andb_true_iff. cbn [snd] in Hm. tauto.
Qed.

Lemma fold_store_noSyntaxError (members : list Member) :
  forall a saved,
    noSyntaxError saved ->
    noSyntaxError (snd (fold_left storeOne members (a, saved))).
Proof.
  induction members as [|m members IH]; intros a saved Hsaved;
    cbn [fold_left].
  - exact Hsaved.
  - pose proof (storeOne_noSyntaxError a saved m Hsaved) as Hm.
    destruct (storeOne (a, saved) m) as [a1 saved1]. now apply IH.
Qed.

End StoreMembers.

Lemma lookupField_In (fields : list string) (key field : string) :
  Json.lookupField fields key = Some field -> In field fields.
Proof.
  unfold Json.lookupField.
  destruct (find (String.eqb key) fields) as [f|] eqn:Hexact.
  - intros H. injection H as <-. exact (proj1 (find_some _ _ Hexact)).
  - intros H. exact (proj1 (find_some _ _ H)).
Qed.

Lemma storeString_fits (v : Json.value) (old : string)
  (saved : option Json.error) :
  snd (Json.storeString v old saved) = None
  <-> saved = None /\ fitsString v = true.
Proof.
  destruct v, saved; cbn; intuition congruence.
Qed.

Lemma storeString_noSyntaxError (v : Json.value) (old : string)
  (saved : option Json.error) :
  noSyntaxError saved -> noSyntaxError (snd (Json.storeString v old saved)).
Proof.
  unfold noSyntaxError. destruct v, saved; cbn; congruence.
Qed.

Lemma storeInt_fits (v : Json.value) (old : Z) (saved : option Json.error) :
  snd (Json.storeInt v old saved) = None <-> saved = None /\ fitsInt v = true.
Proof.
  destruct v; cbn [Json.storeInt fitsInt];
    try destruct (Json.ParseInt lit); destruct saved; cbn; intuition congruence.
Qed.

Lemma storeInt_noSyntaxError (v : Json.value) (old : Z)
  (saved : option Json.error) :
  noSyntaxError saved -> noSyntaxError (snd (Json.storeInt v old saved)).
Proof.
  unfold noSyntaxError.
  destruct v; cbn [Json.storeInt];
    try destruct (Json.ParseInt lit); destruct saved; cbn; congruence.
Qed.

Lemma storeParameterMember_fits (p : Json.rawParameter)
  (saved : option Json.error) (m : string * Json.value) :
  snd (Json.storeParameterMember (p, saved) m) = None
  <-> saved = None /\ fitsThreshold m = true.
Proof.
  destruct m as [key v]. unfold Json.storeParameterMember, fitsThreshold.
  cbn [fst snd].
  destruct (Json.lookupField Json.parameterFields key) as [field|] eqn:Hfield.
  - apply lookupField_In in Hfield. cbn [Json.parameterFields In] in Hfield.
    repeat (destruct Hfield as [<-|Hfield];
            [match goal with
             | |- context [Json.storeInt v ?old saved] =>
                 pose proof (storeInt_fits v old saved) as Hint;
                 destruct (Json.storeInt v old saved) as [n e]
             end; exact Hint|]).
    contradiction.
  - cbn [snd]. tauto.
Qed.

Lemma storeParameterMember_noSyntaxError (p : Json.rawParameter)
  (saved : option Json.error) (m : string * Json.value) :
  noSyntaxError saved ->
  noSyntaxError (snd (Json.storeParameterMember (p, saved) m)).
Proof.
  intros Hsaved. destruct m as [key v]. unfold Json.storeParameterMember.
  destruct (Json.lookupField Json.parameterFields key) as [field|] eqn:Hfield.
  - apply lookupField_In in Hfield. cbn [Json.parameterFields In] in Hfield.
    repeat (destruct Hfield as [<-|Hfield];
            [match goal with
             | |- context [Json.storeInt v ?old saved] =>
                 pose proof (storeInt_noSyntaxError v old saved Hsaved) as Hint;
                 destruct (Json.storeInt v old saved) as [n e]
             end; exact Hint|]).
    contradiction.
  - exact Hsaved.
Qed.

Lemma storeParameter_fits (v : Json.value) (old : Json.rawParameter)
  (saved : option Json.error) :
  snd (Json.storeParameter v old saved) = None
  <-> saved = None /\ fitsParameter v = true.
Proof.
  destruct v; cbn [Json.storeParameter fitsParameter];
    try (destruct saved; cbn; intuition congruence).
  apply fold_store_fits. intros a saved0 m. apply storeParameterMember_fits.
Qed.

Lemma storeParameter_noSyntaxError (v : Json.value) (old : Json.rawParameter)
  (saved : option Json.error) :
  noSyntaxError saved ->
  noSyntaxError (snd (Json.storeParameter v old saved)).
Proof.
  intros Hsaved.
  destruct v; cbn [Json.storeParameter];
    try (unfold noSyntaxError in *; destruct saved; cbn; congruence).
  apply fold_store_noSyntaxError; [|exact Hsaved].
  intros a saved0 m. apply storeParameterMember_noSyntaxError.
Qed.

Lemma storeMember_fits (r : Json.raw) (saved : option Json.error)
  (m : string * Json.value) :
  snd (Json.storeMember (r, saved) m) = None
  <-> saved = None /\ fitsMember m = true.
Proof.
  destruct m as [key v]. unfold Json.storeMember, fitsMember.
  cbn [fst snd].
  destruct (Json.lookupField Json.rawFields key) as [field|] eqn:Hfield.
  - apply lookupField_In in Hfield. cbn [Json.rawFields In] in Hfield.
    destruct Hfield as [<-|[<-|[<-|[]]]].
    + pose proof (storeString_fits v (Json.r_Name r) saved) as Hs.
      destruct (Json.storeString v (Json.r_Name r) saved) as [x e]. exact Hs.
    + pose proof (storeString_fits v (Json.r_MacAddress r) saved) as Hs.
      destruct (Json.storeString v (Json.r_MacAddress r) saved) as [x e].
      exact Hs.
    + pose proof (storeParameter_fits v (Json.r_Parameter r) saved) as Hs.
      destruct (Json.storeParameter v (Json.r_Parameter r) saved) as [x e].
      exact Hs.
  - cbn [snd]. tauto.
Qed.

Lemma storeMember_noSyntaxError (r : Json.raw) (saved : option Json.error)
  (m : string * Json.value) :
  noSyntaxError saved -> noSyntaxError (snd (Json.storeMember (r, saved) m)).
Proof.
  intros Hsaved. destruct m as [key v]. unfold Json.storeMember.
  destruct (Json.lookupField Json.rawFields key) as [field|] eqn:Hfield.
  - apply lookupField_In in Hfield. cbn [Json.rawFields In] in Hfield.
    destruct Hfield as [<-|[<-|[<-|[]]]].
    + pose proof (storeString_noSyntaxError v (Json.r_Name r) saved Hsaved)
        as Hs.
      destruct (Json.storeString v (Json.r_Name r) saved) as [x e]. exact Hs.
    + pose proof (storeString_noSyntaxError v (Json.r_MacAddress r) saved
                    Hsaved) as Hs.
      destruct (Json.storeString v (Json.r_MacAddress r) saved) as [x e].
      exact Hs.
    + pose proof (storeParameter_noSyntaxError v (Json.r_Parameter r) saved
                    Hsaved) as Hs.
      destruct (Json.storeParameter v (Json.r_Parameter r) saved) as [x e].
      exact Hs.
  - exact Hsaved.
Qed.

(** A scanned value is stored without error exactly when it has the shape
    of a record, and an error of storing is a type error. *)
Lemma store_fits (v : Json.value) (old : Json.raw) :
  snd (Json.store v old) = None <-> fitsRecord v = true.
Proof.
  destruct v; cbn [Json.store fitsRecord snd]; try (intuition congruence).
  rewrite (fold_store_fits Json.storeMember fitsMember storeMember_fits).
  tauto.
Qed.

Lemma store_noSyntaxError (v : Json.value) (old : Json.raw) :
  noSyntaxError (snd (Json.store v old)).
Proof.
  destruct v; cbn [Json.store snd]; try (unfold noSyntaxError; congruence).
  apply (fold_store_noSyntaxError Json.storeMember storeMember_noSyntaxError).
  unfold noSyntaxError. congruence.
Qed.

(** What [UnmarshalJSON] returns, by the outcome of [json.Unmarshal]. *)
Lemma UnmarshalJSON_error (s : Sensor) (data : string) :
  snd (Sensor_UnmarshalJSON s data)
  = snd (Json.Unmarshal data Json.raw_zero)
  /\ (snd (Json.Unmarshal data Json.raw_zero) <> None ->
      fst (Sensor_UnmarshalJSON s data) = s).
Proof.
  unfold Sensor_UnmarshalJSON.
  destruct (Json.Unmarshal data Json.raw_zero) as [r [e|]]; cbn [fst snd].
  - split; [reflexivity|reflexivity].
  - split; [reflexivity|congruence].
Qed.

(** C9, amended: decoding a record fails when its content is not JSON,
    when its JSON value is an array, a string, a number or a boolean, and
    when a member that names a field of the record has a value of the wrong
    type (not a string or [null] for the name and the address, not an
    object or [null] for the parameters, not a decimal integer of the
    range of [int64] or [null] for a threshold); it fails in these cases
    only, with a type error in the last two, and leaves the sensor as it
    was.  A record file whose decoding fails is skipped with one logged
    line.  Members that name no field are passed over: a JSON object none
    of whose members names a field of the record is decoded without error,
    to the descriptor with empty name, empty address and zero
    thresholds. *)
Theorem UnmarshalJSON_failures (s : Sensor) (data : string) :
  (Json.scan data = None ->
   Sensor_UnmarshalJSON s data = (s, Some Json.SyntaxError))
  /\ (forall v,
         Json.scan data = Some v -> notObjectOrNull v = true ->
         Sensor_UnmarshalJSON s data
         = (s, Some (Json.UnmarshalTypeError (Json.describe v))))
  /\ (forall members,
         Json.scan data = Some (Json.Object members) ->
         (forall k v, In (k, v) members ->
                      Json.lookupField Json.rawFields k = None) ->
         Sensor_UnmarshalJSON s data = (Sensor_zero, None))
  /\ (forall (env : Env) (dirPath : string) (sensors : list Sensor)
             (log : list LogEntry) (entry : DirEntry) (err : Json.error),
         isRecordFile entry = true ->
         os_ReadFile env (filepath_Join env dirPath (entry_Name entry))
         = (data, None) ->
         snd (Sensor_UnmarshalJSON Sensor_zero data) = Some err ->
         readEntry env dirPath (sensors, log) entry
         = (sensors,
            log ++ [Printf_Entry entry; Printf_opening (entry_Name entry);
                    Printf_Error_unmarshalling
                      (filepath_Join env dirPath (entry_Name entry)) err]))
  /\ (snd (Sensor_UnmarshalJSON s data) = None
      <-> exists v, Json.scan data = Some v /\ fitsRecord v = true)
  /\ (forall v,
         Json.scan data = Some v -> fitsRecord v = false ->
         exists d,
           Sensor_UnmarshalJSON s data = (s, Some (Json.UnmarshalTypeError d))).
Proof.
  split; [|split; [|split; [|split; [|split]]]].
  - intros Hscan. unfold Sensor_UnmarshalJSON, Json.Unmarshal.
    now rewrite Hscan.
  - intros v Hscan Hkind. unfold Sensor_UnmarshalJSON, Json.Unmarshal.
    rewrite Hscan. destruct v; try discriminate Hkind; reflexivity.
  - intros members Hscan Hkeys. unfold Sensor_UnmarshalJSON, Json.Unmarshal.
    rewrite Hscan. cbn [Json.store].
    now rewrite (store_unknown_members members Hkeys).
  - intros env dirPath sensors log entry err Hrec Hread Hdec.
    unfold readEntry. unfold isRecordFile in Hrec. rewrite Hrec, Hread.
    destruct (Sensor_UnmarshalJSON Sensor_zero data) as [s' e].
    cbn [snd] in Hdec. subst e. now rewrite <- !app_assoc.
  - rewrite (proj1 (UnmarshalJSON_error s data)). unfold Json.Unmarshal.
    destruct (Json.scan data) as [v|].
    + rewrite store_fits. split.
      * intros Hfits. now exists v.
      * intros [v' [Hv Hfits]]. now injection Hv as ->.
    + cbn [snd]. split; [discriminate|].
      intros [v [Hv _]]. discriminate Hv.
  - intros v Hscan Hfits.
    pose proof (store_fits v Json.raw_zero) as Hstore.
    pose proof (store_noSyntaxError v Json.raw_zero) as Hkind.
    unfold Sensor_UnmarshalJSON, Json.Unmarshal. rewrite Hscan.
    destruct (Json.store v Json.raw_zero) as [r [[|d]|]]; cbn [snd] in *.
    + now contradiction Hkind.
    + now exists d.
    + rewrite (proj1 Hstore eq_refl) in Hfits. discriminate Hfits.
Qed.

Lemma foo_names_no_field :
  forall (k : string) (v : Json.value),
    In (k, v) [("foo"%string, Json.Number "1")] ->
    Json.lookupField Json.rawFields k = None.
Proof.
  intros k v [Heq|[]]. injection Heq as <- _. reflexivity.
Qed.

Lemma UnmarshalJSON_failures_witness :
  Sensor_UnmarshalJSON kitchen record_malformed = (kitchen, Some Json.SyntaxError)
  /\ Sensor_UnmarshalJSON kitchen record_array
     = (kitchen, Some (Json.UnmarshalTypeError "array"))
  /\ Sensor_UnmarshalJSON kitchen record_unknown_shape = (Sensor_zero, None)
  /\ readEntry (exampleEnv [] [("a.json", record_array)]%string) defaultDir
       ([kitchen], []) (mkDirEntry "a.json" false)
     = ([kitchen],
        [Printf_Entry (mkDirEntry "a.json" false); Printf_opening "a.json";
         Printf_Error_unmarshalling "internal/config/sensorData/a.json"
           (Json.UnmarshalTypeError "array")])
  /\ (exists d,
         Sensor_UnmarshalJSON kitchen record_name_number
         = (kitchen, Some (Json.UnmarshalTypeError d)))
  /\ (exists d,
         Sensor_UnmarshalJSON kitchen record_threshold_fraction
         = (kitchen, Some (Json.UnmarshalTypeError d)))
  /\ (exists d,
         Sensor_UnmarshalJSON kitchen record_parameter_string
         = (kitchen, Some (Json.UnmarshalTypeError d))).
Proof.
  split; [|split; [|split; [|split; [|split; [|split]]]]].
  - exact (proj1 (UnmarshalJSON_failures kitchen record_malformed) eq_refl).
  - exact (proj1 (proj2 (UnmarshalJSON_failures kitchen record_array))
             (Json.Array [Json.Str "AA:BB"]) eq_refl eq_refl).
  - exact (proj1 (proj2 (proj2 (UnmarshalJSON_failures kitchen
                                  record_unknown_shape)))
             [("foo"%string, Json.Number "1")] eq_refl foo_names_no_field).
  - exact (proj1 (proj2 (proj2 (proj2 (UnmarshalJSON_failures kitchen
                                         record_array))))
             (exampleEnv [] [("a.json", record_array)]%string) defaultDir
             [kitchen] [] (mkDirEntry "a.json" false)
             (Json.UnmarshalTypeError "array") eq_refl eq_refl eq_refl).
  - exact (proj2 (proj2 (proj2 (proj2 (proj2
             (UnmarshalJSON_failures kitchen record_name_number)))))
             (Json.Object [("sensor"%string, Json.Str "AA:BB:CC:DD:EE:FF");
                           ("name"%string, Json.Number "1")])
             eq_refl eq_refl).
  - exact (proj2 (proj2 (proj2 (proj2 (proj2
             (UnmarshalJSON_failures kitchen record_threshold_fraction)))))
             (Json.Object
                [("sensor"%string, Json.Str "AA:BB:CC:DD:EE:FF");
                 ("parameter"%string,
                  Json.Object [("min_soil_moist"%string, Json.Number "1.5")])])
             eq_refl eq_refl).
  - exact (proj2 (proj2 (proj2 (proj2 (proj2
             (UnmarshalJSON_failures kitchen record_parameter_string)))))
             (Json.Object [("Parameter"%string, Json.Str "none")])
             eq_refl eq_refl).
Defined.

(* ================================================================== *)
(** ** Properties of the checks of [Parse] *)

Lemma length_zero_eqb (s : string) :
  (String.length s =? 0)%nat = String.eqb s "".
Proof. destruct s; reflexivity. Qed.

Lemma world_eta (w : World) :
  mkWorld (result w) (CommandLine w) (logged w ++ []) = w.
Proof. destruct w. cbn. now rewrite app_nil_r. Qed.

(** The checks return the configuration they are given, with the error of
    the first enforced rule that fails; they change nothing but the log,
    which receives the warning. *)
Lemma checks_spec (c : Config) (w : World) :
  checks c w
  = Ret (c, enforced c)
      (mkWorld (result w) (CommandLine w) (logged w ++ advisory c)).
Proof.
  unfold checks, enforced, advisory.
  rewrite length_zero_eqb.
  destruct (Sensors c) as [|s0 sensors]; cbn [List.length Nat.eqb].
  - unfold ret. now rewrite world_eta.
  - destruct (String.eqb (Device c) "").
    + unfold ret. now rewrite world_eta.
    + unfold bind, write_log, ret.
      destruct (RefreshDuration c <? Minute);
        cbn [result CommandLine logged];
        destruct (StaleDuration c <? wrap64 (2 * RefreshDuration c));
        try (now rewrite ?world_eta);
        destruct (MinDuration (Retry c) <? 30 * Second);
        try (now rewrite ?world_eta);
        destruct (MaxDuration (Retry c) <? MinDuration (Retry c));
        try (now rewrite ?world_eta);
        destruct (PrimFloat.ltb (Factor (Retry c)) 1);
        now rewrite ?world_eta.
Qed.

Lemma wrap64_in_range (z : Z) : int64_range z -> wrap64 z = z.
Proof.
  unfold int64_range, wrap64. intros Hz.
  rewrite Z.mod_small by lia. lia.
Qed.

Lemma Device_nonempty (c : Config) :
  Device c <> ""%string -> String.eqb (Device c) "" = false.
Proof. intros H. now apply String.eqb_neq. Qed.

(** C6: when the sensor list and the adapter identifier are both empty,
    the error is the one of the sensors; and a refresh interval under one
    minute does not decide the outcome: the error is that of the first
    enforced rule that fails, and when none fails the checks return no
    error and log the warning. *)
Theorem validation_order_and_advisory (c : Config) (w : World) :
  (Sensors c = [] -> Device c = ""%string ->
   checks c w = Ret (c, Some ErrNoSensors) w)
  /\ (RefreshDuration c < Minute ->
      returned (checks c w) = Some (c, enforced c)
      /\ (enforced c = None ->
          checks c w
          = Ret (c, None)
              (mkWorld (result w) (CommandLine w)
                 (logged w ++ [Warnf_Refresh_durations (RefreshDuration c)])))).
Proof.
  rewrite checks_spec. split.
  - intros Hsensors _. unfold enforced, advisory. rewrite Hsensors.
    now rewrite world_eta.
  - intros Hrefresh. split; [reflexivity|]. intros Hnone.
    rewrite Hnone. f_equal. f_equal.
    unfold enforced in Hnone. unfold advisory.
    destruct (Sensors c); [discriminate|].
    destruct (String.eqb (Device c) ""); [discriminate|].
    apply Z.ltb_lt in Hrefresh. now rewrite Hrefresh.
Qed.

Lemma validation_order_and_advisory_witness :
  checks Config_zero emptyWorld = Ret (Config_zero, Some ErrNoSensors) emptyWorld
  /\ checks (with_durations exampleConfig (30 * Second) (5 * Minute)) emptyWorld
     = Ret (with_durations exampleConfig (30 * Second) (5 * Minute), None)
         (mkWorld Config_zero [] [Warnf_Refresh_durations (30 * Second)]).
Proof.
  split.
  - exact (proj1 (validation_order_and_advisory Config_zero emptyWorld)
             eq_refl eq_refl).
  - exact (proj2 (proj2 (validation_order_and_advisory
                           (with_durations exampleConfig (30 * Second) (5 * Minute))
                           emptyWorld) eq_refl) eq_refl).
Defined.

(** C7 fails on the code: the check computes the doubled refresh interval
    in [int64], without a guard.  With a refresh interval of 2^62 ns the
    double wraps to the least [int64], so the stale duration 2^63 - 1 ns,
    one nanosecond under the double, is not refused: the checks return no
    error, and so does [Parse] on the command line that gives these two
    durations. *)
Theorem stale_check_overflows :
  let c := with_durations exampleConfig (2 ^ 62) (2 ^ 63 - 1) in
  (StaleDuration c = 2 * RefreshDuration c - 1
   /\ int64_range (RefreshDuration c) /\ int64_range (StaleDuration c)
   /\ wrap64 (2 * RefreshDuration c) = - 2 ^ 63
   /\ checks c emptyWorld = Ret (c, None) emptyWorld)
  /\ returned (run_Parse overflowEnv)
     = Some (with_durations
               (with_sensors defaults
                  [mkSensor "kitchen" "AA:BB:CC:DD:EE:FF" 60 15 0 0 0 0])
               (2 ^ 62) (2 ^ 63 - 1), None).
Proof.
  intros c. split.
  - split; [reflexivity|].
    split; [unfold int64_range; cbn; lia|].
    split; [unfold int64_range; cbn; lia|].
    split; [reflexivity|].
    rewrite checks_spec. reflexivity.
  - vm_compute. reflexivity.
Qed.

(** Where the doubled refresh interval is an [int64] value the boundary of
    the staleness check is where the double is: for a configuration that
    has a sensor and an adapter, a stale duration equal to the double
    passes the check, and a stale duration one nanosecond under the double
    fails it, with the staleness error. *)
Lemma stale_check_boundary (c : Config) (w : World) :
  Sensors c <> [] -> Device c <> ""%string ->
  int64_range (2 * RefreshDuration c) ->
  (StaleDuration c = 2 * RefreshDuration c ->
   forall d, returnedError (checks c w) <> Some (ErrStaleDuration d))
  /\ (StaleDuration c = 2 * RefreshDuration c - 1 ->
      returned (checks c w)
      = Some (c, Some (ErrStaleDuration (2 * RefreshDuration c)))).
Proof.
  intros Hsensors Hdevice Hrange. rewrite checks_spec.
  cbn [returnedError returned]. unfold enforced.
  destruct (Sensors c) as [|s0 sensors]; [contradiction|].
  rewrite (Device_nonempty c Hdevice), (wrap64_in_range _ Hrange).
  split.
  - intros Hstale d. rewrite Hstale, Z.ltb_irrefl.
    destruct (MinDuration (Retry c) <? 30 * Second); [discriminate|].
    destruct (MaxDuration (Retry c) <? MinDuration (Retry c)); [discriminate|].
    destruct (PrimFloat.ltb (Factor (Retry c)) 1); discriminate.
  - intros Hstale.
    assert (Hlt : (StaleDuration c <? 2 * RefreshDuration c) = true)
      by (apply Z.ltb_lt; lia).
    now rewrite Hlt.
Qed.

Lemma stale_check_boundary_witness :
  (forall d,
      returnedError (checks (with_durations exampleConfig (2 * Minute) (4 * Minute))
                       emptyWorld)
      <> Some (ErrStaleDuration d))
  /\ returned (checks (with_durations exampleConfig (2 * Minute) (4 * Minute - 1))
                 emptyWorld)
     = Some (with_durations exampleConfig (2 * Minute) (4 * Minute - 1),
             Some (ErrStaleDuration (4 * Minute))).
Proof.
  assert (Hs : Sensors exampleConfig <> []) by discriminate.
  assert (Hd : Device exampleConfig <> ""%string) by discriminate.
  assert (Hr : int64_range (2 * (2 * Minute))) by (unfold int64_range; cbn; lia).
  split.
  - exact (proj1 (stale_check_boundary
                    (with_durations exampleConfig (2 * Minute) (4 * Minute))
                    emptyWorld Hs Hd Hr) eq_refl).
  - exact (proj2 (stale_check_boundary
                    (with_durations exampleConfig (2 * Minute) (4 * Minute - 1))
                    emptyWorld Hs Hd Hr) eq_refl).
Defined.

(** C8: for a configuration that passes the first rules, a retry minimum
    of exactly thirty seconds passes its check and one of 29.999 s (or any
    under thirty seconds) fails it; a retry maximum equal to the minimum
    passes its check and one under the minimum fails it; and a retry factor
    of exactly 1.0 is accepted while any factor below 1 is rejected. *)
Theorem retry_checks_boundaries (c : Config) (w : World) :
  Sensors c <> [] -> Device c <> ""%string ->
  wrap64 (2 * RefreshDuration c) <= StaleDuration c ->
  (MinDuration (Retry c) = 30 * Second ->
   forall m, returnedError (checks c w) <> Some (ErrRetryMin m))
  /\ (MinDuration (Retry c) = 29999 * Millisecond ->
      returned (checks c w) = Some (c, Some (ErrRetryMin (29999 * Millisecond))))
  /\ (MinDuration (Retry c) < 30 * Second ->
      returned (checks c w) = Some (c, Some (ErrRetryMin (MinDuration (Retry c)))))
  /\ (30 * Second <= MinDuration (Retry c) ->
      MaxDuration (Retry c) = MinDuration (Retry c) ->
      forall a b, returnedError (checks c w) <> Some (ErrRetryMax a b))
  /\ (30 * Second <= MinDuration (Retry c) ->
      MaxDuration (Retry c) < MinDuration (Retry c) ->
      returned (checks c w)
      = Some (c, Some (ErrRetryMax (MinDuration (Retry c))
                         (MaxDuration (Retry c)))))
  /\ (30 * Second <= MinDuration (Retry c) ->
      MinDuration (Retry c) <= MaxDuration (Retry c) ->
      Factor (Retry c) = 1%float ->
      returned (checks c w) = Some (c, None))
  /\ (30 * Second <= MinDuration (Retry c) ->
      MinDuration (Retry c) <= MaxDuration (Retry c) ->
      PrimFloat.ltb (Factor (Retry c)) 1 = true ->
      returned (checks c w) = Some (c, Some (ErrRetryFactor (Factor (Retry c))))).
Proof.
  intros Hsensors Hdevice Hstale. rewrite checks_spec.
  cbn [returnedError returned]. unfold enforced.
  destruct (Sensors c) as [|s0 sensors]; [contradiction|].
  rewrite (Device_nonempty c Hdevice).
  assert (Hst : (StaleDuration c <? wrap64 (2 * RefreshDuration c)) = false)
    by (apply Z.ltb_ge; exact Hstale).
  rewrite Hst.
  repeat split.
  - intros Hmin m. rewrite Hmin, Z.ltb_irrefl.
    destruct (MaxDuration (Retry c) <? 30 * Second); [discriminate|].
    destruct (PrimFloat.ltb (Factor (Retry c)) 1); discriminate.
  - intros Hmin. rewrite Hmin. reflexivity.
  - intros Hmin. apply Z.ltb_lt in Hmin. now rewrite Hmin.
  - intros Hmin Hmax a b. apply Z.ltb_ge in Hmin. rewrite Hmin, Hmax, Z.ltb_irrefl.
    destruct (PrimFloat.ltb (Factor (Retry c)) 1); discriminate.
  - intros Hmin Hmax. apply Z.ltb_ge in Hmin. apply Z.ltb_lt in Hmax.
    now rewrite Hmin, Hmax.
  - intros Hmin Hmax Hfactor. apply Z.ltb_ge in Hmin. apply Z.ltb_ge in Hmax.
    rewrite Hmin, Hmax, Hfactor. reflexivity.
  - intros Hmin Hmax Hfactor. apply Z.ltb_ge in Hmin. apply Z.ltb_ge in Hmax.
    now rewrite Hmin, Hmax, Hfactor.
Qed.

Lemma retry_checks_boundaries_witness :
  (forall m, returnedError (checks exampleConfig emptyWorld) <> Some (ErrRetryMin m))
  /\ returned (checks (with_retry exampleConfig
                         (mkRetryConfig (29999 * Millisecond) (30 * Minute) 2))
                 emptyWorld)
     = Some (with_retry exampleConfig
               (mkRetryConfig (29999 * Millisecond) (30 * Minute) 2),
             Some (ErrRetryMin (29999 * Millisecond)))
  /\ (forall a b,
         returnedError (checks (with_retry exampleConfig
                                  (mkRetryConfig (30 * Second) (30 * Second) 2))
                          emptyWorld)
         <> Some (ErrRetryMax a b))
  /\ returned (checks (with_retry exampleConfig
                         (mkRetryConfig (30 * Second) (30 * Minute) 1))
                 emptyWorld)
     = Some (with_retry exampleConfig
               (mkRetryConfig (30 * Second) (30 * Minute) 1), None)
  /\ returned (checks (with_retry exampleConfig
                         (mkRetryConfig (30 * Second) (30 * Minute) 0.5))
                 emptyWorld)
     = Some (with_retry exampleConfig
               (mkRetryConfig (30 * Second) (30 * Minute) 0.5),
             Some (ErrRetryFactor 0.5)).
Proof.
  assert (Hs : forall r, Sensors (with_retry exampleConfig r) <> [])
    by (intros r; discriminate).
  assert (Hd : forall r, Device (with_retry exampleConfig r) <> ""%string)
    by (intros r; discriminate).
  assert (Hst : forall r,
             wrap64 (2 * RefreshDuration (with_retry exampleConfig r))
             <= StaleDuration (with_retry exampleConfig r))
    by (intros r; vm_compute; discriminate).
  assert (Hmin : 30 * Second <= 30 * Second) by (vm_compute; discriminate).
  assert (Hmax : 30 * Second <= 30 * Minute) by (vm_compute; discriminate).
  split; [|split; [|split; [|split]]].
  - exact (proj1 (retry_checks_boundaries
                    (with_retry exampleConfig (Retry exampleConfig)) emptyWorld
                    (Hs _) (Hd _) (Hst _)) eq_refl).
  - exact (proj1 (proj2 (retry_checks_boundaries
                           (with_retry exampleConfig
                              (mkRetryConfig (29999 * Millisecond) (30 * Minute) 2))
                           emptyWorld (Hs _) (Hd _) (Hst _))) eq_refl).
  - exact (proj1 (proj2 (proj2 (proj2
             (retry_checks_boundaries
                (with_retry exampleConfig
                   (mkRetryConfig (30 * Second) (30 * Second) 2))
                emptyWorld (Hs _) (Hd _) (Hst _)))))
             Hmin eq_refl).
  - exact (proj1 (proj2 (proj2 (proj2 (proj2 (proj2
             (retry_checks_boundaries
                (with_retry exampleConfig
                   (mkRetryConfig (30 * Second) (30 * Minute) 1))
                emptyWorld (Hs _) (Hd _) (Hst _)))))))
             Hmin Hmax eq_refl).
  - exact (proj2 (proj2 (proj2 (proj2 (proj2 (proj2
             (retry_checks_boundaries
                (with_retry exampleConfig
                   (mkRetryConfig (30 * Second) (30 * Minute) 0.5))
                emptyWorld (Hs _) (Hd _) (Hst _)))))))
             Hmin Hmax eq_refl).
Defined.

(* ================================================================== *)
(** ** Properties of [Parse] *)

Lemma flagsKeep_refl (w : World) : flagsKeep w w.
Proof. unfold flagsKeep. tauto. Qed.

Lemma flagsKeep_trans (w1 w2 w3 : World) :
  flagsKeep w1 w2 -> flagsKeep w2 w3 -> flagsKeep w1 w3.
Proof.
  unfold flagsKeep. intros [Hc1 [Hl1 Hs1]] [Hc2 [Hl2 Hs2]].
  rewrite Hc1 in Hc2, Hs2.
  split; [congruence|]. split; [congruence|].
  intros Hno. rewrite (Hs2 Hno). exact (Hs1 Hno).
Qed.

Lemma Value_Set_Sensors (env : Env) (t : Target) (value : string)
  (c c' : Config) :
  t <> T_Sensors -> Value_Set env t value c = Some c' -> Sensors c' = Sensors c.
Proof.
  intros Ht Hset. destruct t; try contradiction; cbn in Hset;
    try (injection Hset as <-; reflexivity).
  - unfold LogLevel_Set in Hset.
    destruct (ParseLevel value); [injection Hset as <-; reflexivity|discriminate].
  - destruct (time_ParseDuration env value);
      [injection Hset as <-; reflexivity|discriminate].
  - destruct (time_ParseDuration env value);
      [injection Hset as <-; reflexivity|discriminate].
  - destruct (time_ParseDuration env value);
      [injection Hset as <-; reflexivity|discriminate].
  - destruct (time_ParseDuration env value);
      [injection Hset as <-; reflexivity|discriminate].
  - destruct (time_ParseDuration env value);
      [injection Hset as <-; reflexivity|discriminate].
  - destruct (strconv_ParseFloat env value);
      [injection Hset as <-; reflexivity|discriminate].
Qed.

Lemma Flag_Set_keeps (env : Env) (f : Flag) (value : string) (b : bool)
  (w : World) :
  In f (CommandLine w) ->
  flagsKeep w (final (bind (Flag_Set env f value) (fun _ => ret b) w)).
Proof.
  intros Hin. unfold bind, Flag_Set, ret.
  destruct (Value_Set env (flag_Target f) value (result w)) as [c|] eqn:Hset;
    cbn [final]; [|apply flagsKeep_refl].
  unfold flagsKeep. cbn [CommandLine logged result].
  split; [reflexivity|]. split; [reflexivity|].
  intros Hno. exact (Value_Set_Sensors env _ value _ _ (Hno f Hin) Hset).
Qed.

Lemma lookupLong_In (flags : list Flag) (name : string) (f : Flag) :
  lookupLong flags name = Some f -> In f flags.
Proof. intros H. exact (proj1 (find_some _ _ H)). Qed.

Lemma lookupShort_In (flags : list Flag) (c : ascii) (f : Flag) :
  lookupShort flags c = Some f -> In f flags.
Proof. intros H. exact (proj1 (find_some _ _ H)). Qed.

Lemma parseLongArg_keeps (env : Env) (s : string) (next : option string)
  (w : World) :
  flagsKeep w (final (parseLongArg env s next w)).
Proof.
  unfold parseLongArg.
  destruct (Strings.drop 2 s) as [|c0 name]; [apply flagsKeep_refl|].
  destruct (Ascii.eqb c0 "-" || Ascii.eqb c0 "="); [apply flagsKeep_refl|].
  destruct (lookupLong (CommandLine w)
              (hd EmptyString (Strings.SplitN (String c0 name) "=" 2)))
    as [flag|] eqn:Hflag.
  - apply lookupLong_In in Hflag.
    destruct (Strings.SplitN (String c0 name) "=" 2) as [|x [|y [|z l]]];
      destruct next; try apply flagsKeep_refl; now apply Flag_Set_keeps.
  - destruct (String.eqb _ "help"); apply flagsKeep_refl.
Qed.

Lemma parseShortArg_keeps (env : Env) (s : string) (next : option string)
  (w : World) :
  flagsKeep w (final (parseShortArg env s next w)).
Proof.
  unfold parseShortArg.
  destruct (Strings.HasPrefix (Strings.drop 1 s) "test."); [apply flagsKeep_refl|].
  destruct (Strings.drop 1 s) as [|c tail]; [apply flagsKeep_refl|].
  destruct (lookupShort (CommandLine w) c) as [flag|] eqn:Hflag.
  - apply lookupShort_In in Hflag.
    destruct tail as [|e [|v0 rest]]; destruct next;
      try destruct (Ascii.eqb e "=");
      try apply flagsKeep_refl; now apply Flag_Set_keeps.
  - destruct (Ascii.eqb c "h"); apply flagsKeep_refl.
Qed.

Lemma bind_keeps {A B : Type} (m : M A) (k : A -> M B) (w : World) :
  flagsKeep w (final (m w)) ->
  (forall a w', flagsKeep w' (final (k a w'))) ->
  flagsKeep w (final (bind m k w)).
Proof.
  intros Hm Hk. unfold bind. destruct (m w) as [a w'|why w']; cbn [final] in *.
  - exact (flagsKeep_trans _ _ _ Hm (Hk a w')).
  - exact Hm.
Qed.

(** Parsing the command line changes [result] only, and not its sensors
    unless a flag is bound to them. *)
Lemma parseArgs_keeps (env : Env) (n : nat) :
  forall (args : list string) (w : World),
    (List.length args <= n)%nat ->
    flagsKeep w (final (parseArgs env args w)).
Proof.
  induction n as [|n IH]; intros args w Hlen.
  - destruct args; [apply flagsKeep_refl|cbn in Hlen; lia].
  - destruct args as [|s rest]; [apply flagsKeep_refl|].
    cbn [List.length] in Hlen.
    assert (Hrest : forall w', flagsKeep w' (final (parseArgs env rest w')))
      by (intros w'; apply IH; lia).
    assert (Hcont : forall (taken : bool) w',
               flagsKeep w'
                 (final ((if taken
                          then match rest with
                               | _ :: rest' => parseArgs env rest'
                               | [] => ret tt
                               end
                          else parseArgs env rest) w'))).
    { intros [|] w'; [|apply Hrest].
      destruct rest as [|s1 rest']; [apply flagsKeep_refl|].
      apply IH. cbn [List.length] in Hlen. lia. }
    cbn [parseArgs].
    destruct s as [|c0 [|c1 tail]]; try apply Hrest.
    destruct (negb (Ascii.eqb c0 "-")); [apply Hrest|].
    destruct (Ascii.eqb c1 "-").
    + destruct tail; [apply flagsKeep_refl|].
      apply bind_keeps; [apply parseLongArg_keeps|exact Hcont].
    + apply bind_keeps; [apply parseShortArg_keeps|exact Hcont].
Qed.

(** [Parse], statement by statement: the directory named by the default
    is read before any flag is parsed; a failed listing ends the run;
    otherwise the flags are parsed with the flags of [registeredFlags] and
    the checks run on what they leave in [result]. *)
Lemma run_Parse_unfold (env : Env) :
  run_Parse env
  = match readSensorsFromDir env defaultDir with
    | (sensors, Some e, lines) =>
        Exit ExitFatal
          (mkWorld defaults [mkFlag "sensordir" "z" T_SensorDir]
             ((([Printf_sensordir defaultDir; Infof_sensor_directory defaultDir]
                  ++ lines) ++ [Fatalf_Error_reading_sensors e])))
    | (sensors, None, lines) =>
        match parseArgs env (os_Args env)
                (mkWorld (with_sensors defaults sensors) registeredFlags
                   ([Printf_sensordir defaultDir;
                     Infof_sensor_directory defaultDir] ++ lines)) with
        | Ret _ w => checks (result w) w
        | Exit why w => Exit why w
        end
    end.
Proof.
  unfold run_Parse, Parse.
  unfold bind at 1. cbn [set_result].
  unfold bind at 1. cbn [StringVarP AddFlag result CommandLine logged].
  unfold bind at 1. cbn [get_result result CommandLine logged].
  unfold bind at 1. cbn [write_log result CommandLine logged].
  change (SensorDir defaults) with defaultDir.
  change (negb (String.length defaultDir =? 0)%nat) with true. cbv iota.
  destruct (readSensorsFromDir env defaultDir) as [[sensors [e|]] lines].
  - reflexivity.
  - reflexivity.
Qed.

Lemma registeredFlags_noSensorFlag : noSensorFlag registeredFlags.
Proof.
  intros f Hin. cbn in Hin.
  repeat (destruct Hin as [<-|Hin]; [discriminate|]). contradiction.
Qed.

(** Whatever the command line, a run that returns has read its sensors
    from the default directory, and never had the flag [-s]. *)
Lemma Parse_sensors_from_default_directory (env : Env) (c : Config)
  (err : option ParseError) (w : World) :
  run_Parse env = Ret (c, err) w ->
  c = result w
  /\ err = enforced c
  /\ Sensors c = fst (fst (readSensorsFromDir env defaultDir))
  /\ CommandLine w = registeredFlags.
Proof.
  rewrite run_Parse_unfold.
  destruct (readSensorsFromDir env defaultDir) as [[sensors [e|]] lines];
    [discriminate|].
  pose proof (parseArgs_keeps env (List.length (os_Args env)) (os_Args env)
                (mkWorld (with_sensors defaults sensors) registeredFlags
                   ([Printf_sensordir defaultDir;
                     Infof_sensor_directory defaultDir] ++ lines))
                (le_n _)) as Hkeep.
  destruct (parseArgs env (os_Args env) _) as [u w1|why w1]; [|discriminate].
  cbn [final] in Hkeep. destruct Hkeep as [Hflags [_ Hsensors]].
  cbn [CommandLine result] in Hflags, Hsensors.
  rewrite checks_spec. intros Hret. injection Hret as Hc He Hw.
  subst c err w. cbn [result CommandLine fst].
  split; [reflexivity|]. split; [reflexivity|].
  split; [exact (Hsensors registeredFlags_noSensorFlag)|exact Hflags].
Qed.

(** C1 fails on the code: the directory path is tested before the flags
    are parsed, when it still holds the default.  With the command line
    [--sensordir= -s AA:BB:CC:DD:EE:FF] the default directory is read, the
    flag [-s] is unknown and ends the run; with [--sensordir=] alone the
    run returns a configuration whose directory path is empty and whose
    sensors are those of the default directory. *)
Theorem sensordir_tested_before_flags_are_parsed :
  let files := [("k.json", record_kitchen)]%string in
  let tokens := exampleEnv ["--sensordir="; "-s"; "AA:BB:CC:DD:EE:FF"]%string files in
  let empty := exampleEnv ["--sensordir="]%string files in
  (exitReason (run_Parse tokens) = Some (ExitFlags (UnknownShorthand "s" "s"))
   /\ SensorDir (result (final (run_Parse tokens))) = ""%string
   /\ logged (final (run_Parse tokens))
      = [Printf_sensordir defaultDir; Infof_sensor_directory defaultDir;
         Printf_Entry (mkDirEntry "k.json" false); Printf_opening "k.json"])
  /\ returned (run_Parse empty)
     = Some (mkConfig InfoLevel ":9294"
               [mkSensor "kitchen" "AA:BB:CC:DD:EE:FF" 60 15 0 0 0 0] "hci0"
               (2 * Minute) Minute (5 * Minute)
               (mkRetryConfig (30 * Second) (30 * Minute) 2) "", None).
Proof.
  intros files tokens empty.
  split; [split; [|split]|]; vm_compute; reflexivity.
Qed.







(* ================================================================== *)
(** ** The model on concrete inputs *)

Example SplitN_first_separator :
  Strings.SplitN "a=b=c" "=" 2 = ["a"; "b=c"]%string.
Proof. reflexivity. Qed.

Example HasSuffix_json :
  Strings.HasSuffix "kitchen.json" ".json" = true
  /\ Strings.HasSuffix "json" ".json" = false.
Proof. split; reflexivity. Qed.

Example decode_full_record :
  Sensor_UnmarshalJSON Sensor_zero record_kitchen
  = (mkSensor "kitchen" "AA:BB:CC:DD:EE:FF" 60 15 0 0 0 0, None).
Proof. vm_compute. reflexivity. Qed.

Example decode_key_of_other_case :
  Sensor_UnmarshalJSON Sensor_zero
    ("{" ++ quoted "SENSOR" ++ ":" ++ quoted "AA:BB" ++ "}")%string
  = (mkSensor "" "AA:BB" 0 0 0 0 0 0, None).
Proof. vm_compute. reflexivity. Qed.

Example decode_name_of_wrong_type :
  Sensor_UnmarshalJSON kitchen ("{" ++ quoted "name" ++ ": 1}")%string
  = (kitchen, Some (Json.UnmarshalTypeError "number")).
Proof. vm_compute. reflexivity. Qed.

Example decode_threshold_with_fraction :
  Sensor_UnmarshalJSON kitchen
    ("{" ++ quoted "parameter" ++ ":{" ++ quoted "max_soil_ec" ++ ":1.5}}")%string
  = (kitchen, Some (Json.UnmarshalTypeError "number 1.5")).
Proof. vm_compute. reflexivity. Qed.

Example decode_null :
  Sensor_UnmarshalJSON kitchen "null" = (Sensor_zero, None).
Proof. vm_compute. reflexivity. Qed.

Example decode_trailing_comma :
  Sensor_UnmarshalJSON kitchen
    ("{" ++ quoted "name" ++ ":" ++ quoted "x" ++ ",}")%string
  = (kitchen, Some Json.SyntaxError).
Proof. vm_compute. reflexivity. Qed.

Example decode_escapes :
  Json.scan (quoted "a\u0041\n\ud83d\ude00\ud83d")
  = Some (Json.Str ("aA" ++ String (Json.chr 10)
                             (Json.encodeRune 128512 ++ Json.FFFD)))%string.
Proof. vm_compute. reflexivity. Qed.

Example ParseLevel_warning :
  ParseLevel "WARNING" = Some WarnLevel /\ ParseLevel "verbose" = None.
Proof. split; reflexivity. Qed.

Example flag_with_next_argument :
  let env := exampleEnv ["-i"; "hci1"; "--addr=:80"]%string
               [("k.json", record_kitchen)]%string in
  returned (run_Parse env)
  = Some (mkConfig InfoLevel ":80"
            [mkSensor "kitchen" "AA:BB:CC:DD:EE:FF" 60 15 0 0 0 0] "hci1"
            (2 * Minute) Minute (5 * Minute)
            (mkRetryConfig (30 * Second) (30 * Minute) 2) defaultDir, None).
Proof. vm_compute. reflexivity. Qed.

Example long_sensor_flag_unknown :
  exitReason (run_Parse (exampleEnv ["--sensor=AA:BB"]%string []))
  = Some (ExitFlags (UnknownFlag "sensor")).
Proof. vm_compute. reflexivity. Qed.

Example help_flag :
  exitReason (run_Parse (exampleEnv ["--help"]%string []))
  = Some (ExitFlags ErrHelp).
Proof. vm_compute. reflexivity. Qed.

Example missing_directory_is_fatal :
  let env := mkEnv [] (fun _ => ([], Some "no such file or directory"%string))
               (fun _ => (""%string, Some "no such file or directory"%string))
               exampleJoin (fun _ => None) (fun _ => None) in
  exitReason (run_Parse env) = Some ExitFatal.
Proof. vm_compute. reflexivity. Qed.

(* ================================================================== *)
(** ** Further properties of the tokens and their textual forms *)

Section TokenFacts.

Local Open Scope string_scope.
Local Arguments Ascii.eqb : simpl never.

(** What a cut says about the text. *)
Lemma Cut_eq_some (s a b : string) :
  Strings.Cut s "=" = Some (a, b) ->
  s = a ++ "=" ++ b /\ ~ Strings.occurs "="%char a.
Proof.
  revert a b. induction s as [|c s IH]; intros a b Hcut.
  - discriminate Hcut.
  - simpl in Hcut. destruct (Ascii.eqb_spec "="%char c) as [Heq|Hne].
    + simpl in Hcut. injection Hcut as <- <-. subst c.
      split; [reflexivity|]. intros [].
    + simpl in Hcut.
      destruct (Strings.Cut s "=") as [[a' b']|] eqn:Hrest; [|discriminate].
      injection Hcut as <- <-.
      destruct (IH a' b' eq_refl) as [Hs Hno]. split.
      * simpl. f_equal. exact Hs.
      * rewrite occurs_cons. intros [Hc|Hin]; [congruence|contradiction].
Qed.

Lemma Cut_eq_none (s : string) :
  Strings.Cut s "=" = None -> ~ Strings.occurs "="%char s.
Proof.
  induction s as [|c s IH]; intros Hcut.
  - intros [].
  - simpl in Hcut. destruct (Ascii.eqb_spec "="%char c) as [Heq|Hne].
    + discriminate Hcut.
    + simpl in Hcut.
      destruct (Strings.Cut s "=") as [[a' b']|] eqn:Hrest; [discriminate|].
      rewrite occurs_cons. intros [Hc|Hin]; [congruence|].
      exact (IH eq_refl Hin).
Qed.

Lemma append_cancel (p x y : string) : p ++ x = p ++ y -> x = y.
Proof.
  induction p as [|c p IH]; simpl; intros H; [exact H|].
  injection H as H. exact (IH H).
Qed.

Lemma append_nil_r (s : string) : s ++ "" = s.
Proof. induction s as [|c s IH]; simpl; [reflexivity|now rewrite IH]. Qed.

End TokenFacts.

(** The two shapes of a token that is not empty. *)
Lemma parseSensor_shape (tok : string) :
  tok <> ""%string ->
  (~ Strings.occurs "="%char tok
   /\ Name (fst (parseSensor tok)) = ""%string
   /\ MacAddress (fst (parseSensor tok)) = tok)
  \/ tok = (Name (fst (parseSensor tok)) ++ "="
            ++ MacAddress (fst (parseSensor tok)))%string.
Proof.
  intros Hne. unfold parseSensor.
  destruct tok as [|c tok]; [congruence|].
  cbn [String.length Nat.eqb Strings.SplitN].
  destruct (Strings.Cut (String c tok) "=") as [[a b]|] eqn:Hcut;
    cbn [fst Name MacAddress].
  - right. exact (proj1 (Cut_eq_some _ _ _ Hcut)).
  - left. split; [exact (Cut_eq_none _ Hcut)|]. split; reflexivity.
Qed.

(** X1: a token that is not empty always parses, to a descriptor without
    thresholds whose name contains no [=]; the token is either the
    address alone, with no [=] in it and no name, or the name, one [=] and
    the address. *)
Theorem parseSensor_decomposes (tok : string) :
  tok <> ""%string ->
  snd (parseSensor tok) = None
  /\ noThresholds (fst (parseSensor tok))
  /\ ~ Strings.occurs "="%char (Name (fst (parseSensor tok)))
  /\ ((~ Strings.occurs "="%char tok
       /\ Name (fst (parseSensor tok)) = ""%string
       /\ MacAddress (fst (parseSensor tok)) = tok)
      \/ tok = (Name (fst (parseSensor tok)) ++ "="
                ++ MacAddress (fst (parseSensor tok)))%string).
Proof.
  intros Hne. unfold parseSensor.
  destruct tok as [|c tok]; [congruence|].
  cbn [String.length Nat.eqb Strings.SplitN].
  destruct (Strings.Cut (String c tok) "=") as [[a b]|] eqn:Hcut;
    cbn [fst snd Name MacAddress]; unfold noThresholds;
    cbn [MaxSoilMoist MinSoilMoist MaxSoilEc MinSoilEc MaxLightLux MinLightLux].
  - destruct (Cut_eq_some _ _ _ Hcut) as [Hs Hno].
    repeat split; try reflexivity; try exact Hno. right. exact Hs.
  - repeat split; try reflexivity; try (intros []).
    left. split; [exact (Cut_eq_none _ Hcut)|]. split; reflexivity.
Qed.

Lemma parseSensor_decomposes_witness :
  snd (parseSensor "kitchen=A=B") = None
  /\ noThresholds (fst (parseSensor "kitchen=A=B"))
  /\ ~ Strings.occurs "="%char (Name (fst (parseSensor "kitchen=A=B")))
  /\ ((~ Strings.occurs "="%char "kitchen=A=B"
       /\ Name (fst (parseSensor "kitchen=A=B")) = ""%string
       /\ MacAddress (fst (parseSensor "kitchen=A=B")) = "kitchen=A=B"%string)
      \/ "kitchen=A=B"%string
         = (Name (fst (parseSensor "kitchen=A=B")) ++ "="
            ++ MacAddress (fst (parseSensor "kitchen=A=B")))%string).
Proof.
  assert (Hne : "kitchen=A=B"%string <> ""%string) by discriminate.
  exact (parseSensor_decomposes "kitchen=A=B" Hne).
Defined.

(** X2: writing a descriptor as a token and parsing the token gives the
    descriptor back, for a descriptor without thresholds whose name has no
    [=], whose address is not empty when it has no name, and has no [=]
    then; and parsing a token and writing the descriptor gives the token
    back, for a token that is not empty and does not start with [=]. *)
Theorem token_round_trip (s : Sensor) (tok : string) :
  noThresholds s ->
  ~ Strings.occurs "="%char (Name s) ->
  (Name s = ""%string ->
   MacAddress s <> ""%string /\ ~ Strings.occurs "="%char (MacAddress s)) ->
  tok <> ""%string ->
  Strings.HasPrefix tok "=" = false ->
  parseSensor (tokenOf s) = (s, None)
  /\ tokenOf (fst (parseSensor tok)) = tok.
Proof.
  intros Hzero Hname Haddr Htok Hstart. split.
  - destruct s as [n a t1 t2 t3 t4 t5 t6]. unfold noThresholds in Hzero.
    cbn in Hzero, Hname, Haddr. destruct Hzero as [-> [-> [-> [-> [-> ->]]]]].
    unfold tokenOf. cbn [Name MacAddress].
    destruct (String.eqb_spec n "") as [->|Hn].
    + destruct (Haddr eq_refl) as [Hne Hno].
      exact (parseSensor_plain a Hne Hno).
    + exact (parseSensor_named n a Hname).
  - pose proof (parseSensor_shape tok Htok) as Hshape.
    unfold tokenOf. destruct Hshape as [[_ [Hn Ha]]|Hsplit].
    + rewrite Hn. exact Ha.
    + destruct (String.eqb_spec (Name (fst (parseSensor tok))) "") as [Hn|Hn].
      * exfalso. rewrite Hn in Hsplit. rewrite Hsplit in Hstart.
        discriminate Hstart.
      * symmetry. exact Hsplit.
Qed.

Lemma token_round_trip_witness :
  parseSensor (tokenOf kitchen) = (kitchen, None)
  /\ tokenOf (fst (parseSensor "kitchen=A=B")) = "kitchen=A=B"%string.
Proof.
  assert (Hzero : noThresholds kitchen) by (repeat split).
  assert (Haddr : Name kitchen = ""%string ->
                  MacAddress kitchen <> ""%string
                  /\ ~ Strings.occurs "="%char (MacAddress kitchen))
    by (intros H; discriminate H).
  assert (Htok : "kitchen=A=B"%string <> ""%string) by discriminate.
  exact (token_round_trip kitchen "kitchen=A=B" Hzero no_equals_in_kitchen
           Haddr Htok eq_refl).
Defined.

(** X3: the text [String] gives for a descriptor that has a name never
    parses back to that descriptor. *)
Theorem named_String_does_not_parse_back (s : Sensor) :
  Name s <> ""%string ->
  fst (parseSensor (Sensor_String s)) <> s.
Proof.
  intros Hname Heq.
  assert (Htext : Sensor_String s
                  = (Name s ++ " (" ++ MacAddress s ++ ")")%string).
  { unfold Sensor_String. destruct (String.eqb_spec (Name s) ""); congruence. }
  assert (Hne : Sensor_String s <> ""%string).
  { rewrite Htext. destruct (Name s); [congruence|discriminate]. }
  pose proof (parseSensor_shape _ Hne) as Hshape.
  rewrite Heq in Hshape. destruct Hshape as [[_ [Hn _]]|Hsplit].
  - contradiction.
  - rewrite Htext in Hsplit. apply append_cancel in Hsplit. discriminate Hsplit.
Qed.

Lemma named_String_does_not_parse_back_witness :
  fst (parseSensor (Sensor_String kitchen)) <> kitchen.
Proof.
  assert (Hname : Name kitchen <> ""%string) by discriminate.
  exact (named_String_does_not_parse_back kitchen Hname).
Defined.

(** X4: when the tokens before the first empty token are not empty, the
    calls of [Set] fail at the empty token with its error, after the
    tokens before it have been appended in their order; the tokens after it
    are not looked at. *)
Theorem SetAll_stops_at_empty_token
  (l : SensorList) (before after : list string) :
  Forall (fun t => t <> ""%string) before ->
  SensorList_SetAll l (before ++ ""%string :: after)
  = (l ++ map (fun t => fst (parseSensor t)) before,
     Some "can not parse sensor: empty string"%string).
Proof.
  revert l. induction before as [|tok before IH]; intros l Hall.
  - cbn. now rewrite app_nil_r.
  - inversion Hall as [|? ? Htok Hrest]; subst.
    cbn [app SensorList_SetAll]. rewrite (Set_nonempty l tok Htok).
    rewrite (IH _ Hrest). cbn [map]. now rewrite <- app_assoc.
Qed.

Lemma SetAll_stops_at_empty_token_witness :
  SensorList_SetAll [] ["AA:BB"; ""; "kitchen=A=B"]%string
  = ([mkSensor "" "AA:BB" 0 0 0 0 0 0],
     Some "can not parse sensor: empty string"%string).
Proof.
  assert (Hall : Forall (fun t => t <> ""%string) ["AA:BB"%string])
    by (repeat constructor; discriminate).
  exact (SetAll_stops_at_empty_token [] ["AA:BB"%string] ["kitchen=A=B"%string]
           Hall).
Defined.

(** The text of a sensor list is empty exactly when the list is
    empty; the text of a list that is not empty is the texts of its
    sensors, separated by blanks, between brackets. *)
Theorem SensorList_String_empty_iff (l : SensorList) :
  (SensorList_String l = ""%string <-> l = [])
  /\ (forall s rest,
         SensorList_String (s :: rest)
         = ("[" ++ String.concat " " (map Sensor_String (s :: rest)) ++ "]")%string).
Proof.
  unfold SensorList_String, fmt_Sprintf_strings. split.
  - destruct l as [|s l]; cbn [List.length Nat.eqb].
    + tauto.
    + split; discriminate.
  - reflexivity.
Qed.

(** X5: the text of a log level is accepted by [Set] and gives the level
    back, whatever the level was before. *)
Theorem LogLevel_String_Set_round_trip (l before : Level) :
  LogLevel_Set before (LogLevel_String l) = (l, None).
Proof. destruct l; reflexivity. Qed.

(* ================================================================== *)
(** ** Further properties of [readSensorsFromDir] and [UnmarshalJSON] *)

(** One turn of the loop, counted: a record file gives one descriptor or
    one skip line, any entry one line naming it, a record file one line
    naming its opening. *)
Lemma readEntry_accounts (env : Env) (dirPath : string)
  (sensors : list Sensor) (log : list LogEntry) (entry : DirEntry) :
  exists sensors' lines,
    readEntry env dirPath (sensors, log) entry = (sensors', log ++ lines)
    /\ (List.length sensors' + count isSkip lines
        = List.length sensors + (if isRecordFile entry then 1 else 0))%nat
    /\ count isEntryLine lines = 1%nat
    /\ count isOpeningLine lines = (if isRecordFile entry then 1 else 0)%nat.
Proof.
  unfold readEntry, isRecordFile.
  destruct (negb (entry_IsDir entry)
            && Strings.HasSuffix (entry_Name entry) ".json").
  - destruct (os_ReadFile env (filepath_Join env dirPath (entry_Name entry)))
      as [fileBytes [err|]].
    + eexists _, _. rewrite <- !app_assoc. split; [reflexivity|].
      cbn. repeat split; lia.
    + destruct (Sensor_UnmarshalJSON Sensor_zero fileBytes) as [sensor [err|]].
      * eexists _, _. rewrite <- !app_assoc. split; [reflexivity|].
        cbn. repeat split; lia.
      * eexists _, _. rewrite <- !app_assoc. split; [reflexivity|].
        rewrite length_app. cbn. repeat split; lia.
  - eexists _, _. split; [reflexivity|]. cbn. repeat split; lia.
Qed.

Lemma readEntries_accounts (env : Env) (dirPath : string)
  (entries : list DirEntry) :
  forall (sensors : list Sensor) (log : list LogEntry),
  exists sensors' lines,
    fold_left (readEntry env dirPath) entries (sensors, log)
    = (sensors', log ++ lines)
    /\ (List.length sensors' + count isSkip lines
        = List.length sensors + count isRecordFile entries)%nat
    /\ count isEntryLine lines = List.length entries
    /\ count isOpeningLine lines = count isRecordFile entries.
Proof.
  induction entries as [|entry entries IH]; intros sensors log.
  - exists sensors, []. rewrite app_nil_r. cbn. repeat split; lia.
  - destruct (readEntry_accounts env dirPath sensors log entry)
      as [s1 [l1 [Hstep [Hn1 [He1 Ho1]]]]].
    destruct (IH s1 (log ++ l1)) as [s2 [l2 [Hrest [Hn2 [He2 Ho2]]]]].
    exists s2, (l1 ++ l2). cbn [fold_left]. rewrite Hstep, Hrest.
    rewrite <- app_assoc. split; [reflexivity|].
    rewrite !count_app, count_cons. cbn [List.length].
    repeat split; lia.
Qed.

(** X6: when the directory is listed, every record file is accounted for:
    the descriptors returned and the skips logged are together as many as
    the record files of the listing, so the descriptors are at most as many
    as the entries; the log names every entry once and every record file
    once more when it is opened. *)
Theorem readSensorsFromDir_accounts_for_entries
  (env : Env) (dirPath : string) (entries : list DirEntry) :
  os_ReadDir env dirPath = (entries, None) ->
  exists sensors lines,
    readSensorsFromDir env dirPath = ((sensors, None), lines)
    /\ (List.length sensors + count isSkip lines
        = count isRecordFile entries)%nat
    /\ (List.length sensors <= List.length entries)%nat
    /\ count isEntryLine lines = List.length entries
    /\ count isOpeningLine lines = count isRecordFile entries.
Proof.
  intros Hlist. unfold readSensorsFromDir. rewrite Hlist.
  destruct (readEntries_accounts env dirPath entries [] [])
    as [sensors [lines [Hloop [Hn [He Ho]]]]].
  rewrite Hloop. exists sensors, lines. cbn [List.length app] in *.
  split; [reflexivity|]. split; [lia|]. split; [|split; assumption].
  assert (Hle : (count isRecordFile entries <= List.length entries)%nat)
    by (unfold count; apply filter_length_le).
  lia.
Qed.

Lemma readSensorsFromDir_accounts_for_entries_witness :
  let env := exampleEnv []
               [("kitchen.json", record_kitchen); ("broken.json", record_malformed);
                ("notes.txt", record_kitchen)]%string in
  exists sensors lines,
    readSensorsFromDir env defaultDir = ((sensors, None), lines)
    /\ (List.length sensors + count isSkip lines = 2)%nat
    /\ (List.length sensors <= 3)%nat
    /\ count isEntryLine lines = 3%nat
    /\ count isOpeningLine lines = 2%nat.
Proof.
  intros env.
  exact (readSensorsFromDir_accounts_for_entries env defaultDir
           [mkDirEntry "kitchen.json" false; mkDirEntry "broken.json" false;
            mkDirEntry "notes.txt" false]
           eq_refl).
Defined.

Lemma fold_readEntry_ext (env env' : Env) (dirPath : string)
  (entries : list DirEntry) :
  (forall entry, In entry entries -> isRecordFile entry = true ->
     os_ReadFile env (filepath_Join env dirPath (entry_Name entry))
     = os_ReadFile env' (filepath_Join env' dirPath (entry_Name entry))
     /\ filepath_Join env dirPath (entry_Name entry)
        = filepath_Join env' dirPath (entry_Name entry)) ->
  forall acc,
    fold_left (readEntry env dirPath) entries acc
    = fold_left (readEntry env' dirPath) entries acc.
Proof.
  induction entries as [|entry entries IH]; intros Hsame acc; [reflexivity|].
  cbn [fold_left].
  assert (Hstep : readEntry env dirPath acc entry
                  = readEntry env' dirPath acc entry).
  { unfold readEntry. destruct acc as [sensors log].
    pose proof (Hsame entry (or_introl eq_refl)) as Hentry.
    unfold isRecordFile in Hentry.
    destruct (negb (entry_IsDir entry)
              && Strings.HasSuffix (entry_Name entry) ".json");
      [|reflexivity].
    destruct (Hentry eq_refl) as [Hread Hjoin]. now rewrite Hread, Hjoin. }
  rewrite Hstep. apply IH. intros e Hin. apply Hsame. now right.
Qed.

(** X7: the call depends on the listing and on the record files only: two
    environments with the same listing, in which every record file of the
    listing has the same path and the same content or read error, give the
    same descriptors, error and log, whatever reading any other path, or an
    entry that is a directory or not named [*.json], would give. *)
Theorem readSensorsFromDir_reads_record_files_only
  (env env' : Env) (dirPath : string) :
  os_ReadDir env dirPath = os_ReadDir env' dirPath ->
  (forall entry,
      In entry (fst (os_ReadDir env dirPath)) -> isRecordFile entry = true ->
      os_ReadFile env (filepath_Join env dirPath (entry_Name entry))
      = os_ReadFile env' (filepath_Join env' dirPath (entry_Name entry))
      /\ filepath_Join env dirPath (entry_Name entry)
         = filepath_Join env' dirPath (entry_Name entry)) ->
  readSensorsFromDir env dirPath = readSensorsFromDir env' dirPath.
Proof.
  intros Hlist Hfiles. unfold readSensorsFromDir. rewrite <- Hlist.
  destruct (os_ReadDir env dirPath) as [entries [err|]]; [reflexivity|].
  cbn [fst] in Hfiles.
  now rewrite (fold_readEntry_ext env env' dirPath entries Hfiles).
Qed.

Lemma readSensorsFromDir_reads_record_files_only_witness :
  let files := [("k.json", record_kitchen); ("notes.txt", record_kitchen)]%string in
  let env := exampleEnv [] files in
  let env' := mkEnv [] (exampleReadDir files)
                (fun filePath =>
                   if String.eqb filePath "internal/config/sensorData/k.json"
                   then (record_kitchen, None)
                   else (record_malformed, None))
                exampleJoin (fun _ => None) (fun _ => None) in
  readSensorsFromDir env defaultDir = readSensorsFromDir env' defaultDir.
Proof.
  intros files env env'.
  apply (readSensorsFromDir_reads_record_files_only env env' defaultDir eq_refl).
  intros entry Hin Hrec. cbn in Hin.
  destruct Hin as [<-|[<-|[]]]; [split; reflexivity|discriminate Hrec].
Defined.

(** X8: [UnmarshalJSON] fills the sensor all at once: when it returns an
    error the sensor is as it was before the call, and when it returns no
    error the sensor it leaves does not depend on what the sensor held
    before. *)
Theorem UnmarshalJSON_all_or_nothing (s : Sensor) (data : string) :
  match snd (Sensor_UnmarshalJSON s data) with
  | Some _ => fst (Sensor_UnmarshalJSON s data) = s
  | None =>
      forall s' : Sensor, Sensor_UnmarshalJSON s' data = Sensor_UnmarshalJSON s data
  end.
Proof.
  unfold Sensor_UnmarshalJSON.
  destruct (Json.Unmarshal data Json.raw_zero) as [r [err|]]; cbn [fst snd];
    reflexivity.
Qed.

(* ------------------------------------------------------------------ *)
(** *** Blanks around a record *)

Lemma steps_app (st : Json.state) (a b : string) :
  Json.steps st (a ++ b)
  = match Json.steps st a with
    | Some st' => Json.steps st' b
    | None => None
    end.
Proof.
  revert st. induction a as [|c a IH]; intros st; cbn [append Json.steps].
  - reflexivity.
  - destruct (Json.step st c); [apply IH|reflexivity].
Qed.

Lemma code_chr_inj (c : ascii) (n : Z) :
  Json.code c = n -> c = Json.chr n.
Proof.
  intros <-. unfold Json.chr, Json.code.
  now rewrite N2Z.id, ascii_N_embedding.
Qed.

(** The four blanks. *)
Lemma isSpace_cases (c : ascii) :
  Json.isSpace c = true ->
  c = " "%char \/ c = Json.chr 9 \/ c = Json.chr 13 \/ c = Json.chr 10.
Proof.
  unfold Json.isSpace. intros H.
  apply orb_true_iff in H. destruct H as [H|H].
  - apply orb_true_iff in H. destruct H as [H|H].
    + apply orb_true_iff in H. destruct H as [H|H].
      * left. now apply Ascii.eqb_eq.
      * right; left. apply code_chr_inj. now apply Z.eqb_eq.
    + right; right; left. apply code_chr_inj. now apply Z.eqb_eq.
  - right; right; right. apply code_chr_inj. now apply Z.eqb_eq.
Qed.

(** Blanks before a value are passed over. *)
Lemma steps_leading_blank (ws : string) (stk : list Json.frame) :
  blank ws = true ->
  Json.steps (Json.mkState Json.BeginValue stk) ws
  = Some (Json.mkState Json.BeginValue stk).
Proof.
  induction ws as [|c ws IH]; intros Hws; [reflexivity|].
  cbn [blank] in Hws. apply andb_true_iff in Hws. destruct Hws as [Hc Hws].
  cbn [Json.steps Json.step Json.st_mode Json.st_stack].
  unfold Json.beginValue. rewrite Hc. now apply IH.
Qed.

Lemma deliver_lit (v : Json.value) (stk : list Json.frame) (st : Json.state) :
  Json.deliver v stk = Some st -> litWithoutBlank st = true.
Proof.
  unfold Json.deliver. intros H.
  destruct stk as [|[items|members|members key] r].
  - now injection H as <-.
  - now injection H as <-.
  - destruct v; try discriminate H. now injection H as <-.
  - now injection H as <-.
Qed.

Lemma endValue_lit (st : Json.state) (c : ascii) (st' : Json.state) :
  litWithoutBlank st = true ->
  Json.endValue st c = Some st' -> litWithoutBlank st' = true.
Proof.
  unfold Json.endValue. intros Hst H.
  destruct (Json.isSpace c); [now injection H as <-|].
  destruct st as [m stk]. cbn [Json.st_mode Json.st_stack] in H.
  destruct m; try discriminate H.
  - destruct (Ascii.eqb c ":"); [now injection H as <-|discriminate H].
  - destruct stk as [|[items|members|members key] r]; try discriminate H.
    + destruct (Ascii.eqb c ","); [now injection H as <-|].
      destruct (Ascii.eqb c "]"); [|discriminate H].
      exact (deliver_lit _ _ _ H).
    + destruct (Ascii.eqb c ","); [now injection H as <-|].
      destruct (Ascii.eqb c "}"); [|discriminate H].
      exact (deliver_lit _ _ _ H).
Qed.

Lemma endNumber_lit (acc : list ascii) (stk : list Json.frame) (c : ascii)
  (st' : Json.state) :
  Json.endNumber acc stk c = Some st' -> litWithoutBlank st' = true.
Proof.
  unfold Json.endNumber. intros H.
  destruct (Json.deliver (Json.Number (Json.text acc)) stk) as [st|] eqn:Hd;
    [|discriminate H].
  exact (endValue_lit st c st' (deliver_lit _ _ _ Hd) H).
Qed.

Lemma beginValue_lit (stk : list Json.frame) (c : ascii) (st' : Json.state) :
  Json.beginValue stk c = Some st' -> litWithoutBlank st' = true.
Proof.
  unfold Json.beginValue, Json.push. intros H.
  repeat match type of H with
         | (if ?b then _ else _) = _ => destruct b
         end;
    try discriminate H; now injection H as <-.
Qed.

Lemma beginString_lit (stk : list Json.frame) (c : ascii) (st' : Json.state) :
  Json.beginString stk c = Some st' -> litWithoutBlank st' = true.
Proof.
  unfold Json.beginString. intros H.
  repeat match type of H with
         | (if ?b then _ else _) = _ => destruct b
         end;
    try discriminate H; now injection H as <-.
Qed.

(** The scanner never waits for a blank inside a literal. *)
Lemma step_lit (st : Json.state) (c : ascii) (st' : Json.state) :
  litWithoutBlank st = true ->
  Json.step st c = Some st' -> litWithoutBlank st' = true.
Proof.
  intros Hst H. destruct st as [m stk]. unfold Json.step in H.
  cbn [Json.st_mode Json.st_stack] in H.
  destruct m;
    try (repeat match type of H with
                | (if ?b then _ else _) = _ => destruct b
                end;
         first [ discriminate H
               | now injection H as <-
               | exact (endNumber_lit _ _ _ _ H)
               | exact (beginValue_lit _ _ _ H)
               | exact (beginString_lit _ _ _ H)
               | exact (deliver_lit _ _ _ H)
               | exact (endValue_lit _ _ _ Hst H) ]).
  - destruct (Json.isSpace c); [now injection H as <-|].
    destruct (Ascii.eqb c "]"); [|exact (beginValue_lit _ _ _ H)].
    destruct stk as [|[items|members|members key] r]; try discriminate H.
    exact (deliver_lit _ _ _ H).
  - destruct (Json.isSpace c); [now injection H as <-|].
    destruct (Ascii.eqb c "}"); [|exact (beginString_lit _ _ _ H)].
    destruct stk as [|[items|members|members key] r]; try discriminate H.
    exact (deliver_lit _ _ _ H).
  - destruct (Json.isHex c); [|discriminate H].
    destruct more as [|[|n]]; now injection H as <-.
  - destruct rest as [|d [|d' rest']]; [discriminate H| |].
    + destruct (Ascii.eqb c d); [exact (deliver_lit _ _ _ H)|discriminate H].
    + destruct (Ascii.eqb c d); [|discriminate H]. injection H as <-.
      cbn in Hst |- *. apply andb_true_iff in Hst. tauto.
Qed.

Lemma steps_lit (data : string) :
  forall st st',
    litWithoutBlank st = true ->
    Json.steps st data = Some st' -> litWithoutBlank st' = true.
Proof.
  induction data as [|c data IH]; intros st st' Hst H; cbn [Json.steps] in H.
  - now injection H as <-.
  - destruct (Json.step st c) as [st1|] eqn:Hstep; [|discriminate H].
    exact (IH st1 st' (step_lit st c st1 Hst Hstep) H).
Qed.

Lemma blank_differs (c d : ascii) :
  Json.isSpace c = true -> Json.isSpace d = false -> Ascii.eqb c d = false.
Proof.
  intros Hc Hd. destruct (Ascii.eqb_spec c d) as [->|]; [congruence|reflexivity].
Qed.

(** One blank before the end of the input changes nothing. *)
Lemma finish_after_blank (st : Json.state) (c : ascii) :
  litWithoutBlank st = true -> Json.isSpace c = true ->
  match Json.step st c with
  | Some st' => finish st'
  | None => None
  end = finish st.
Proof.
  intros Hst Hc. destruct st as [m stk].
  destruct m.
  all: try (destruct (isSpace_cases c Hc) as [-> | [-> | [-> | ->]]];
            destruct stk as [|[items|members|members key] r]; reflexivity).
  (* a literal being read *)
  unfold finish, Json.step. cbn [Json.st_mode Json.st_stack].
  cbn in Hst.
  destruct rest as [|d [|d' rest']]; [reflexivity| |].
  - cbn in Hst. apply andb_true_iff in Hst. destruct Hst as [Hd _].
    apply negb_true_iff in Hd.
    rewrite (blank_differs c d Hc Hd), (blank_differs " " d eq_refl Hd).
    reflexivity.
  - cbn in Hst. apply andb_true_iff in Hst. destruct Hst as [Hd _].
    apply negb_true_iff in Hd.
    rewrite (blank_differs c d Hc Hd), (blank_differs " " d eq_refl Hd).
    reflexivity.
Qed.

Lemma finish_after_blanks (ws : string) :
  forall st,
    litWithoutBlank st = true -> blank ws = true ->
    match Json.steps st ws with
    | Some st' => finish st'
    | None => None
    end = finish st.
Proof.
  induction ws as [|c ws IH]; intros st Hst Hws; [reflexivity|].
  cbn [blank] in Hws. apply andb_true_iff in Hws. destruct Hws as [Hc Hws].
  cbn [Json.steps]. rewrite <- (finish_after_blank st c Hst Hc).
  destruct (Json.step st c) as [st1|] eqn:Hstep; [|reflexivity].
  exact (IH st1 (step_lit st c st1 Hst Hstep) Hws).
Qed.

Lemma scan_finish (data : string) :
  Json.scan data
  = match Json.steps (Json.mkState Json.BeginValue []) data with
    | Some st => finish st
    | None => None
    end.
Proof. reflexivity. Qed.

(** Blanks around the content do not change the value the scanner reads. *)
Lemma scan_surrounding_blanks (before data after : string) :
  blank before = true -> blank after = true ->
  Json.scan (before ++ data ++ after) = Json.scan data.
Proof.
  intros Hbefore Hafter.
  rewrite !scan_finish, steps_app, (steps_leading_blank before [] Hbefore).
  rewrite steps_app.
  destruct (Json.steps (Json.mkState Json.BeginValue []) data) as [st|] eqn:Hd;
    [|reflexivity].
  apply finish_after_blanks; [|exact Hafter].
  exact (steps_lit data (Json.mkState Json.BeginValue []) st eq_refl Hd).
Qed.

(** X9: blanks (spaces, tabs, carriage returns, line feeds) before and
    after the content of a record change neither whether the record is
    decoded nor the descriptor it is decoded to: with and without them
    [UnmarshalJSON] leaves the same sensor, and returns no error in the one
    case exactly when it returns none in the other.  (Which syntax error a
    refused record is refused with is not compared.) *)
Theorem UnmarshalJSON_ignores_surrounding_blanks
  (s : Sensor) (before data after : string) :
  blank before = true -> blank after = true ->
  fst (Sensor_UnmarshalJSON s (before ++ data ++ after))
  = fst (Sensor_UnmarshalJSON s data)
  /\ (snd (Sensor_UnmarshalJSON s (before ++ data ++ after)) = None
      <-> snd (Sensor_UnmarshalJSON s data) = None).
Proof.
  intros Hbefore Hafter.
  unfold Sensor_UnmarshalJSON, Json.Unmarshal.
  rewrite (scan_surrounding_blanks before data after Hbefore Hafter).
  split; [reflexivity|tauto].
Qed.

Lemma UnmarshalJSON_ignores_surrounding_blanks_witness :
  fst (Sensor_UnmarshalJSON Sensor_zero
         ("  " ++ record_kitchen ++ String (Json.chr 10) "")%string)
  = fst (Sensor_UnmarshalJSON Sensor_zero record_kitchen)
  /\ (snd (Sensor_UnmarshalJSON Sensor_zero
              ("  " ++ record_kitchen ++ String (Json.chr 10) "")%string) = None
      <-> snd (Sensor_UnmarshalJSON Sensor_zero record_kitchen) = None).
Proof.
  exact (UnmarshalJSON_ignores_surrounding_blanks Sensor_zero "  "
           record_kitchen (String (Json.chr 10) "") eq_refl eq_refl).
Defined.

(* ------------------------------------------------------------------ *)
(** *** A record written out and read back *)

Lemma code_chr (x : Z) : 0 <= x < 256 -> Json.code (Json.chr x) = x.
Proof.
  intros Hx. unfold Json.code, Json.chr.
  rewrite N_ascii_embedding by lia. lia.
Qed.

Lemma isDigit_chr (k : Z) : 0 <= k <= 9 -> Json.isDigit (Json.chr (48 + k)) = true.
Proof.
  intros Hk. unfold Json.isDigit. rewrite code_chr by lia.
  apply andb_true_iff. split; apply Z.leb_le; lia.
Qed.

Lemma digitsValue_app (s1 s2 : string) :
  forall a,
    Json.digitsValue a (s1 ++ s2)
    = match Json.digitsValue a s1 with
      | Some v => Json.digitsValue v s2
      | None => None
      end.
Proof.
  induction s1 as [|c s1 IH]; intros a; cbn [append Json.digitsValue].
  - reflexivity.
  - destruct (Json.isDigit c); [apply IH|reflexivity].
Qed.

Lemma allDigits_app (s1 s2 : string) :
  allDigits (s1 ++ s2) = allDigits s1 && allDigits s2.
Proof.
  induction s1 as [|c s1 IH]; cbn [append allDigits]; [reflexivity|].
  now rewrite IH, andb_assoc.
Qed.

Lemma append_assoc (a b c : string) : ((a ++ b) ++ c = a ++ (b ++ c))%string.
Proof. induction a as [|x a IH]; cbn; [reflexivity|now rewrite IH]. Qed.

Lemma length_append (a b : string) :
  String.length (a ++ b) = (String.length a + String.length b)%nat.
Proof. induction a as [|x a IH]; cbn; [reflexivity|now rewrite IH]. Qed.

(** The digits of a number: a first digit, which is zero only for zero,
    then digits; read back, they give the number. *)
Lemma digits_spec (fuel : nat) :
  forall (n : Z) (acc : string),
    0 <= n < 10 ^ Z.of_nat fuel -> (0 < fuel)%nat ->
    exists d ds,
      digits fuel n acc = String d (ds ++ acc)
      /\ Json.isDigit d = true
      /\ allDigits ds = true
      /\ (0 < n -> Ascii.eqb d "0" = false)
      /\ (n = 0 -> d = "0"%char /\ ds = ""%string)
      /\ forall a,
           Json.digitsValue a (String d ds)
           = Some (a * 10 ^ Z.of_nat (S (String.length ds)) + n).
Proof.
  induction fuel as [|fuel IH]; intros n acc Hn Hfuel; [lia|].
  cbn [digits].
  assert (Hmod : 0 <= n mod 10 <= 9) by (pose proof (Z.mod_pos_bound n 10); lia).
  destruct (Z.eqb_spec (n / 10) 0) as [Hq|Hq].
  - assert (Hsmall : n mod 10 = n).
    { pose proof (Z.div_mod n 10). lia. }
    exists (Json.chr (48 + n mod 10)), ""%string. cbn [append String.length].
    split; [reflexivity|]. split; [now apply isDigit_chr|].
    split; [reflexivity|]. split; [|split].
    + intros Hpos. apply Ascii.eqb_neq. intros Heq.
      apply (f_equal Json.code) in Heq. rewrite code_chr in Heq by lia.
      change (Json.code "0"%char) with 48 in Heq. lia.
    + intros ->. split; reflexivity.
    + intros a. cbn [Json.digitsValue]. rewrite isDigit_chr by lia.
      rewrite code_chr by lia. f_equal. rewrite Hsmall.
      change (10 ^ Z.of_nat 1) with 10. lia.
  - assert (Hq' : 0 < n / 10) by (pose proof (Z.div_pos n 10); lia).
    assert (Hfuel' : (0 < fuel)%nat).
    { destruct fuel; [|lia]. cbn in Hn.
      assert (n / 10 = 0) by (apply Z.div_small; lia). lia. }
    assert (Hbound : 0 <= n / 10 < 10 ^ Z.of_nat fuel).
    { split; [lia|]. apply Z.div_lt_upper_bound; [lia|].
      rewrite Nat2Z.inj_succ, Z.pow_succ_r in Hn by lia. lia. }
    destruct (IH (n / 10) (String (Json.chr (48 + n mod 10)) acc) Hbound Hfuel')
      as [d [ds [Heq [Hd [Hds [Hnz [_ Hval]]]]]]].
    exists d, (ds ++ String (Json.chr (48 + n mod 10)) "")%string.
    split; [rewrite Heq, append_assoc; reflexivity|].
    split; [exact Hd|].
    split; [rewrite allDigits_app, Hds; cbn [allDigits andb];
            now rewrite isDigit_chr by lia|].
    split; [intros _; now apply Hnz|].
    split; [intros ->; cbn in Hq; congruence|].
    intros a.
    change (String d (ds ++ String (Json.chr (48 + n mod 10)) ""))%string
      with (String d ds ++ String (Json.chr (48 + n mod 10)) "")%string.
    rewrite digitsValue_app, Hval. cbn [Json.digitsValue].
    rewrite isDigit_chr by lia. rewrite code_chr by lia. f_equal.
    rewrite length_append. cbn [String.length].
    replace (Z.of_nat (S (String.length ds + 1)))
      with (Z.succ (Z.of_nat (S (String.length ds)))) by lia.
    rewrite Z.pow_succ_r by lia.
    pose proof (Z.div_mod n 10). lia.
Qed.

Lemma ParseInt_unsigned (d : ascii) (ds : string) :
  Json.isDigit d = true ->
  Json.ParseInt (String d ds)
  = match Json.digitsValue 0 (String d ds) with
    | Some n => if (- 2 ^ 63 <=? n) && (n <=? 2 ^ 63 - 1) then Some n else None
    | None => None
    end.
Proof.
  intros Hd. destruct d as [[] [] [] [] [] [] [] []];
    try discriminate Hd; reflexivity.
Qed.

Lemma pow10_20 : 2 ^ 63 < 10 ^ Z.of_nat 20.
Proof. vm_compute. reflexivity. Qed.

(** [strconv.ParseInt] reads the decimal text of an [int64] back. *)
Lemma ParseInt_decimal (z : Z) :
  int64_range z -> Json.ParseInt (decimal z) = Some z.
Proof.
  unfold int64_range, decimal. intros Hz. pose proof pow10_20 as Hpow.
  assert (Hin : (- 2 ^ 63 <=? z) && (z <=? 2 ^ 63 - 1) = true).
  { apply andb_true_iff. split; apply Z.leb_le; lia. }
  destruct (Z.ltb_spec z 0) as [Hneg|Hpos].
  - destruct (digits_spec 20 (- z) "" ltac:(lia) ltac:(lia))
      as [d [ds [Heq [Hd [_ [_ [_ Hval]]]]]]].
    rewrite Heq, append_nil_r. unfold Json.ParseInt.
    rewrite (Hval 0). cbn [option_map].
    replace (- (0 * 10 ^ Z.of_nat (S (String.length ds)) + - z)) with z by lia.
    now rewrite Hin.
  - destruct (digits_spec 20 z "" ltac:(lia) ltac:(lia))
      as [d [ds [Heq [Hd [_ [_ [_ Hval]]]]]]].
    rewrite Heq, append_nil_r, (ParseInt_unsigned d ds Hd), (Hval 0).
    replace (0 * 10 ^ Z.of_nat (S (String.length ds)) + z) with z by lia.
    now rewrite Hin.
Qed.

Lemma text_rev_app (s : string) (acc : list ascii) :
  Json.text (rev (list_ascii_of_string s) ++ acc) = (Json.text acc ++ s)%string.
Proof.
  unfold Json.text. rewrite rev_app_distr, rev_involutive.
  generalize (rev acc) as l. intros l.
  induction l as [|x l IH]; cbn.
  - apply string_of_list_ascii_of_string.
  - now rewrite IH.
Qed.

Lemma steps_Int1_digits (ds : string) :
  forall (acc : list ascii) (stk : list Json.frame),
    allDigits ds = true ->
    Json.steps (Json.mkState (Json.Int1 acc) stk) ds
    = Some (Json.mkState (Json.Int1 (rev (list_ascii_of_string ds) ++ acc)) stk).
Proof.
  induction ds as [|c ds IH]; intros acc stk Hds; [reflexivity|].
  cbn [allDigits] in Hds. apply andb_true_iff in Hds. destruct Hds as [Hc Hds].
  cbn [Json.steps Json.step Json.st_mode Json.st_stack]. rewrite Hc.
  rewrite (IH _ _ Hds). cbn [list_ascii_of_string rev].
  now rewrite <- app_assoc.
Qed.

Lemma beginValue_digit (d : ascii) (stk : list Json.frame) :
  Json.isDigit d = true -> Ascii.eqb d "0" = false ->
  Json.beginValue stk d = Some (Json.mkState (Json.Int1 [d]) stk).
Proof.
  intros Hd Hz. destruct d as [[] [] [] [] [] [] [] []];
    try discriminate Hd; try discriminate Hz; reflexivity.
Qed.

(** The scanner reads the decimal text of a number up to the comma or
    brace that follows it, and hands the number over with that text. *)
Lemma steps_decimal (z : Z) (stk : list Json.frame) (c : ascii) (rest : string) :
  int64_range z -> endsMember c ->
  Json.steps (Json.mkState Json.BeginValue stk) (decimal z ++ String c rest)
  = match Json.deliver (Json.Number (decimal z)) stk with
    | Some st =>
        match Json.endValue st c with
        | Some st' => Json.steps st' rest
        | None => None
        end
    | None => None
    end.
Proof.
  unfold int64_range. intros Hz Hc. pose proof pow10_20 as Hpow.
  assert (Hend : forall acc,
             Json.text acc = decimal z ->
             Json.steps (Json.mkState (Json.Int1 acc) stk) (String c rest)
             = match Json.deliver (Json.Number (decimal z)) stk with
               | Some st =>
                   match Json.endValue st c with
                   | Some st' => Json.steps st' rest
                   | None => None
                   end
               | None => None
               end).
  { intros acc Hacc. cbn [Json.steps Json.step Json.st_mode Json.st_stack].
    unfold Json.endNumber. rewrite Hacc.
    destruct Hc as [-> | ->]; cbn [Json.isDigit Json.isExpChar];
      (destruct (Json.deliver (Json.Number (decimal z)) stk) as [st|];
       [destruct (Json.endValue st _); reflexivity|reflexivity]). }
  destruct (Z.ltb_spec z 0) as [Hneg|Hpos].
  - destruct (digits_spec 20 (- z) "" ltac:(lia) ltac:(lia))
      as [d [ds [Heq [Hd [Hds [Hnz _]]]]]].
    assert (Hdec : decimal z = String "-"%char (String d ds)).
    { unfold decimal. destruct (Z.ltb_spec z 0); [|lia].
      now rewrite Heq, append_nil_r. }
    rewrite Hdec at 1. cbn [append Json.steps].
    change (Json.step (Json.mkState Json.BeginValue stk) "-")
      with (Some (Json.mkState (Json.Neg ["-"%char]) stk)).
    cbn [Json.step Json.st_mode Json.st_stack].
    rewrite (Hnz ltac:(lia)), Hd.
    rewrite steps_app, (steps_Int1_digits ds _ _ Hds).
    apply Hend. rewrite text_rev_app, Hdec. reflexivity.
  - destruct (Z.eqb_spec z 0) as [->|Hz0].
    + change (decimal 0) with "0"%string at 1. cbn [append Json.steps].
      change (Json.step (Json.mkState Json.BeginValue stk) "0")
        with (Some (Json.mkState (Json.Zero ["0"%char]) stk)).
      cbn [Json.step Json.st_mode Json.st_stack]. unfold Json.endNumber.
      change (Json.text ["0"%char]) with (decimal 0).
      destruct Hc as [-> | ->]; cbn [Json.isExpChar];
        (destruct (Json.deliver (Json.Number (decimal 0)) stk) as [st|];
         [destruct (Json.endValue st _); reflexivity|reflexivity]).
    + destruct (digits_spec 20 z "" ltac:(lia) ltac:(lia))
        as [d [ds [Heq [Hd [Hds [Hnz _]]]]]].
      assert (Hdec : decimal z = String d ds).
      { unfold decimal. destruct (Z.ltb_spec z 0); [lia|].
        now rewrite Heq, append_nil_r. }
      rewrite Hdec at 1. cbn [append Json.steps].
      cbn [Json.step Json.st_mode Json.st_stack].
      rewrite (beginValue_digit d stk Hd (Hnz ltac:(lia))).
      rewrite steps_app, (steps_Int1_digits ds _ _ Hds).
      apply Hend. rewrite text_rev_app, Hdec. reflexivity.
Qed.

Lemma plainByte_facts (c : ascii) :
  plainByte c = true ->
  (Json.code c =? 34) = false /\ Ascii.eqb c "\" = false
  /\ (Json.code c <? 32) = false /\ (Json.code c <? 128) = true.
Proof.
  unfold plainByte. intros H.
  apply andb_true_iff in H. destruct H as [H H92].
  apply andb_true_iff in H. destruct H as [H H34].
  apply andb_true_iff in H. destruct H as [H32 H128].
  apply negb_true_iff in H92, H34.
  split; [exact H34|]. split; [|split; [|exact H128]].
  - destruct (Ascii.eqb_spec c "\"%char) as [->|]; [discriminate H92|reflexivity].
  - apply Z.ltb_ge. now apply Z.leb_le.
Qed.

Lemma steps_InString_plain (s : string) :
  forall (acc : list ascii) (stk : list Json.frame),
    plain s = true ->
    Json.steps (Json.mkState (Json.InString acc) stk) s
    = Some (Json.mkState
              (Json.InString (rev (list_ascii_of_string s) ++ acc)) stk).
Proof.
  induction s as [|c s IH]; intros acc stk Hs; [reflexivity|].
  cbn [plain] in Hs. apply andb_true_iff in Hs. destruct Hs as [Hc Hs].
  destruct (plainByte_facts c Hc) as [H34 [H92 [H32 _]]].
  cbn [Json.steps Json.step Json.st_mode Json.st_stack].
  rewrite H34, H92, H32, (IH _ _ Hs). cbn [list_ascii_of_string rev].
  now rewrite <- app_assoc.
Qed.

(** A plain text has no escape to replace. *)
Lemma unquote_plain (s : string) : plain s = true -> Json.unquote s = s.
Proof.
  induction s as [|c s IH]; intros Hs; [reflexivity|].
  cbn [plain] in Hs. apply andb_true_iff in Hs. destruct Hs as [Hc Hs].
  destruct (plainByte_facts c Hc) as [_ [H92 [_ H128]]].
  cbn [Json.unquote]. rewrite H92, H128. now rewrite (IH Hs).
Qed.

(** A plain text between double quotes, read from inside the quotes. *)
Lemma steps_string_body (s rest : string) (stk : list Json.frame) :
  plain s = true ->
  Json.steps (Json.mkState (Json.InString []) stk) (s ++ dquote ++ rest)
  = match Json.deliver (Json.Str s) stk with
    | Some st => Json.steps st rest
    | None => None
    end.
Proof.
  intros Hs. rewrite steps_app, (steps_InString_plain s [] stk Hs).
  cbn [dquote append Json.steps Json.step Json.st_mode Json.st_stack].
  change (Json.code (Json.chr 34) =? 34) with true. cbv iota.
  rewrite text_rev_app. cbn [Json.text rev string_of_list_ascii append].
  rewrite (unquote_plain s Hs).
  destruct (Json.deliver (Json.Str s) stk); reflexivity.
Qed.

Lemma quoted_unfold (s rest : string) :
  (quoted s ++ rest = String (Json.chr 34) (s ++ dquote ++ rest))%string.
Proof.
  unfold quoted. cbn [dquote append]. f_equal. now rewrite append_assoc.
Qed.

(** A member with a text as value, read where a key may start: the member
    is added to the object being read. *)
Lemma steps_text_member (key val rest : string)
  (members : list (string * Json.value)) (r : list Json.frame) (m : Json.mode) :
  m = Json.BeginString \/ m = Json.BeginStringOrEmpty ->
  plain key = true -> plain val = true ->
  Json.steps (Json.mkState m (Json.FObj members :: r))
    (quoted key ++ ":" ++ quoted val ++ rest)
  = Json.steps
      (Json.mkState Json.EndValue
         (Json.FObj ((key, Json.Str val) :: members) :: r)) rest.
Proof.
  intros Hm Hkey Hval.
  rewrite quoted_unfold. cbn [Json.steps].
  assert (Hstart : Json.step (Json.mkState m (Json.FObj members :: r))
                     (Json.chr 34)
                   = Some (Json.mkState (Json.InString [])
                             (Json.FObj members :: r)))
    by (destruct Hm as [-> | ->]; reflexivity).
  rewrite Hstart, (steps_string_body key _ _ Hkey).
  cbn [Json.deliver append Json.steps].
  change (Json.step (Json.mkState Json.AfterKey (Json.FVal members key :: r)) ":")
    with (Some (Json.mkState Json.BeginValue (Json.FVal members key :: r))).
  cbv iota. rewrite quoted_unfold. cbn [Json.steps].
  change (Json.step (Json.mkState Json.BeginValue (Json.FVal members key :: r))
            (Json.chr 34))
    with (Some (Json.mkState (Json.InString []) (Json.FVal members key :: r))).
  cbv iota. now rewrite (steps_string_body val _ _ Hval).
Qed.

(** A member with a number as value, up to the byte that ends it. *)
Lemma steps_number_member (key : string) (z : Z) (c : ascii) (rest : string)
  (members : list (string * Json.value)) (r : list Json.frame) (m : Json.mode) :
  m = Json.BeginString \/ m = Json.BeginStringOrEmpty ->
  plain key = true -> int64_range z -> endsMember c ->
  Json.steps (Json.mkState m (Json.FObj members :: r))
    (quoted key ++ ":" ++ decimal z ++ String c rest)
  = match Json.endValue
            (Json.mkState Json.EndValue
               (Json.FObj ((key, Json.Number (decimal z)) :: members) :: r)) c
    with
    | Some st => Json.steps st rest
    | None => None
    end.
Proof.
  intros Hm Hkey Hz Hc.
  rewrite quoted_unfold. cbn [Json.steps].
  assert (Hstart : Json.step (Json.mkState m (Json.FObj members :: r))
                     (Json.chr 34)
                   = Some (Json.mkState (Json.InString [])
                             (Json.FObj members :: r)))
    by (destruct Hm as [-> | ->]; reflexivity).
  rewrite Hstart, (steps_string_body key _ _ Hkey).
  cbn [Json.deliver append Json.steps].
  change (Json.step (Json.mkState Json.AfterKey (Json.FVal members key :: r)) ":")
    with (Some (Json.mkState Json.BeginValue (Json.FVal members key :: r))).
  cbv iota. rewrite (steps_decimal z _ c rest Hz Hc).
  reflexivity.
Qed.

Lemma steps_number_member_comma (key : string) (z : Z) (rest : string)
  (members : list (string * Json.value)) (r : list Json.frame) (m : Json.mode) :
  m = Json.BeginString \/ m = Json.BeginStringOrEmpty ->
  plain key = true -> int64_range z ->
  Json.steps (Json.mkState m (Json.FObj members :: r))
    (quoted key ++ ":" ++ decimal z ++ "," ++ rest)
  = Json.steps
      (Json.mkState Json.BeginString
         (Json.FObj ((key, Json.Number (decimal z)) :: members) :: r)) rest.
Proof.
  intros Hm Hkey Hz.
  exact (steps_number_member key z "," rest members r m Hm Hkey Hz
           (or_introl eq_refl)).
Qed.

Lemma steps_number_member_close (key : string) (z : Z) (rest : string)
  (members : list (string * Json.value)) (r : list Json.frame) (m : Json.mode) :
  m = Json.BeginString \/ m = Json.BeginStringOrEmpty ->
  plain key = true -> int64_range z ->
  Json.steps (Json.mkState m (Json.FObj members :: r))
    (quoted key ++ ":" ++ decimal z ++ "}" ++ rest)
  = match Json.deliver
            (Json.Object (rev ((key, Json.Number (decimal z)) :: members))) r
    with
    | Some st => Json.steps st rest
    | None => None
    end.
Proof.
  intros Hm Hkey Hz.
  exact (steps_number_member key z "}" rest members r m Hm Hkey Hz
           (or_intror eq_refl)).
Qed.

Lemma steps_comma (rest : string) (members : list (string * Json.value))
  (r : list Json.frame) :
  Json.steps (Json.mkState Json.EndValue (Json.FObj members :: r)) ("," ++ rest)
  = Json.steps (Json.mkState Json.BeginString (Json.FObj members :: r)) rest.
Proof. reflexivity. Qed.

Lemma steps_close (rest : string) (members : list (string * Json.value))
  (r : list Json.frame) :
  Json.steps (Json.mkState Json.EndValue (Json.FObj members :: r)) ("}" ++ rest)
  = match Json.deliver (Json.Object (rev members)) r with
    | Some st => Json.steps st rest
    | None => None
    end.
Proof.
  cbn [append Json.steps Json.step Json.st_mode Json.st_stack Json.endValue].
  change (Json.isSpace "}") with false. cbv iota.
  change (Ascii.eqb "}" ",") with false. change (Ascii.eqb "}" "}") with true.
  cbv iota. reflexivity.
Qed.

(** A member whose value is an object, up to the opening brace. *)
Lemma steps_object_member (key rest : string)
  (members : list (string * Json.value)) :
  plain key = true ->
  Json.steps (Json.mkState Json.BeginString [Json.FObj members])
    (quoted key ++ ":{" ++ rest)
  = Json.steps
      (Json.mkState Json.BeginStringOrEmpty
         [Json.FObj []; Json.FVal members key]) rest.
Proof.
  intros Hkey. rewrite quoted_unfold. cbn [Json.steps].
  change (Json.step (Json.mkState Json.BeginString [Json.FObj members])
            (Json.chr 34))
    with (Some (Json.mkState (Json.InString []) [Json.FObj members])).
  cbv iota. rewrite (steps_string_body key _ _ Hkey). reflexivity.
Qed.

(** The scanner reads the text of a record as the object of its three
    members. *)
Lemma scan_recordText (s : Sensor) :
  plain (Name s) = true -> plain (MacAddress s) = true ->
  thresholdsInRange s ->
  Json.scan (recordText s)
  = Some (Json.Object
            [("name"%string, Json.Str (Name s));
             ("sensor"%string, Json.Str (MacAddress s));
             ("parameter"%string,
              Json.Object
                [("max_soil_moist"%string, Json.Number (decimal (MaxSoilMoist s)));
                 ("min_soil_moist"%string, Json.Number (decimal (MinSoilMoist s)));
                 ("max_soil_ec"%string, Json.Number (decimal (MaxSoilEc s)));
                 ("min_soil_ec"%string, Json.Number (decimal (MinSoilEc s)));
                 ("max_light_lux"%string, Json.Number (decimal (MaxLightLux s)));
                 ("min_light_lux"%string, Json.Number (decimal (MinLightLux s)))])]).
Proof.
  intros Hname Haddr [H1 [H2 [H3 [H4 [H5 H6]]]]].
  rewrite scan_finish. unfold recordText.
  change (Json.steps (Json.mkState Json.BeginValue []) ("{" ++ ?x))
    with (Json.steps (Json.mkState Json.BeginStringOrEmpty [Json.FObj []]) x).
  rewrite (steps_text_member "name" (Name s) _ [] [] Json.BeginStringOrEmpty
             (or_intror eq_refl) eq_refl Hname).
  rewrite steps_comma.
  rewrite (steps_text_member "sensor" (MacAddress s) _ _ [] Json.BeginString
             (or_introl eq_refl) eq_refl Haddr).
  rewrite steps_comma.
  rewrite (steps_object_member "parameter" _ _ eq_refl).
  rewrite (steps_number_member_comma "max_soil_moist" _ _ _ _
             Json.BeginStringOrEmpty (or_intror eq_refl) eq_refl H1).
  rewrite (steps_number_member_comma "min_soil_moist" _ _ _ _
             Json.BeginString (or_introl eq_refl) eq_refl H2).
  rewrite (steps_number_member_comma "max_soil_ec" _ _ _ _
             Json.BeginString (or_introl eq_refl) eq_refl H3).
  rewrite (steps_number_member_comma "min_soil_ec" _ _ _ _
             Json.BeginString (or_introl eq_refl) eq_refl H4).
  rewrite (steps_number_member_comma "max_light_lux" _ _ _ _
             Json.BeginString (or_introl eq_refl) eq_refl H5).
  change "}}"%string with ("}" ++ "}")%string.
  rewrite (steps_number_member_close "min_light_lux" _ _ _ _
             Json.BeginString (or_introl eq_refl) eq_refl H6).
  reflexivity.
Qed.

(** The text of a record, stored in the struct of [UnmarshalJSON]. *)
Lemma Unmarshal_recordText (s : Sensor) :
  plain (Name s) = true -> plain (MacAddress s) = true ->
  thresholdsInRange s ->
  Json.Unmarshal (recordText s) Json.raw_zero
  = (Json.mkRaw (Name s) (MacAddress s)
       (Json.mkRawParameter (MaxSoilMoist s) (MinSoilMoist s) (MaxSoilEc s)
          (MinSoilEc s) (MaxLightLux s) (MinLightLux s)), None).
Proof.
  intros Hname Haddr Hrange. unfold Json.Unmarshal.
  rewrite (scan_recordText s Hname Haddr Hrange).
  destruct Hrange as [H1 [H2 [H3 [H4 [H5 H6]]]]].
  destruct s as [n a t1 t2 t3 t4 t5 t6].
  cbn [Name MacAddress MaxSoilMoist MinSoilMoist MaxSoilEc MinSoilEc
       MaxLightLux MinLightLux] in *.
  cbv - [decimal Json.ParseInt].
  rewrite !ParseInt_decimal by assumption.
  reflexivity.
Qed.

(** X10: a record written in the format of the record files is read back
    as the descriptor it was written from: for every descriptor whose name
    and address are plain texts and whose thresholds are [int64] values,
    decoding the text of its record gives that descriptor and no error,
    whatever the sensor held before. *)
Theorem record_round_trip (s before : Sensor) :
  plain (Name s) = true -> plain (MacAddress s) = true ->
  thresholdsInRange s ->
  Sensor_UnmarshalJSON before (recordText s) = (s, None).
Proof.
  intros Hname Haddr Hrange.
  unfold Sensor_UnmarshalJSON.
  rewrite (Unmarshal_recordText s Hname Haddr Hrange).
  cbn [Json.r_Name Json.r_MacAddress Json.r_Parameter Json.p_MaxSoilMoist
       Json.p_MinSoilMoist Json.p_MaxSoilEc Json.p_MinSoilEc
       Json.p_MaxLightLux Json.p_MinLightLux].
  destruct s; reflexivity.
Qed.

Lemma record_round_trip_witness :
  Sensor_UnmarshalJSON Sensor_zero
    (recordText (mkSensor "kitchen" "AA:BB:CC:DD:EE:FF" 60 15 2000 (-350) 30000 0))
  = (mkSensor "kitchen" "AA:BB:CC:DD:EE:FF" 60 15 2000 (-350) 30000 0, None).
Proof.
  assert (Hrange : thresholdsInRange
                     (mkSensor "kitchen" "AA:BB:CC:DD:EE:FF" 60 15 2000 (-350)
                        30000 0))
    by (unfold thresholdsInRange, int64_range; cbn; lia).
  exact (record_round_trip
           (mkSensor "kitchen" "AA:BB:CC:DD:EE:FF" 60 15 2000 (-350) 30000 0)
           Sensor_zero eq_refl eq_refl Hrange).
Defined.

Lemma decoded_written (env : Env) (dirPath : string)
  (file : DirEntry * Sensor) :
  writtenFrom env dirPath file ->
  decoded env dirPath (fst file) = Some (snd file).
Proof.
  intros [Hrec [Hread [Hname [Haddr Hrange]]]].
  unfold decoded, Sensor_UnmarshalJSON.
  rewrite Hrec, Hread, (Unmarshal_recordText (snd file) Hname Haddr Hrange).
  cbn [Json.r_Name Json.r_MacAddress Json.r_Parameter Json.p_MaxSoilMoist
       Json.p_MinSoilMoist Json.p_MaxSoilEc Json.p_MinSoilEc
       Json.p_MaxLightLux Json.p_MinLightLux].
  destruct (snd file); reflexivity.
Qed.

Lemma decodedAll_written (env : Env) (dirPath : string)
  (files : list (DirEntry * Sensor)) :
  Forall (writtenFrom env dirPath) files ->
  decodedAll env dirPath (map fst files) = map snd files
  /\ count (badRecord env dirPath) (map fst files) = 0%nat.
Proof.
  induction files as [|file files IH]; intros Hall; [split; reflexivity|].
  inversion Hall as [|? ? Hfile Hrest]; subst.
  destruct (IH Hrest) as [Hsensors Hbad].
  pose proof (decoded_written env dirPath file Hfile) as Hdec.
  cbn [map decodedAll]. rewrite count_cons, Hdec, Hsensors, Hbad.
  unfold badRecord, goodRecord. rewrite Hdec.
  split; [reflexivity|]. now rewrite andb_false_r.
Qed.

(** X11: a directory whose entries are the record files written from a
    list of descriptors gives that list back, in the order of the listing,
    with no error and no skip. *)
Theorem directory_of_written_records
  (env : Env) (dirPath : string) (files : list (DirEntry * Sensor)) :
  os_ReadDir env dirPath = (map fst files, None) ->
  Forall (writtenFrom env dirPath) files ->
  fst (readSensorsFromDir env dirPath) = (map snd files, None)
  /\ count isSkip (snd (readSensorsFromDir env dirPath)) = 0%nat.
Proof.
  intros Hlist Hfiles.
  destruct (readSensorsFromDir_listed env dirPath _ Hlist)
    as [lines [Hrun Hskips]].
  destruct (decodedAll_written env dirPath files Hfiles) as [Hsensors Hbad].
  rewrite Hrun. cbn [fst snd]. rewrite Hsensors, Hskips, Hbad.
  split; reflexivity.
Qed.

Lemma directory_of_written_records_witness :
  let s1 := mkSensor "kitchen" "AA:BB:CC:DD:EE:FF" 60 15 0 0 0 0 in
  let s2 := mkSensor "" "11:22:33:44:55:66" 0 0 0 0 30000 (-1) in
  let env := exampleEnv []
               [("a.json", recordText s1); ("b.json", recordText s2)]%string in
  fst (readSensorsFromDir env defaultDir) = ([s1; s2], None)
  /\ count isSkip (snd (readSensorsFromDir env defaultDir)) = 0%nat.
Proof.
  intros s1 s2 env.
  assert (Hfiles : Forall (writtenFrom env defaultDir)
                     [(mkDirEntry "a.json" false, s1);
                      (mkDirEntry "b.json" false, s2)]).
  { repeat constructor; try reflexivity;
      unfold int64_range; cbn; lia. }
  exact (directory_of_written_records env defaultDir
           [(mkDirEntry "a.json" false, s1); (mkDirEntry "b.json" false, s2)]
           eq_refl Hfiles).
Defined.

(* ================================================================== *)
(** ** Further properties of [Parse] and its checks *)

Lemma enforced_none_iff_valid (c : Config) : enforced c = None <-> Valid c.
Proof.
  unfold enforced, Valid.
  destruct (Sensors c) as [|s0 sensors].
  - split; [discriminate|]. intros [H _]. congruence.
  - destruct (String.eqb_spec (Device c) "") as [Hd|Hd].
    + split; [discriminate|]. intros [_ [H _]]. congruence.
    + destruct (Z.ltb_spec (StaleDuration c) (wrap64 (2 * RefreshDuration c)))
        as [Hst|Hst].
      * split; [discriminate|]. intros [_ [_ [H _]]]. lia.
      * destruct (Z.ltb_spec (MinDuration (Retry c)) (30 * Second))
          as [Hmin|Hmin].
        -- split; [discriminate|]. intros [_ [_ [_ [H _]]]]. lia.
        -- destruct (Z.ltb_spec (MaxDuration (Retry c)) (MinDuration (Retry c)))
             as [Hmax|Hmax].
           ++ split; [discriminate|]. intros [_ [_ [_ [_ [H _]]]]]. lia.
           ++ destruct (PrimFloat.ltb (Factor (Retry c)) 1) eqn:Hf.
              ** split; [discriminate|]. intros [_ [_ [_ [_ [_ H]]]]].
                 discriminate H.
              ** split; [|reflexivity]. intros _.
                 repeat split; try assumption; discriminate.
Qed.

(** X12: [Parse] returns no error exactly when the configuration it
    returns satisfies every enforced invariant: it has a sensor and an
    adapter, its stale duration is at least the doubled refresh interval as
    [int64] arithmetic computes it, its retry minimum is at least thirty
    seconds and at most the retry maximum, and its retry factor is not
    below one. *)
Theorem Parse_accepts_iff_valid (env : Env) (c : Config)
  (err : option ParseError) (w : World) :
  run_Parse env = Ret (c, err) w -> (err = None <-> Valid c).
Proof.
  intros Hrun.
  destruct (Parse_sensors_from_default_directory env c err w Hrun)
    as [_ [He _]].
  rewrite He. apply enforced_none_iff_valid.
Qed.

Lemma Parse_accepts_iff_valid_witness :
  @None ParseError = None
  <-> Valid (with_sensors defaults
               [mkSensor "kitchen" "AA:BB:CC:DD:EE:FF" 60 15 0 0 0 0]).
Proof.
  assert (Hrun : run_Parse (exampleEnv [] [("k.json", record_kitchen)]%string)
                 = Ret (with_sensors defaults
                          [mkSensor "kitchen" "AA:BB:CC:DD:EE:FF" 60 15 0 0 0 0],
                        None)
                     (mkWorld
                        (with_sensors defaults
                           [mkSensor "kitchen" "AA:BB:CC:DD:EE:FF" 60 15 0 0 0 0])
                        registeredFlags
                        [Printf_sensordir defaultDir;
                         Infof_sensor_directory defaultDir;
                         Printf_Entry (mkDirEntry "k.json" false);
                         Printf_opening "k.json"]))
    by (vm_compute; reflexivity).
  exact (Parse_accepts_iff_valid _ _ _ _ Hrun).
Defined.

(** The checks read neither the log level, nor the listen address,
    nor the refresh timeout, nor the sensor directory: whatever these four
    hold, the error and the lines logged are the same. *)
Theorem checks_ignore_unchecked_fields (c : Config) (w : World)
  (level : Level) (addr : string) (timeout : Duration) (dir : string) :
  returnedError (checks (with_unchecked c level addr timeout dir) w)
  = returnedError (checks c w)
  /\ logged (final (checks (with_unchecked c level addr timeout dir) w))
     = logged (final (checks c w)).
Proof.
  rewrite !checks_spec. cbn [returnedError final logged]. split; reflexivity.
Qed.

(** X13: the refresh interval has no lower bound: a configuration
    otherwise valid passes the checks with a refresh interval of zero or a
    negative one (down to -2^62 ns) whenever its stale duration is not
    negative; only the warning is logged. *)
Theorem nonpositive_refresh_accepted (c : Config) (w : World) :
  Sensors c <> [] -> Device c <> ""%string ->
  - 2 ^ 62 <= RefreshDuration c <= 0 -> 0 <= StaleDuration c ->
  30 * Second <= MinDuration (Retry c) ->
  MinDuration (Retry c) <= MaxDuration (Retry c) ->
  PrimFloat.ltb (Factor (Retry c)) 1 = false ->
  checks c w
  = Ret (c, None)
      (mkWorld (result w) (CommandLine w)
         (logged w ++ [Warnf_Refresh_durations (RefreshDuration c)])).
Proof.
  intros Hs Hd Hr Hst Hmin Hmax Hf. rewrite checks_spec.
  assert (Hwrap : wrap64 (2 * RefreshDuration c) = 2 * RefreshDuration c)
    by (apply wrap64_in_range; unfold int64_range; lia).
  assert (Hvalid : Valid c).
  { unfold Valid. rewrite Hwrap. repeat split; try assumption; lia. }
  apply enforced_none_iff_valid in Hvalid. rewrite Hvalid.
  unfold advisory. destruct (Sensors c); [contradiction|].
  rewrite (Device_nonempty c Hd).
  assert (Hlt : (RefreshDuration c <? Minute) = true)
    by (apply Z.ltb_lt; unfold Minute, Second; lia).
  now rewrite Hlt.
Qed.

Lemma nonpositive_refresh_accepted_witness :
  checks (with_durations exampleConfig (- Minute) 0) emptyWorld
  = Ret (with_durations exampleConfig (- Minute) 0, None)
      (mkWorld Config_zero [] [Warnf_Refresh_durations (- Minute)]).
Proof.
  assert (Hs : Sensors (with_durations exampleConfig (- Minute) 0) <> [])
    by discriminate.
  assert (Hd : Device (with_durations exampleConfig (- Minute) 0) <> ""%string)
    by discriminate.
  assert (Hr : - 2 ^ 62 <= - Minute <= 0) by (vm_compute; split; discriminate).
  assert (Hst : 0 <= 0) by lia.
  assert (Hmin : 30 * Second <= 30 * Second) by lia.
  assert (Hmax : 30 * Second <= 30 * Minute) by (vm_compute; discriminate).
  exact (nonpositive_refresh_accepted
           (with_durations exampleConfig (- Minute) 0) emptyWorld
           Hs Hd Hr Hst Hmin Hmax eq_refl).
Defined.

(** X14: the defaults are valid: with no argument on the command line and
    at least one record that decodes in the default directory, [Parse]
    returns the defaults with the sensors of the directory and no error,
    and logs no warning. *)
Theorem Parse_defaults_pass (env : Env) (sensors : list Sensor)
  (lines : list LogEntry) :
  os_Args env = [] ->
  readSensorsFromDir env defaultDir = ((sensors, None), lines) ->
  sensors <> [] ->
  run_Parse env
  = Ret (with_sensors defaults sensors, None)
      (mkWorld (with_sensors defaults sensors) registeredFlags
         ([Printf_sensordir defaultDir; Infof_sensor_directory defaultDir]
            ++ lines)).
Proof.
  intros Hargs Hdir Hsensors.
  rewrite run_Parse_unfold, Hdir, Hargs. cbn [parseArgs ret].
  rewrite checks_spec. cbn [result CommandLine logged].
  unfold enforced, advisory. cbn [with_sensors defaults Sensors].
  destruct sensors as [|s0 sensors]; [contradiction|].
  cbn. now rewrite app_nil_r.
Qed.

Lemma Parse_defaults_pass_witness :
  run_Parse (exampleEnv [] [("k.json", record_kitchen)]%string)
  = Ret (with_sensors defaults
           [mkSensor "kitchen" "AA:BB:CC:DD:EE:FF" 60 15 0 0 0 0], None)
      (mkWorld
         (with_sensors defaults
            [mkSensor "kitchen" "AA:BB:CC:DD:EE:FF" 60 15 0 0 0 0])
         registeredFlags
         [Printf_sensordir defaultDir; Infof_sensor_directory defaultDir;
          Printf_Entry (mkDirEntry "k.json" false); Printf_opening "k.json"]).
Proof.
  assert (Hne : [mkSensor "kitchen" "AA:BB:CC:DD:EE:FF" 60 15 0 0 0 0] <> [])
    by discriminate.
  exact (Parse_defaults_pass (exampleEnv [] [("k.json", record_kitchen)]%string)
           [mkSensor "kitchen" "AA:BB:CC:DD:EE:FF" 60 15 0 0 0 0]
           [Printf_Entry (mkDirEntry "k.json" false); Printf_opening "k.json"]
           eq_refl eq_refl Hne).
Defined.

(** X15: when the default directory cannot be listed the run ends with
    the fatal log line before any flag is parsed, whatever the command line
    holds: no flag, not even a request for help or another directory,
    changes that. *)
Theorem Parse_unlistable_directory_is_fatal (env : Env)
  (entries : list DirEntry) (err : string) :
  os_ReadDir env defaultDir = (entries, Some err) ->
  run_Parse env
  = Exit ExitFatal
      (mkWorld defaults [mkFlag "sensordir" "z" T_SensorDir]
         [Printf_sensordir defaultDir; Infof_sensor_directory defaultDir;
          Fatalf_Error_reading_sensors err]).
Proof.
  intros Hlist. rewrite run_Parse_unfold.
  unfold readSensorsFromDir. rewrite Hlist. reflexivity.
Qed.

Lemma Parse_unlistable_directory_is_fatal_witness :
  run_Parse (mkEnv ["--sensordir=/data"; "--help"]%string
               (fun _ => ([], Some "no such file or directory"%string))
               (fun _ => (""%string, Some "no such file or directory"%string))
               exampleJoin (fun _ => None) (fun _ => None))
  = Exit ExitFatal
      (mkWorld defaults [mkFlag "sensordir" "z" T_SensorDir]
         [Printf_sensordir defaultDir; Infof_sensor_directory defaultDir;
          Fatalf_Error_reading_sensors "no such file or directory"]).
Proof.
  exact (Parse_unlistable_directory_is_fatal
           (mkEnv ["--sensordir=/data"; "--help"]%string
              (fun _ => ([], Some "no such file or directory"%string))
              (fun _ => (""%string, Some "no such file or directory"%string))
              exampleJoin (fun _ => None) (fun _ => None))
           [] "no such file or directory" eq_refl).
Defined.

(** X16: the flag for sensor tokens does not exist when the command line
    is parsed: when the default directory can be listed, a command line
    that starts with [-s], with or without a token attached, ends the run
    with the error of an unknown shorthand, and one that starts with
    [--sensor=...] with the error of an unknown flag. *)
Theorem Parse_rejects_sensor_flag (env : Env) (entries : list DirEntry)
  (tok : string) (rest : list string) :
  os_ReadDir env defaultDir = (entries, None) ->
  (os_Args env = ("-s" ++ tok)%string :: rest ->
   exitReason (run_Parse env)
   = Some (ExitFlags (UnknownShorthand "s" ("s" ++ tok))))
  /\ (os_Args env = ("--sensor=" ++ tok)%string :: rest ->
      exitReason (run_Parse env) = Some (ExitFlags (UnknownFlag "sensor"))).
Proof.
  intros Hlist.
  destruct (readSensorsFromDir_listed env defaultDir entries Hlist)
    as [lines [Hdir _]].
  split; intros Hargs; rewrite run_Parse_unfold, Hdir, Hargs.
  - reflexivity.
  - reflexivity.
Qed.

Lemma Parse_rejects_sensor_flag_witness :
  exitReason (run_Parse (exampleEnv ["-sAA:BB"; "--addr=:80"]%string []))
  = Some (ExitFlags (UnknownShorthand "s" "sAA:BB"))
  /\ exitReason (run_Parse (exampleEnv ["--sensor=AA:BB"]%string []))
     = Some (ExitFlags (UnknownFlag "sensor")).
Proof.
  split.
  - exact (proj1 (Parse_rejects_sensor_flag
                    (exampleEnv ["-sAA:BB"; "--addr=:80"]%string []) []
                    "AA:BB" ["--addr=:80"%string] eq_refl) eq_refl).
  - exact (proj2 (Parse_rejects_sensor_flag
                    (exampleEnv ["--sensor=AA:BB"]%string []) []
                    "AA:BB" [] eq_refl) eq_refl).
Defined.

(* ------------------------------------------------------------------ *)
(** *** The command line, argument after argument *)

(** A long flag that parses with nothing after it took no argument from
    the command line, and parses the same with anything after it. *)
Lemma parseLongArg_alone (env : Env) (s : string) (w w' : World) (b : bool) :
  parseLongArg env s None w = Ret b w' ->
  b = false /\ forall next, parseLongArg env s next w = Ret false w'.
Proof.
  unfold parseLongArg.
  destruct (Strings.drop 2 s) as [|c0 name]; [discriminate|].
  destruct (Ascii.eqb c0 "-" || Ascii.eqb c0 "="); [discriminate|].
  destruct (lookupLong (CommandLine w)
              (hd EmptyString (Strings.SplitN (String c0 name) "=" 2)))
    as [flag|].
  - destruct (Strings.SplitN (String c0 name) "=" 2) as [|x [|y [|z l]]];
      try discriminate.
    unfold bind, ret.
    destruct (Flag_Set env flag y w) as [u w1|why w1]; [|discriminate].
    intros H. injection H as <- <-. split; [reflexivity|].
    intros next. destruct next; reflexivity.
  - destruct (String.eqb _ "help"); discriminate.
Qed.

Lemma parseShortArg_alone (env : Env) (s : string) (w w' : World) (b : bool) :
  parseShortArg env s None w = Ret b w' ->
  b = false /\ forall next, parseShortArg env s next w = Ret false w'.
Proof.
  unfold parseShortArg.
  destruct (Strings.HasPrefix (Strings.drop 1 s) "test.").
  { intros H. injection H as <- <-. tauto. }
  destruct (Strings.drop 1 s) as [|c tail].
  { intros H. injection H as <- <-. tauto. }
  destruct (lookupShort (CommandLine w) c) as [flag|].
  - destruct tail as [|e [|v0 rest]]; [discriminate| |].
    + unfold bind, ret.
      destruct (Flag_Set env flag (String e "") w) as [u w1|why w1];
        [|discriminate].
      intros H. injection H as <- <-. split; [reflexivity|].
      intros next. destruct next; reflexivity.
    + destruct (Ascii.eqb e "="); unfold bind, ret.
      * destruct (Flag_Set env flag (String v0 rest) w) as [u w1|why w1];
          [|discriminate].
        intros H. injection H as <- <-. split; [reflexivity|].
        intros next. destruct next; reflexivity.
      * destruct (Flag_Set env flag (String e (String v0 rest)) w)
          as [u w1|why w1]; [|discriminate].
        intros H. injection H as <- <-. split; [reflexivity|].
        intros next. destruct next; reflexivity.
  - destruct (Ascii.eqb c "h"); discriminate.
Qed.

Lemma hd_error_app_cons (x : string) (l post : list string) :
  hd_error ((x :: l) ++ post) = hd_error (x :: l).
Proof. reflexivity. Qed.

(** Arguments that parse on their own, none of them two dashes alone,
    parse the same when more arguments follow, and leave those to be parsed
    next. *)
Lemma parseArgs_app (env : Env) (n : nat) :
  forall (pre post : list string) (w w1 : World),
    (List.length pre <= n)%nat ->
    ~ In "--"%string pre ->
    parseArgs env pre w = Ret tt w1 ->
    parseArgs env (pre ++ post) w = parseArgs env post w1.
Proof.
  induction n as [|n IH]; intros pre post w w1 Hlen Hdash Hpre.
  - destruct pre; [|cbn in Hlen; lia].
    cbn in Hpre. injection Hpre as <-. reflexivity.
  - destruct pre as [|s rest].
    { cbn in Hpre. injection Hpre as <-. reflexivity. }
    cbn [List.length] in Hlen.
    assert (Hrest : forall w0, parseArgs env rest w0 = Ret tt w1 ->
                               parseArgs env (rest ++ post) w0
                               = parseArgs env post w1).
    { intros w0 H0. apply IH; [lia| |exact H0].
      intros Hin. apply Hdash. now right. }
    assert (Hflag :
              forall (parse : option string -> M bool),
                (forall w' b, parse None w = Ret b w' ->
                              b = false /\ forall next, parse next w = Ret false w') ->
                bind (parse (hd_error rest))
                  (fun taken : bool =>
                     if taken
                     then match rest with
                          | _ :: rest' => parseArgs env rest'
                          | [] => ret tt
                          end
                     else parseArgs env rest) w = Ret tt w1 ->
                bind (parse (hd_error (rest ++ post)))
                  (fun taken : bool =>
                     if taken
                     then match rest ++ post with
                          | _ :: rest' => parseArgs env rest'
                          | [] => ret tt
                          end
                     else parseArgs env (rest ++ post)) w
                = parseArgs env post w1).
    { intros parse Halone Hrun. destruct rest as [|x rest'].
      - cbn [hd_error] in Hrun. unfold bind in Hrun.
        destruct (parse None w) as [b w2|why w2] eqn:Hp; [|discriminate].
        destruct (Halone w2 b eq_refl) as [-> Hany].
        cbn in Hrun. injection Hrun as ->.
        unfold bind. rewrite (Hany (hd_error ([] ++ post))). reflexivity.
      - rewrite hd_error_app_cons. unfold bind in *.
        destruct (parse (hd_error (x :: rest')) w) as [b w2|why w2];
          [|discriminate].
        destruct b.
        + cbn [app]. apply IH; [cbn [List.length] in Hlen; lia| |exact Hrun].
          intros Hin. apply Hdash. right. now right.
        + now apply Hrest. }
    cbn [app parseArgs] in Hpre |- *.
    destruct s as [|c0 [|c1 tail]]; try (now apply Hrest).
    destruct (negb (Ascii.eqb c0 "-")) eqn:Hc0; [now apply Hrest|].
    destruct (Ascii.eqb c1 "-") eqn:Hc1.
    + destruct tail as [|t0 tail].
      * exfalso. apply Hdash. left.
        apply negb_false_iff in Hc0. apply Ascii.eqb_eq in Hc0, Hc1.
        now subst.
      * apply (Hflag (parseLongArg env (String c0 (String c1 (String t0 tail)))));
          [|exact Hpre].
        intros w' b. apply parseLongArg_alone.
    + apply (Hflag (parseShortArg env (String c0 (String c1 tail))));
        [|exact Hpre].
      intros w' b. apply parseShortArg_alone.
Qed.

(** Parsing does not look at the command line of the environment, only at
    the arguments it is given. *)
Lemma parseArgs_with_args (env : Env) (other : list string) (n : nat) :
  forall (args : list string) (w : World),
    (List.length args <= n)%nat ->
    parseArgs (with_args env other) args w = parseArgs env args w.
Proof.
  induction n as [|n IH]; intros args w Hlen.
  - destruct args; [reflexivity|cbn in Hlen; lia].
  - destruct args as [|s rest]; [reflexivity|].
    cbn [List.length] in Hlen.
    assert (Hrest : forall w', parseArgs (with_args env other) rest w'
                               = parseArgs env rest w')
      by (intros w'; apply IH; lia).
    assert (Hcont : forall (taken : bool) w',
               (if taken
                then match rest with
                     | _ :: rest' => parseArgs (with_args env other) rest'
                     | [] => ret tt
                     end
                else parseArgs (with_args env other) rest) w'
               = (if taken
                  then match rest with
                       | _ :: rest' => parseArgs env rest'
                       | [] => ret tt
                       end
                  else parseArgs env rest) w').
    { intros [|] w'; [|apply Hrest].
      destruct rest as [|x rest']; [reflexivity|].
      apply IH. cbn [List.length] in Hlen. lia. }
    cbn [parseArgs].
    destruct s as [|c0 [|c1 tail]]; try apply Hrest.
    destruct (negb (Ascii.eqb c0 "-")); [apply Hrest|].
    destruct (Ascii.eqb c1 "-").
    + destruct tail as [|t0 tail]; [reflexivity|].
      unfold bind.
      change (parseLongArg (with_args env other))
        with (parseLongArg env).
      destruct (parseLongArg env _ _ w) as [b w2|why w2]; [apply Hcont|reflexivity].
    + unfold bind.
      change (parseShortArg (with_args env other))
        with (parseShortArg env).
      destruct (parseShortArg env _ _ w) as [b w2|why w2]; [apply Hcont|reflexivity].
Qed.

(** A run of [Parse] on another command line: the same directory is read,
    and the flags are parsed from the same world. *)
Lemma run_Parse_with_args (env : Env) (args : list string) :
  run_Parse (with_args env args)
  = match readSensorsFromDir env defaultDir with
    | (sensors, Some e, lines) =>
        Exit ExitFatal
          (mkWorld defaults [mkFlag "sensordir" "z" T_SensorDir]
             ((([Printf_sensordir defaultDir; Infof_sensor_directory defaultDir]
                  ++ lines) ++ [Fatalf_Error_reading_sensors e])))
    | (sensors, None, lines) =>
        match parseArgs env args
                (mkWorld (with_sensors defaults sensors) registeredFlags
                   ([Printf_sensordir defaultDir;
                     Infof_sensor_directory defaultDir] ++ lines)) with
        | Ret _ w => checks (result w) w
        | Exit why w => Exit why w
        end
    end.
Proof.
  rewrite run_Parse_unfold.
  change (readSensorsFromDir (with_args env args) defaultDir)
    with (readSensorsFromDir env defaultDir).
  destruct (readSensorsFromDir env defaultDir) as [[sensors [e|]] lines];
    [reflexivity|].
  cbn [os_Args with_args].
  now rewrite (parseArgs_with_args env args (List.length args) args _ (le_n _)).
Qed.

(** X17: arguments after two dashes alone are never read as flags: a
    command line on which [Parse] returns, and which holds no two dashes
    alone, gives the same configuration, error and log when two dashes and
    any further arguments follow it. *)
Theorem Parse_ignores_arguments_after_dashes
  (env : Env) (args after : list string) (c : Config)
  (err : option ParseError) (w : World) :
  ~ In "--"%string args ->
  run_Parse (with_args env args) = Ret (c, err) w ->
  run_Parse (with_args env (args ++ "--"%string :: after)) = Ret (c, err) w.
Proof.
  intros Hdash. rewrite !run_Parse_with_args.
  destruct (readSensorsFromDir env defaultDir) as [[sensors [e|]] lines];
    [discriminate|].
  destruct (parseArgs env args _) as [[] w1|why w1] eqn:Hargs; [|discriminate].
  intros Hrun.
  rewrite (parseArgs_app env (List.length args) args ("--"%string :: after)
             _ w1 (le_n _) Hdash Hargs).
  exact Hrun.
Qed.

Lemma no_dashes_in_addr_argument : ~ In "--"%string ["--addr=:80"%string].
Proof. intros [H|[]]. discriminate H. Qed.

Lemma Parse_ignores_arguments_after_dashes_witness :
  run_Parse (with_args (exampleEnv [] [("k.json", record_kitchen)]%string)
               (["--addr=:80"] ++ ["--"; "--adapter="; "-s"; "x"])%list)
  = Ret (with_addr
           (with_sensors defaults
              [mkSensor "kitchen" "AA:BB:CC:DD:EE:FF" 60 15 0 0 0 0]) ":80",
         None)
      (mkWorld
         (with_addr
            (with_sensors defaults
               [mkSensor "kitchen" "AA:BB:CC:DD:EE:FF" 60 15 0 0 0 0]) ":80")
         registeredFlags
         [Printf_sensordir defaultDir; Infof_sensor_directory defaultDir;
          Printf_Entry (mkDirEntry "k.json" false); Printf_opening "k.json"]).
Proof.
  assert (Hrun : run_Parse
                   (with_args (exampleEnv [] [("k.json", record_kitchen)]%string)
                      ["--addr=:80"%string])
                 = Ret (with_addr
                          (with_sensors defaults
                             [mkSensor "kitchen" "AA:BB:CC:DD:EE:FF" 60 15 0 0 0 0])
                          ":80", None)
                     (mkWorld
                        (with_addr
                           (with_sensors defaults
                              [mkSensor "kitchen" "AA:BB:CC:DD:EE:FF" 60 15 0 0 0 0])
                           ":80")
                        registeredFlags
                        [Printf_sensordir defaultDir;
                         Infof_sensor_directory defaultDir;
                         Printf_Entry (mkDirEntry "k.json" false);
                         Printf_opening "k.json"]))
    by (vm_compute; reflexivity).
  exact (Parse_ignores_arguments_after_dashes _ ["--addr=:80"%string]
           ["--adapter="; "-s"; "x"]%string _ _ _
           no_dashes_in_addr_argument Hrun).
Defined.

(** The flag [--addr=value], alone: the listen address is set. *)
Lemma parseArgs_addr (env : Env) (value : string) (w : World) :
  CommandLine w = registeredFlags ->
  parseArgs env [("--addr=" ++ value)%string] w
  = Ret tt (with_result w (with_addr (result w) value)).
Proof.
  destruct w as [c flags log]. cbn [CommandLine]. intros ->. reflexivity.
Qed.

(** X18: the last value of a flag wins: when [Parse] returns on a command
    line without two dashes alone, it returns on that command line followed
    by [--addr=value] the same configuration with [value] as listen
    address, and the same error, whatever the earlier arguments set. *)
Theorem Parse_last_addr_wins
  (env : Env) (args : list string) (value : string) (c : Config)
  (err : option ParseError) (w : World) :
  ~ In "--"%string args ->
  run_Parse (with_args env args) = Ret (c, err) w ->
  run_Parse (with_args env (args ++ [("--addr=" ++ value)%string]))
  = Ret (with_addr c value, err) (with_result w (with_addr c value)).
Proof.
  intros Hdash. rewrite !run_Parse_with_args.
  destruct (readSensorsFromDir env defaultDir) as [[sensors [e|]] lines];
    [discriminate|].
  pose proof (parseArgs_keeps env (List.length args) args
                (mkWorld (with_sensors defaults sensors) registeredFlags
                   ([Printf_sensordir defaultDir;
                     Infof_sensor_directory defaultDir] ++ lines))
                (le_n _)) as Hkeep.
  destruct (parseArgs env args _) as [[] w1|why w1] eqn:Hargs; [|discriminate].
  cbn [final] in Hkeep. destruct Hkeep as [Hflags _].
  cbn [CommandLine] in Hflags.
  rewrite checks_spec. intros Hrun. injection Hrun as Hc He Hw.
  rewrite (parseArgs_app env (List.length args) args _ _ w1 (le_n _) Hdash Hargs).
  rewrite (parseArgs_addr env value w1 Hflags), checks_spec.
  subst c err w. reflexivity.
Qed.

Lemma Parse_last_addr_wins_witness :
  run_Parse (with_args (exampleEnv [] [("k.json", record_kitchen)]%string)
               (["--addr=:80"] ++ ["--addr=:9000"])%list)
  = Ret (with_addr
           (with_addr
              (with_sensors defaults
                 [mkSensor "kitchen" "AA:BB:CC:DD:EE:FF" 60 15 0 0 0 0]) ":80")
           ":9000", None)
      (with_result
         (mkWorld
            (with_addr
               (with_sensors defaults
                  [mkSensor "kitchen" "AA:BB:CC:DD:EE:FF" 60 15 0 0 0 0]) ":80")
            registeredFlags
            [Printf_sensordir defaultDir; Infof_sensor_directory defaultDir;
             Printf_Entry (mkDirEntry "k.json" false); Printf_opening "k.json"])
         (with_addr
            (with_addr
               (with_sensors defaults
                  [mkSensor "kitchen" "AA:BB:CC:DD:EE:FF" 60 15 0 0 0 0]) ":80")
            ":9000")).
Proof.
  assert (Hrun : run_Parse
                   (with_args (exampleEnv [] [("k.json", record_kitchen)]%string)
                      ["--addr=:80"%string])
                 = Ret (with_addr
                          (with_sensors defaults
                             [mkSensor "kitchen" "AA:BB:CC:DD:EE:FF" 60 15 0 0 0 0])
                          ":80", None)
                     (mkWorld
                        (with_addr
                           (with_sensors defaults
                              [mkSensor "kitchen" "AA:BB:CC:DD:EE:FF" 60 15 0 0 0 0])
                           ":80")
                        registeredFlags
                        [Printf_sensordir defaultDir;
                         Infof_sensor_directory defaultDir;
                         Printf_Entry (mkDirEntry "k.json" false);
                         Printf_opening "k.json"]))
    by (vm_compute; reflexivity).
  exact (Parse_last_addr_wins _ ["--addr=:80"%string] ":9000" _ _ _
           no_dashes_in_addr_argument Hrun).
Defined.

Lemma parseArgs_positional (env : Env) (args : list string) :
  forall w, forallb positional args = true -> parseArgs env args w = Ret tt w.
Proof.
  induction args as [|s rest IH]; intros w Hall; [reflexivity|].
  cbn [forallb] in Hall. apply andb_true_iff in Hall. destruct Hall as [Hs Hrest].
  cbn [parseArgs].
  destruct s as [|c0 [|c1 tail]]; try (now apply IH).
  unfold positional in Hs. cbn [Strings.HasPrefix] in Hs.
  rewrite andb_true_r, Ascii.eqb_sym in Hs. rewrite Hs. now apply IH.
Qed.

(** X19: arguments that do not start with a dash are passed over: a
    command line made of such arguments only gives what the empty command
    line gives. *)
Theorem Parse_ignores_positional_arguments (env : Env) (args : list string) :
  forallb positional args = true ->
  run_Parse (with_args env args) = run_Parse (with_args env []).
Proof.
  intros Hall. rewrite !run_Parse_with_args.
  destruct (readSensorsFromDir env defaultDir) as [[sensors [e|]] lines];
    [reflexivity|].
  now rewrite (parseArgs_positional env args _ Hall).
Qed.

Lemma Parse_ignores_positional_arguments_witness :
  run_Parse (with_args (exampleEnv [] []) ["kitchen=AA:BB"; ""; "s"]%string)
  = run_Parse (with_args (exampleEnv [] []) []).
Proof.
  exact (Parse_ignores_positional_arguments (exampleEnv [] [])
           ["kitchen=AA:BB"; ""; "s"]%string eq_refl).
Defined.

(** The flag [--stale-duration=text], alone. *)
Lemma parseArgs_stale (env : Env) (text : string) (w : World) :
  CommandLine w = registeredFlags ->
  parseArgs env [("--stale-duration=" ++ text)%string] w
  = match time_ParseDuration env text with
    | Some d =>
        Ret tt
          (with_result w
             (with_durations (result w) (RefreshDuration (result w)) d))
    | None => Exit (ExitFlags (InvalidArgument text "stale-duration")) w
    end.
Proof.
  destruct w as [c flags log]. cbn [CommandLine]. intros ->.
  cbn [parseArgs append negb]. unfold bind, parseLongArg.
  cbv beta iota delta [Strings.drop append Ascii.eqb Bool.eqb negb orb].
  change (Strings.SplitN
            (String "s" (String "t" (String "a" (String "l" (String "e"
               (String "-" (String "d" (String "u" (String "r" (String "a"
                  (String "t" (String "i" (String "o" (String "n"
                     (String "=" text))))))))))))))) "=" 2)
    with ["stale-duration"%string; text].
  cbn [hd CommandLine].
  change (lookupLong registeredFlags "stale-duration")
    with (Some (mkFlag "stale-duration" "" T_StaleDuration)).
  cbv iota. unfold bind, Flag_Set, ret.
  cbn [flag_Target flag_Name Value_Set result CommandLine logged].
  destruct (time_ParseDuration env text); reflexivity.
Qed.

(** X20: with the default refresh interval of two minutes, the stale
    duration given by [--stale-duration] alone is accepted from four
    minutes on and refused under four minutes, with the staleness error
    naming four minutes; a text that is no duration ends the run. *)
Theorem Parse_stale_duration_flag (env : Env) (text : string)
  (sensors : list Sensor) (lines : list LogEntry) :
  os_Args env = [("--stale-duration=" ++ text)%string] ->
  readSensorsFromDir env defaultDir = ((sensors, None), lines) ->
  sensors <> [] ->
  match time_ParseDuration env text with
  | Some d =>
      returned (run_Parse env)
      = Some (with_durations (with_sensors defaults sensors) (2 * Minute) d,
              if d <? 4 * Minute
              then Some (ErrStaleDuration (4 * Minute)) else None)
  | None =>
      exitReason (run_Parse env)
      = Some (ExitFlags (InvalidArgument text "stale-duration"))
  end.
Proof.
  intros Hargs Hdir Hsensors.
  rewrite run_Parse_unfold, Hdir, Hargs.
  rewrite parseArgs_stale by reflexivity.
  destruct (time_ParseDuration env text) as [d|]; [|reflexivity].
  rewrite checks_spec. cbn [returned]. f_equal. f_equal.
  destruct sensors as [|s0 sensors]; [contradiction|].
  unfold enforced. cbn [with_result result with_durations with_sensors defaults
                        Sensors Device StaleDuration RefreshDuration Retry].
  change (String.eqb "hci0" "") with false. cbv iota.
  change (wrap64 (2 * (2 * Minute))) with (4 * Minute).
  destruct (d <? 4 * Minute); reflexivity.
Qed.

Lemma Parse_stale_duration_flag_witness :
  let env := mkEnv ["--stale-duration=1m"]%string
               (exampleReadDir [("k.json", record_kitchen)]%string)
               (exampleReadFile [("k.json", record_kitchen)]%string) exampleJoin
               (fun text => if String.eqb text "1m" then Some Minute else None)
               (fun _ => None) in
  returned (run_Parse env)
  = Some (with_durations
            (with_sensors defaults
               [mkSensor "kitchen" "AA:BB:CC:DD:EE:FF" 60 15 0 0 0 0])
            (2 * Minute) Minute,
          Some (ErrStaleDuration (4 * Minute))).
Proof.
  intros env.
  assert (Hdir : readSensorsFromDir env defaultDir
                 = (([mkSensor "kitchen" "AA:BB:CC:DD:EE:FF" 60 15 0 0 0 0], None),
                    [Printf_Entry (mkDirEntry "k.json" false);
                     Printf_opening "k.json"]))
    by (vm_compute; reflexivity).
  assert (Hne : [mkSensor "kitchen" "AA:BB:CC:DD:EE:FF" 60 15 0 0 0 0] <> [])
    by discriminate.
  exact (Parse_stale_duration_flag env "1m"
           [mkSensor "kitchen" "AA:BB:CC:DD:EE:FF" 60 15 0 0 0 0]
           [Printf_Entry (mkDirEntry "k.json" false); Printf_opening "k.json"]
           eq_refl Hdir Hne).
Defined.
